(** * Evaluation of a pose regressor: metric aggregation of [eft/apps]

    A shallow embedding of [run_evaluation] of [eft/apps/eval_export.py] and
    [eft/apps/evalfrompkl.py]: the per-sample error (MPJPE), the per-sequence
    dictionaries [quant_mpjpe] and [quant_recon_err], the progress output, the
    final report and the return value.

    Numbers.  The program computes with IEEE floating point.  In [NpFloat] a
    value is a real number or one of the special values; the arithmetic of
    finite values is the exact one of the reals, the special values follow
    IEEE 754.  A statement on a computed finite value is therefore one on the
    sums and means taken in the order of the code, and the values of the
    examples are exact in single precision.  [TensorArith] has the expression
    of the error over any arithmetic, with the single precision of
    [SpecFloat] as an instance that is evaluated.

    Effects.  A computation threads the lines printed so far and returns a
    value or raises a Python exception.  The dictionaries keep the order of
    insertion.

    What is outside.  The network, the body model, the joint regressor and
    the data loader are not part of the two scripts: a sample comes with its
    predicted and its ground-truth joints, and a batch is a list of samples
    that is not empty.  [reconstruction_error] and the number format of Python
    are parameters.  [EvalExport.run_evaluation_to] takes the parameter
    [result_file] of [eval_export.py], and [EvalExport.run_evaluation] is its
    case [result_file=None]; [EvalFromPkl.run_evaluation] is the run with
    [result_file=None], the default of the script.  The assertions of Python
    are enabled. *)

From Stdlib Require Import Reals Lra Psatz String Ascii DecimalString
  DecimalNat ZArith Lia Bool Permutation Arith List.
From Stdlib Require SpecFloat.
Import ListNotations.

Set Implicit Arguments.

(** ** Floating-point values *)

Module NpFloat.

Local Open Scope R_scope.

Inductive float : Type :=
| Fin (x : R)
| Inf (negative : bool)
| NaN.

Definition isfinite (a : float) : bool :=
  match a with Fin _ => true | _ => false end.

Definition fadd (a b : float) : float :=
  match a, b with
  | NaN, _ | _, NaN => NaN
  | Fin x, Fin y => Fin (x + y)
  | Inf s, Fin _ | Fin _, Inf s => Inf s
  | Inf s, Inf t => if Bool.eqb s t then Inf s else NaN
  end.

Definition fneg (a : float) : float :=
  match a with
  | Fin x => Fin (- x)
  | Inf s => Inf (negb s)
  | NaN => NaN
  end.

Definition fsub (a b : float) : float := fadd a (fneg b).

(** Sign of a finite factor in a product with an infinity: [None] for zero. *)
Definition sign_of (x : R) : option bool :=
  if Rlt_dec x 0 then Some true
  else if Rlt_dec 0 x then Some false
  else None.

Definition fmul (a b : float) : float :=
  match a, b with
  | NaN, _ | _, NaN => NaN
  | Fin x, Fin y => Fin (x * y)
  | Inf s, Fin x | Fin x, Inf s =>
      match sign_of x with
      | Some t => Inf (xorb s t)
      | None => NaN
      end
  | Inf s, Inf t => Inf (xorb s t)
  end.

(** [x ** 2] *)
Definition fpow2 (a : float) : float := fmul a a.

Definition fsqrt (a : float) : float :=
  match a with
  | Fin x => if Rlt_dec x 0 then NaN else Fin (sqrt x)
  | Inf false => Inf false
  | Inf true => NaN
  | NaN => NaN
  end.

(** Division of an accumulated sum by a positive count. *)
Definition fdiv_count (a : float) (n : nat) : float :=
  match a with
  | Fin x => Fin (x / INR n)
  | Inf s => Inf s
  | NaN => NaN
  end.

(** [a.sum()] of a one-dimensional array *)
Definition np_sum (l : list float) : float := fold_left fadd l (Fin 0).

(** [a.mean()] of a one-dimensional array: the mean of an empty array is
    [nan] (numpy divides 0.0 by 0 and warns). *)
Definition np_mean (l : list float) : float :=
  match l with
  | [] => NaN
  | _ :: _ => fdiv_count (np_sum l) (length l)
  end.

End NpFloat.
Export NpFloat.

(** ** Tensors as nested lists *)

Module Tensor.

Definition map2 {A B C : Type} (f : A -> B -> C) (l1 : list A) (l2 : list B)
  : list C :=
  map (fun ab => f (fst ab) (snd ab)) (combine l1 l2).

(** One sample: [J] rows of three coordinates.  One batch: a list of samples. *)
Definition joints := list (list float).
Definition tensor3 := list joints.

(** [P - G], elementwise, on operands of one shape (at both call sites the two
    operands are indexed by joint mappers of the same length). *)
Definition tsub (P G : tensor3) : tensor3 := map2 (map2 (map2 fsub)) P G.

(** [T ** 2], elementwise *)
Definition tpow2 (T : tensor3) : tensor3 := map (map (map fpow2)) T.

(** [T.sum(dim=-1)] of a three-dimensional tensor *)
Definition tsum_last (T : tensor3) : list (list float) := map (map np_sum) T.

(** [torch.sqrt(T)], elementwise *)
Definition tsqrt (T : list (list float)) : list (list float) :=
  map (map fsqrt) T.

(** [T.mean(dim=-1)] of a two-dimensional tensor *)
Definition tmean_last (T : list (list float)) : list float := map np_mean T.

(** [error = torch.sqrt(((pred_keypoints_3d - gt_keypoints_3d) ** 2)
               .sum(dim=-1)).mean(dim=-1)] *)
Definition mpjpe_error (pred_keypoints_3d gt_keypoints_3d : tensor3)
  : list float :=
  tmean_last (tsqrt (tsum_last (tpow2 (tsub pred_keypoints_3d gt_keypoints_3d)))).

End Tensor.
Export Tensor.

(** ** The metric as the specification words it *)

Module MetricSpec.

Local Open Scope R_scope.

Definition point : Type := (R * R * R)%type.

(** Euclidean distance of two joints *)
Definition dist (p g : point) : R :=
  let '(px, py, pz) := p in
  let '(gx, gy, gz) := g in
  sqrt ((px - gx) * (px - gx) + (py - gy) * (py - gy) + (pz - gz) * (pz - gz)).

Fixpoint Rsum (l : list R) : R :=
  match l with
  | [] => 0
  | x :: r => x + Rsum r
  end.

(** Mean over the joints of the distance of corresponding joints *)
Definition mpjpe (P G : list point) : R :=
  Rsum (map2 dist P G) / INR (length P).

(** A joint as a row of the tensor *)
Definition row_of (p : point) : list float :=
  let '(x, y, z) := p in [Fin x; Fin y; Fin z].


End MetricSpec.

(** ** The expression of the error over any arithmetic

    [torch] and [numpy] compute with the 32-bit floating-point numbers of
    IEEE 754: every operation rounds, and the order in which a sum is taken
    is the library's.  The expression of the scripts is the same whatever the
    numbers and the operations on them are: here it is over an arithmetic
    that is a parameter.  [Tensor.mpjpe_error] is its instance for the values
    of [NpFloat]; the instance [binary32] computes with the numbers of
    IEEE 754. *)

Module TensorArith.

(** The numbers of a tensor, with the operations that the expression uses *)
Record arith (F : Type) : Type := Arith {
  a_sub : F -> F -> F;     (* [x - y] *)
  a_pow2 : F -> F;         (* [x ** 2] *)
  a_sum : list F -> F;     (* [.sum(dim=-1)] of one row *)
  a_sqrt : F -> F;         (* [torch.sqrt] *)
  a_mean : list F -> F     (* [.mean(dim=-1)] of one row *)
}.

Section Over.

Variable F : Type.
Variable A : arith F.

Definition tsub_over (P G : list (list (list F))) : list (list (list F)) :=
  map2 (map2 (map2 (a_sub A))) P G.

Definition tpow2_over (T : list (list (list F))) : list (list (list F)) :=
  map (map (map (a_pow2 A))) T.

Definition tsum_last_over (T : list (list (list F))) : list (list F) :=
  map (map (a_sum A)) T.

Definition tsqrt_over (T : list (list F)) : list (list F) :=
  map (map (a_sqrt A)) T.

Definition tmean_last_over (T : list (list F)) : list F := map (a_mean A) T.

(** [error = torch.sqrt(((pred_keypoints_3d - gt_keypoints_3d) ** 2)
               .sum(dim=-1)).mean(dim=-1)] *)
Definition mpjpe_error_over (pred_keypoints_3d gt_keypoints_3d
                             : list (list (list F))) : list F :=
  tmean_last_over
    (tsqrt_over
       (tsum_last_over (tpow2_over (tsub_over pred_keypoints_3d gt_keypoints_3d)))).






End Over.




(** The binary32 numbers of IEEE 754, with rounding to nearest, ties to even.
    The sum of a row is taken from left to right, starting from zero: one of
    the orders a library may take; the mean divides the sum by the count. *)
Definition b32 : Type := SpecFloat.spec_float.
Definition b32_prec : Z := 24.
Definition b32_emax : Z := 128.

Definition b32_of_Z (z : Z) : b32 :=
  SpecFloat.binary_normalize b32_prec b32_emax z 0 false.

(** [m * 2 ** e] *)
Definition b32_scaled (m e : Z) : b32 :=
  SpecFloat.binary_normalize b32_prec b32_emax m e false.

Definition b32_sum (l : list b32) : b32 :=
  fold_left (SpecFloat.SFadd b32_prec b32_emax) l (SpecFloat.S754_zero false).

Definition b32_mean (l : list b32) : b32 :=
  SpecFloat.SFdiv b32_prec b32_emax (b32_sum l)
    (b32_of_Z (Z.of_nat (length l))).

Definition binary32 : arith b32 :=
  Arith (SpecFloat.SFsub b32_prec b32_emax)
        (fun x => SpecFloat.SFmul b32_prec b32_emax x x)
        b32_sum
        (SpecFloat.SFsqrt b32_prec b32_emax)
        b32_mean.

Definition b32_row (p : Z * Z * Z) : list b32 :=
  let '(x, y, z) := p in [b32_of_Z x; b32_of_Z y; b32_of_Z z].

End TensorArith.

(** ** Paths: [os.path] of the POSIX flavour *)

Module PosixPath.

Local Open Scope string_scope.

Definition is_sep (c : ascii) : bool := Ascii.eqb c "/"%char.

(** [p.rfind('/') + 1]: the position after the last separator, 0 without one *)
Fixpoint rfind_sep_succ (p : string) : nat :=
  match p with
  | EmptyString => 0
  | String c rest =>
      match rfind_sep_succ rest with
      | 0 => if is_sep c then 1 else 0
      | S i => S (S i)
      end
  end.

(** [p[:i]] and [p[i:]] for [0 <= i] *)
Definition slice_to (i : nat) (p : string) : string := substring 0 i p.
Definition slice_from (i : nat) (p : string) : string :=
  substring i (String.length p - i) p.

(** [head != '/' * len(head)] *)
Fixpoint all_sep (s : string) : bool :=
  match s with
  | EmptyString => true
  | String c rest => is_sep c && all_sep rest
  end.

(** [head.rstrip('/')] *)
Fixpoint rstrip_sep (s : string) : string :=
  match s with
  | EmptyString => EmptyString
  | String c rest =>
      match rstrip_sep rest with
      | EmptyString => if is_sep c then EmptyString else String c EmptyString
      | r => String c r
      end
  end.

(** [os.path.basename(p)] *)
Definition basename (p : string) : string :=
  slice_from (rfind_sep_succ p) p.

(** [os.path.dirname(p)] *)
Definition dirname (p : string) : string :=
  let head := slice_to (rfind_sep_succ p) p in
  if negb (String.eqb head "") && negb (all_sep head)
  then rstrip_sep head else head.

Definition startswith_sep (b : string) : bool :=
  match b with
  | String c _ => is_sep c
  | EmptyString => false
  end.

Definition endswith_sep (a : string) : bool :=
  match get (String.length a - 1) a with
  | Some c => is_sep c
  | None => false
  end.

(** [os.path.join(a, b)] *)
Definition join (a b : string) : string :=
  if startswith_sep b then b
  else if String.eqb a "" || endswith_sep a then a ++ b
  else a ++ "/" ++ b.

(** No separator in the string: for statements about file names. *)
Fixpoint no_sep (s : string) : bool :=
  match s with
  | EmptyString => true
  | String c rest => negb (is_sep c) && no_sep rest
  end.

(** [s[:-4]] *)
Definition drop_last4 (s : string) : string :=
  substring 0 (String.length s - 4) s.

End PosixPath.

(** ** The parent directory of a path, as the specification words it

    A path is a sequence of names separated by ['/']: the last one names the
    file, the ones before it the directories above the file. *)

Module PathSpec.

Local Open Scope string_scope.

(** What stands between the separators of a path, from left to right *)
Fixpoint components (p : string) : list string :=
  match p with
  | EmptyString => [EmptyString]
  | String c rest =>
      if Ascii.eqb c "/"%char then EmptyString :: components rest
      else
        match components rest with
        | x :: xs => String c x :: xs
        | [] => [String c EmptyString]
        end
  end.

(** The directories above the file: the components before the last one,
    without the empty ones, which a doubled separator or the root leave *)
Definition directories (p : string) : list string :=
  filter (fun c => negb (String.eqb c "")) (removelast (components p)).

(** The base name of the parent directory: the name of the last directory
    above the file, the empty string when there is none *)
Definition parent_directory_name (p : string) : string :=
  last (directories p) "".

End PathSpec.

(** ** Python effects: exceptions and standard output *)

Module Py.

Inductive exn : Type :=
| IndexError
| KeyError
| ValueError
| NameError
| ZeroDivisionError
| AssertionError
| UnboundLocalError.

Inductive result (A : Type) : Type :=
| Ok (a : A)
| Raise (e : exn).
Arguments Ok {A} a.
Arguments Raise {A} e.

(** What [print] writes, one constructor per format string of the source. *)
Inductive out_line : Type :=
| OutMissing (pklfilepath : string)
    (* f"Missing file: {pklfilepath}" *)
| OutBatch (seqName : string) (e re total_e total_re : float)
    (* ">>> {} : MPJPE {:.02f} mm, error: {:.02f} mm | Total MPJPE ..." *)
| OutProgress (label : string) (v : float)
    (* 'MPJPE: ' + str(v), 'Reconstruction Error: ' + str(v) *)
| OutBlank
    (* print() *)
| OutText (s : string)
    (* a string printed as it is *)
| OutSummary (mpjpe_mm recon_mm : float)
    (* ">>>  Test on 3DPW: MPJPE: {} | quant_recon_error_avg_mm: {}" *)
| OutSaved (result_file : string).
    (* "Saved to:{}" *)

(** A computation reads and extends the output and returns or raises. *)
Definition M (A : Type) : Type := list out_line -> result A * list out_line.

Definition ret {A : Type} (a : A) : M A := fun out => (Ok a, out).

Definition bind {A B : Type} (m : M A) (f : A -> M B) : M B :=
  fun out =>
    match m out with
    | (Ok a, out') => f a out'
    | (Raise e, out') => (Raise e, out')
    end.

Definition raise {A : Type} (e : exn) : M A := fun out => (Raise e, out).

Definition print (l : out_line) : M unit := fun out => (Ok tt, out ++ [l]).

Definition lift {A : Type} (r : result A) : M A := fun out => (r, out).

Definition when (b : bool) (m : M unit) : M unit := if b then m else ret tt.

Definition rbind {A B : Type} (r : result A) (f : A -> result B) : result B :=
  match r with
  | Ok a => f a
  | Raise e => Raise e
  end.

(** [l[i]] *)
Definition index {A : Type} (l : list A) (i : nat) : result A :=
  match nth_error l i with
  | Some a => Ok a
  | None => Raise IndexError
  end.

End Py.
Export Py.

Declare Scope py_scope.
Delimit Scope py_scope with py.
Notation "x <- m ;; k" := (bind m (fun x => k))
  (at level 61, m at next level, right associativity) : py_scope.
Notation "m ;;; k" := (bind m (fun _ => k))
  (at level 61, right associativity) : py_scope.
Notation "x <-? r ;; k" := (rbind r (fun x => k))
  (at level 61, r at next level, right associativity) : py_scope.

(** ** A Python [dict] with string keys and list values

    Iteration follows insertion order, so a dictionary is an association list
    whose keys are pairwise different; a new key goes to the end. *)

Module Dict.

Definition dict : Type := list (string * list float).

(** [k in d.keys()] *)
Definition mem (k : string) (d : dict) : bool :=
  existsb (fun kv => String.eqb (fst kv) k) d.

(** [d[k]] *)
Fixpoint get (k : string) (d : dict) : result (list float) :=
  match d with
  | [] => Raise KeyError
  | (k', v) :: r => if String.eqb k' k then Ok v else get k r
  end.

(** [d[k] = v] *)
Fixpoint set (k : string) (v : list float) (d : dict) : dict :=
  match d with
  | [] => [(k, v)]
  | (k', v') :: r =>
      if String.eqb k' k then (k', v) :: r else (k', v') :: set k v r
  end.

(** [d[k].append(x)]: the list stored under [k] grows in place. *)
Definition append (k : string) (x : float) (d : dict) : result dict :=
  match get k d with
  | Ok v => Ok (set k (v ++ [x]) d)
  | Raise e => Raise e
  end.

(** [[k for k in d]] and [[d[k] for k in d]] *)
Definition keys (d : dict) : list string := map fst d.
Definition values (d : dict) : list (list float) := map snd d.

(** The list stored under [k], empty when there is none: for statements. *)
Definition bucket (k : string) (d : dict) : list float :=
  match get k d with
  | Ok v => v
  | Raise _ => []
  end.

End Dict.

(** ** The per-sequence aggregation shared by both scripts *)

Module Aggregator.

Local Open Scope string_scope.
Local Open Scope py_scope.

(** The two dictionaries of [run_evaluation] *)
Record quant : Type := Quant {
  quant_mpjpe : Dict.dict;
  quant_recon_err : Dict.dict
}.

(** [quant_mpjpe = {}] and [quant_recon_err = {}] *)
Definition quant_empty : quant := Quant [] [].

(** [seqName = os.path.basename(os.path.dirname(p))] *)
Definition seq_name (p : string) : string :=
  PosixPath.basename (PosixPath.dirname p).

(** The body of the loop over the image names of a batch: the buckets of a new
    sequence name are created, then the two errors of sample [ii] are
    appended. *)
Definition record_sample (q : quant) (ii : nat) (p : string)
    (error r_error : list float) : result quant :=
  let seqName := seq_name p in
  let q1 :=
    if negb (Dict.mem seqName (quant_mpjpe q))
    then Quant (Dict.set seqName [] (quant_mpjpe q))
               (Dict.set seqName [] (quant_recon_err q))
    else q in
  _ <-? Dict.get seqName (quant_mpjpe q1) ;;
  e <-? index error ii ;;
  m <-? Dict.append seqName e (quant_mpjpe q1) ;;
  _ <-? Dict.get seqName (quant_recon_err q1) ;;
  r <-? index r_error ii ;;
  rr <-? Dict.append seqName r (quant_recon_err q1) ;;
  Ok (Quant m rr).

(** [for ii, p in enumerate(names): ...], from position [ii] on *)
Fixpoint record_loop (q : quant) (ii : nat) (names : list string)
    (error r_error : list float) : result quant :=
  match names with
  | [] => Ok q
  | p :: rest =>
      q' <-? record_sample q ii p error r_error ;;
      record_loop q' (S ii) rest error r_error
  end.

(** [for ii, p in enumerate(batch['imgname'][:len(r_error)]): ...] *)
Definition record_batch (q : quant) (imgname : list string)
    (error r_error : list float) : result quant :=
  record_loop q 0 (firstn (length r_error) imgname) error r_error.

(** The value of [seqName] after that loop: the name of the last sample it
    went through, or the value the variable had before. *)
Definition seq_name_after (before : string) (imgname : list string)
    (r_error : list float) : string :=
  last (map seq_name (firstn (length r_error) imgname)) before.

(** [np.hstack(tup)]: the arrays of [tup] one after the other; numpy raises
    [ValueError] when there is nothing to concatenate. *)
Definition hstack (tup : list (list float)) : result (list float) :=
  match tup with
  | [] => Raise ValueError
  | _ :: _ => Ok (concat tup)
  end.

(** [np.hstack(a)] of a one-dimensional array or of a list of scalars: its
    elements, each as an array of one element, one after the other. *)
Definition hstack_scalars (a : list float) : result (list float) :=
  hstack (map (fun x => [x]) a).

(** [np.hstack([d[k] for k in d])] *)
Definition hstack_dict (d : Dict.dict) : result (list float) :=
  hstack (Dict.values d).

(** [np.hstack(np.hstack([d[k] for k in d])).mean()]: the running mean over
    all the samples of all the sequences. *)
Definition overall_mean (d : Dict.dict) : result float :=
  l <-? hstack_dict d ;;
  l' <-? hstack_scalars l ;;
  Ok (np_mean l').

(** [np.hstack(d[seq]).mean()] *)
Definition bucket_mean (bucket : list float) : result float :=
  l <-? hstack_scalars bucket ;;
  Ok (np_mean l).

(** The line feed of ['\n'] *)
Definition nl : string := String (ascii_of_nat 10) EmptyString.

(** One sample as the loop sees it: image name, [error[ii]], [r_error[ii]] *)
Definition entry : Type := (string * float * float)%type.
Definition entry_name (x : entry) : string := fst (fst x).
Definition entry_error (x : entry) : float := snd (fst x).
Definition entry_r_error (x : entry) : float := snd x.

(** One pass of the loop over a batch, for the samples [b] *)
Definition record_call (q : quant) (b : list entry) : result quant :=
  record_batch q (map entry_name b) (map entry_error b) (map entry_r_error b).

(** The passes for the batches of a run, one after the other *)
Fixpoint record_calls (q : quant) (bs : list (list entry)) : result quant :=
  match bs with
  | [] => Ok q
  | b :: rest => q' <-? record_call q b ;; record_calls q' rest
  end.

Section Report.

(** ['{:.02f}'.format(x)] of the Python runtime *)
Variable fmt2 : float -> string.

(** [for seq in d: output_str += seq + ';'] *)
Fixpoint names_str (d : Dict.dict) : string :=
  match d with
  | [] => ""
  | (seq, _) :: r => (seq ++ ";") ++ names_str r
  end.

(** [for seq in d: output_str += '{:.02f}; '.format(1000 * np.hstack(d[seq]).mean())],
    over the entries of [d] that are still to come *)
Fixpoint means_str (d : Dict.dict) : result string :=
  match d with
  | [] => Ok ""
  | (_, bucket) :: r =>
      m <-? bucket_mean bucket ;;
      s <-? means_str r ;;
      Ok ((fmt2 (fmul (Fin 1000) m) ++ "; ") ++ s)
  end.

(** The final block of [run_evaluation] under [if eval_pose:], up to the
    [return]: the report [output_str] and the two averages in millimetres. *)
Definition final_report (q : quant) : result (string * float * float) :=
  _ <-? hstack_dict (quant_mpjpe q) ;;
  _ <-? hstack_dict (quant_recon_err q) ;;
  let output_str := "SeqNames; " in
  let output_str := output_str ++ names_str (quant_mpjpe q) in
  let output_str := output_str ++ nl ++ " MPJPE; " in
  m <-? overall_mean (quant_mpjpe q) ;;
  let quant_mpjpe_avg_mm := fmul m (Fin 1000) in
  let output_str := output_str ++ "Avg " ++ fmt2 quant_mpjpe_avg_mm ++ " mm; " in
  ms <-? means_str (quant_mpjpe q) ;;
  let output_str := output_str ++ ms in
  let output_str := output_str ++ nl ++ " Recon Error; " in
  r <-? overall_mean (quant_recon_err q) ;;
  let quant_recon_error_avg_mm := fmul r (Fin 1000) in
  let output_str :=
    output_str ++ "Avg " ++ fmt2 quant_recon_error_avg_mm ++ "mm; " in
  rs <-? means_str (quant_recon_err q) ;;
  let output_str := output_str ++ rs in
  Ok (output_str, quant_mpjpe_avg_mm, quant_recon_error_avg_mm).

End Report.

End Aggregator.

(** ** What the data loader yields *)

Module Data.

(** One sample of a batch, at the point where the errors are computed:
    [batch['imgname'][i]], [batch['sample_index'][i]], the rows
    [pred_keypoints_3d[i]] and [gt_keypoints_3d[i]] (predicted by the network
    for the image, and taken from the annotations; both through the body model
    and the joint regressor, which are not part of these scripts). *)
Record sample : Type := Sample {
  imgname : string;
  sample_index : nat;
  pred_joints : joints;
  gt_joints : joints
}.

(** A batch of the [DataLoader] is never empty. *)
Record batch : Type := Batch {
  batch_first : sample;
  batch_rest : list sample
}.

Definition samples (b : batch) : list sample := batch_first b :: batch_rest b.

(** [len(dataset)]: the loader goes through every sample once. *)
Definition len_dataset (data_loader : list batch) : nat :=
  length (concat (map samples data_loader)).

(** What [run_evaluation] returns: the pair of averages, or [-1]. *)
Inductive retval : Type :=
| RetPair (quant_mpjpe_avg_mm quant_recon_error_avg_mm : float)
| RetMinusOne.

End Data.
Export Data.

(** ** The parts of [run_evaluation] that the two scripts have in common *)

Module EvalCommon.

Import Aggregator.
Local Open Scope string_scope.
Local Open Scope py_scope.

Section Common.

(** Modelled from the spec: [reconstruction_error] of [utils/pose_utils.py],
    which is not among the sources, gives one scalar per sample, computed from
    the predicted and the ground-truth joints of that sample. *)
Variable reconstruction_error1 : joints -> joints -> float.

Variable fmt2 : float -> string.

(** [reconstruction_error(pred, gt, reduction=None)] *)
Definition reconstruction_error (pred gt : tensor3) : list float :=
  map2 reconstruction_error1 pred gt.

(** The block [if eval_pose:] of the loop, for the image names of the batch
    and the two tensors; [seqName] is the value of that variable before the
    block. *)
Definition pose_block (bVerbose : bool) (seqName : string)
    (names : list string) (pred_keypoints_3d gt_keypoints_3d : tensor3)
    (q : quant) : M quant :=
  let error := mpjpe_error pred_keypoints_3d gt_keypoints_3d in
  let r_error := reconstruction_error pred_keypoints_3d gt_keypoints_3d in
  q' <- lift (record_batch q names error r_error) ;;
  let seqName := seq_name_after seqName names r_error in
  list_mpjpe <- lift (hstack_dict (quant_mpjpe q')) ;;
  list_reconError <- lift (hstack_dict (quant_recon_err q')) ;;
  when bVerbose (
    m <- lift (l <-? hstack_scalars list_mpjpe ;; Ok (np_mean l)) ;;
    r <- lift (l <-? hstack_scalars list_reconError ;; Ok (np_mean l)) ;;
    print (OutBatch seqName
             (fmul (np_mean error) (Fin 1000))
             (fmul (np_mean r_error) (Fin 1000))
             (fmul m (Fin 1000)) (fmul r (Fin 1000)))) ;;;
  ret q'.

(** The blocks [if eval_masks:] and [if eval_parts:] of the loop read [mask]
    and [parts] for the first sample of the batch; no statement of the function
    or of the module assigns these names (the call of the renderer is commented
    out). *)
Definition masks_block (eval_masks : bool) : M unit :=
  when eval_masks (raise NameError).

Definition parts_block (eval_parts : bool) : M unit :=
  when eval_parts (raise NameError).

(** [mpjpe = np.zeros(len(dataset))] and [recon_err = np.zeros(len(dataset))];
    no statement stores into them. *)
Definition np_zeros (n : nat) : list float := repeat (Fin 0) n.

(** The block under [# Print intermediate results during evaluation].
    [step % log_freq] raises for a zero [log_freq]; otherwise Python's
    remainder has the sign of the divisor, as [Z.modulo]. *)
Definition progress_block (bVerbose eval_pose eval_masks eval_parts : bool)
    (step batch_size : nat) (log_freq : Z) (mpjpe recon_err : list float)
  : M unit :=
  when bVerbose (
    if Z.eqb log_freq 0 then raise ZeroDivisionError
    else
      when (Z.eqb (Z.modulo (Z.of_nat step) log_freq) (log_freq - 1)) (
        when eval_pose (
          print (OutProgress "MPJPE: "
                   (fmul (Fin 1000) (np_mean (firstn (step * batch_size) mpjpe)))) ;;;
          print (OutProgress "Reconstruction Error: "
                   (fmul (Fin 1000) (np_mean (firstn (step * batch_size) recon_err)))) ;;;
          print OutBlank) ;;;
        when eval_masks (raise ZeroDivisionError) ;;;
        when eval_parts (raise ZeroDivisionError))).

(** After the loop, from [if bVerbose: print('*** Final Results ***')] to the
    end.  Without pose evaluation the function prints [accuracy / pixel_count]
    for the masks, both of them still zero: every statement that adds to them
    comes after the use of [mask]. *)
Definition final_block (bVerbose eval_pose eval_masks eval_parts : bool)
    (q : quant) : M retval :=
  when bVerbose (print (OutText "*** Final Results ***") ;;; print OutBlank) ;;;
  if eval_pose then
    rep <- lift (final_report fmt2 q) ;;
    let '(output_str, quant_mpjpe_avg_mm, quant_recon_error_avg_mm) := rep in
    (if bVerbose then print (OutText output_str)
     else print (OutSummary quant_mpjpe_avg_mm quant_recon_error_avg_mm)) ;;;
    ret (RetPair quant_mpjpe_avg_mm quant_recon_error_avg_mm)
  else
    when bVerbose (
      when eval_masks (raise ZeroDivisionError) ;;;
      when eval_parts (raise ZeroDivisionError)) ;;;
    ret RetMinusOne.

End Common.

End EvalCommon.

(** ** [run_evaluation] of [eval_export.py], without and with a result file *)

Module EvalExport.

Import Aggregator EvalCommon.
Local Open Scope string_scope.
Local Open Scope py_scope.

Section Run.

Variable reconstruction_error1 : joints -> joints -> float.
Variable fmt2 : float -> string.

(** [# Choose appropriate evaluation for each dataset] *)
Definition eval_pose (dataset_name : string) : bool :=
  String.eqb dataset_name "h36m-p1" || String.eqb dataset_name "h36m-p2"
  || String.eqb dataset_name "3dpw" || String.eqb dataset_name "mpi-inf-3dhp".

Definition eval_masks (dataset_name : string) : bool :=
  negb (eval_pose dataset_name) && String.eqb dataset_name "lsp".

Definition eval_parts (dataset_name : string) : bool := eval_masks dataset_name.

(** The body of [for step, batch in enumerate(data_loader)] *)
Definition loop_body (dataset_name : string) (n batch_size : nat)
    (log_freq : Z) (bVerbose : bool) (step : nat) (b : batch) (q : quant)
  : M quant :=
  let imgName := imgname (batch_first b) in
  let seqName := seq_name imgName in
  q' <- (if eval_pose dataset_name
         then pose_block reconstruction_error1 bVerbose seqName
                (map imgname (samples b))
                (map pred_joints (samples b)) (map gt_joints (samples b)) q
         else ret q) ;;
  masks_block (eval_masks dataset_name) ;;;
  parts_block (eval_parts dataset_name) ;;;
  progress_block bVerbose (eval_pose dataset_name) (eval_masks dataset_name)
    (eval_parts dataset_name) step batch_size log_freq
    (np_zeros n) (np_zeros n) ;;;
  ret q'.

Fixpoint loop (dataset_name : string) (n batch_size : nat) (log_freq : Z)
    (bVerbose : bool) (step : nat) (data_loader : list batch) (q : quant)
  : M quant :=
  match data_loader with
  | [] => ret q
  | b :: rest =>
      q' <- loop_body dataset_name n batch_size log_freq bVerbose step b q ;;
      loop dataset_name n batch_size log_freq bVerbose (S step) rest q'
  end.

Definition run_evaluation (dataset_name : string) (data_loader : list batch)
    (batch_size : nat) (log_freq : Z) (bVerbose : bool) : M retval :=
  q <- loop dataset_name (len_dataset data_loader) batch_size log_freq bVerbose
         0 data_loader quant_empty ;;
  final_block fmt2 bVerbose (eval_pose dataset_name) (eval_masks dataset_name)
    (eval_parts dataset_name) q.

(** *** With a result file

    [save_results = result_file is not None].  The last block of the body of
    the loop, [if save_results:], stores what the batch gave in arrays that
    are pickled to [result_file] after the loop; the function does not read
    them again.  Of that block, this keeps what can fail.  It reads
    [pred_keypoints_3d], [gt_keypoints_3d], [error] and [r_error], local
    names that are assigned under [if eval_pose:] only; and it stores the
    joints in [output_pred_joints] and [output_gt_joints], arrays of shape
    [(len(dataset), 14, 3)] (the joint mappers select fourteen joints,
    seventeen for ['mpi-inf-3dhp']).  The file is supposed to be writable. *)

(** [output[i:j, :] = x] for rows of three coordinates: numpy broadcasts [x],
    whose number of joints has to be 14 or 1, and raises [ValueError]
    otherwise. *)
Definition stores14 (x : joints) : bool :=
  Nat.eqb (length x) 14 || Nat.eqb (length x) 1.

Definition save_block (eval_pose : bool) (b : batch) : M unit :=
  if eval_pose then
    if forallb (fun s => stores14 (pred_joints s) && stores14 (gt_joints s))
         (samples b)
    then ret tt else raise ValueError
  else raise UnboundLocalError.

Definition loop_body_to (save_results : bool) (dataset_name : string)
    (n batch_size : nat) (log_freq : Z) (bVerbose : bool) (step : nat)
    (b : batch) (q : quant) : M quant :=
  q' <- loop_body dataset_name n batch_size log_freq bVerbose step b q ;;
  when save_results (save_block (eval_pose dataset_name) b) ;;;
  ret q'.

Fixpoint loop_to (save_results : bool) (dataset_name : string)
    (n batch_size : nat) (log_freq : Z) (bVerbose : bool) (step : nat)
    (data_loader : list batch) (q : quant) : M quant :=
  match data_loader with
  | [] => ret q
  | b :: rest =>
      q' <- loop_body_to save_results dataset_name n batch_size log_freq
              bVerbose step b q ;;
      loop_to save_results dataset_name n batch_size log_freq bVerbose
        (S step) rest q'
  end.

(** [if save_results: ... print("Saved to:{}".format(result_file))] *)
Definition save_file (result_file : option string) : M unit :=
  match result_file with
  | Some f => print (OutSaved f)
  | None => ret tt
  end.

(** [run_evaluation] with its parameter [result_file]; [run_evaluation]
    above is the case [result_file=None]. *)
Definition run_evaluation_to (result_file : option string)
    (dataset_name : string) (data_loader : list batch) (batch_size : nat)
    (log_freq : Z) (bVerbose : bool) : M retval :=
  let save_results := match result_file with Some _ => true | None => false end in
  q <- loop_to save_results dataset_name (len_dataset data_loader) batch_size
         log_freq bVerbose 0 data_loader quant_empty ;;
  save_file result_file ;;;
  final_block fmt2 bVerbose (eval_pose dataset_name) (eval_masks dataset_name)
    (eval_parts dataset_name) q.

End Run.

End EvalExport.

(** ** [run_evaluation] of [evalfrompkl.py], for [result_file=None] *)

Module EvalFromPkl.

Import Aggregator EvalCommon.
Local Open Scope string_scope.
Local Open Scope py_scope.

(** The last assignment to [pklDir] *)
Definition pklDir : string :=
  "/private/home/hjoo/spinOut/11-12_3dpw_test_smplify_abl_3dpwTest_from8377_noAnglePrior".

(** [str(sample_idx)] of a sample index *)
Definition str_of_index (i : nat) : string :=
  DecimalString.NilEmpty.string_of_uint (Nat.to_uint i).

(** [pklfilepath] of a sample *)
Definition pklfilepath (sample_idx : nat) (name : string) : string :=
  let seqName := seq_name name in
  let imgNameOnly := PosixPath.drop_last4 (PosixPath.basename name) in
  let pklfilename :=
    seqName ++ "_" ++ imgNameOnly ++ "_" ++ str_of_index sample_idx ++ ".pkl" in
  PosixPath.join pklDir pklfilename.

Section Run.

Variable reconstruction_error1 : joints -> joints -> float.
Variable fmt2 : float -> string.

(** The files below [pklDir]: [None] where [os.path.exists] is false,
    otherwise the predicted joints that the parameters stored in the file give
    through the body model and the joint regressor. *)
Variable pkl_files : string -> option joints.

Definition eval_pose (dataset_name : string) : bool :=
  String.eqb dataset_name "h36m-p1" || String.eqb dataset_name "h36m-p2"
  || String.eqb dataset_name "3dpw" || String.eqb dataset_name "3dpw-vibe"
  || String.eqb dataset_name "mpi-inf-3dhp".

Definition eval_masks (dataset_name : string) : bool :=
  negb (eval_pose dataset_name) && String.eqb dataset_name "lsp".

Definition eval_parts (dataset_name : string) : bool := eval_masks dataset_name.

(** The file expected for a sample, whether it is missing, and the lines
    printed for the missing files of some samples: for statements. *)
Definition sample_path (s : sample) : string :=
  pklfilepath (sample_index s) (imgname s).

Definition is_missing (s : sample) : bool :=
  match pkl_files (sample_path s) with
  | None => true
  | Some _ => false
  end.

Definition missing_lines (l : list sample) : list out_line :=
  map (fun s => OutMissing (sample_path s)) (filter is_missing l).

(** A sample and a batch with the predicted joints that the files give *)
Definition loaded (s : sample) : sample :=
  match pkl_files (sample_path s) with
  | Some data => Sample (imgname s) (sample_index s) data (gt_joints s)
  | None => s
  end.

Definition loaded_batch (b : batch) : batch :=
  Batch (loaded (batch_first b)) (map loaded (batch_rest b)).

(** [for sample_idx, name in zip(batch['sample_index'], batch['imgname'])]:
    the flag [missingPkl] and the predictions read so far go through the
    loop; a missing file is reported and the loop goes on. *)
Fixpoint load_loop (l : list sample) (missingPkl : bool) (preds : tensor3)
  : M (bool * tensor3) :=
  match l with
  | [] => ret (missingPkl, preds)
  | s :: rest =>
      let path := pklfilepath (sample_index s) (imgname s) in
      match pkl_files path with
      | None =>
          print (OutMissing path) ;;;
          load_loop rest true preds
      | Some data => load_loop rest missingPkl (preds ++ [data])%list
      end
  end.

(** From [missingPkl = False] to [if missingPkl: ... assert False] *)
Definition load_batch (b : batch) : M tensor3 :=
  r <- load_loop (samples b) false [] ;;
  let '(missingPkl, preds) := r in
  if missingPkl then raise AssertionError else ret preds.

Definition loop_body (dataset_name : string) (n batch_size : nat)
    (log_freq : Z) (bVerbose : bool) (step : nat) (b : batch) (q : quant)
  : M quant :=
  pred_keypoints_3d <- load_batch b ;;
  let seqName := last (map (fun s => seq_name (imgname s)) (samples b)) "" in
  q' <- (if eval_pose dataset_name
         then pose_block reconstruction_error1 bVerbose seqName
                (map imgname (samples b))
                pred_keypoints_3d (map gt_joints (samples b)) q
         else ret q) ;;
  masks_block (eval_masks dataset_name) ;;;
  parts_block (eval_parts dataset_name) ;;;
  progress_block bVerbose (eval_pose dataset_name) (eval_masks dataset_name)
    (eval_parts dataset_name) step batch_size log_freq
    (np_zeros n) (np_zeros n) ;;;
  ret q'.

Fixpoint loop (dataset_name : string) (n batch_size : nat) (log_freq : Z)
    (bVerbose : bool) (step : nat) (data_loader : list batch) (q : quant)
  : M quant :=
  match data_loader with
  | [] => ret q
  | b :: rest =>
      q' <- loop_body dataset_name n batch_size log_freq bVerbose step b q ;;
      loop dataset_name n batch_size log_freq bVerbose (S step) rest q'
  end.

(** The export of the report to a file below
    [/private/home/hjoo/codes/fairmocap/benchmarks_eval] is left out: it
    changes neither the dictionaries nor the value returned. *)
Definition run_evaluation (dataset_name : string) (data_loader : list batch)
    (batch_size : nat) (log_freq : Z) (bVerbose : bool) : M retval :=
  q <- loop dataset_name (len_dataset data_loader) batch_size log_freq bVerbose
         0 data_loader quant_empty ;;
  final_block fmt2 bVerbose (eval_pose dataset_name) (eval_masks dataset_name)
    (eval_parts dataset_name) q.

End Run.

End EvalFromPkl.

(** ** Reconstruction error, from the specification *)

Module Procrustes.

Import MetricSpec.
Local Open Scope R_scope.

(** A matrix of three rows and three columns *)
Record mat3 : Type := Mat3 {
  r11 : R; r12 : R; r13 : R;
  r21 : R; r22 : R; r23 : R;
  r31 : R; r32 : R; r33 : R
}.

Definition mat_vec (m : mat3) (p : point) : point :=
  let '(x, y, z) := p in
  (r11 m * x + r12 m * y + r13 m * z,
   r21 m * x + r22 m * y + r23 m * z,
   r31 m * x + r32 m * y + r33 m * z).

Definition det (m : mat3) : R :=
  r11 m * (r22 m * r33 m - r23 m * r32 m)
  - r12 m * (r21 m * r33 m - r23 m * r31 m)
  + r13 m * (r21 m * r32 m - r22 m * r31 m).

(** The transpose times the matrix is the identity. *)
Definition orthonormal (m : mat3) : Prop :=
  r11 m * r11 m + r21 m * r21 m + r31 m * r31 m = 1 /\
  r12 m * r12 m + r22 m * r22 m + r32 m * r32 m = 1 /\
  r13 m * r13 m + r23 m * r23 m + r33 m * r33 m = 1 /\
  r11 m * r12 m + r21 m * r22 m + r31 m * r32 m = 0 /\
  r11 m * r13 m + r21 m * r23 m + r31 m * r33 m = 0 /\
  r12 m * r13 m + r22 m * r23 m + r32 m * r33 m = 0.

Definition is_rotation (m : mat3) : Prop := orthonormal m /\ det m = 1.

(** A rigid similarity transform: rotation, uniform scale, translation *)
Record similarity : Type := Similarity {
  rotation : mat3;
  scale : R;
  translation : point
}.

Definition is_similarity (t : similarity) : Prop :=
  is_rotation (rotation t) /\ 0 <= scale t.

Definition apply (t : similarity) (p : point) : point :=
  let '(x, y, z) := mat_vec (rotation t) p in
  let '(tx, ty, tz) := translation t in
  (scale t * x + tx, scale t * y + ty, scale t * z + tz).

Definition sq_dist (p g : point) : R :=
  let '(px, py, pz) := p in
  let '(gx, gy, gz) := g in
  (px - gx) * (px - gx) + (py - gy) * (py - gy) + (pz - gz) * (pz - gz).

(** The sum over the joints of the squared distances *)
Definition sse (P G : list point) : R := Rsum (map2 sq_dist P G).

(** The transform that best aligns [P] to [G] in the least-squares sense *)
Definition best_fit (t : similarity) (P G : list point) : Prop :=
  is_similarity t /\
  forall t', is_similarity t' ->
    sse (map (apply t) P) G <= sse (map (apply t') P) G.

(** Modelled from the spec: [reconstruction_error] of [utils/pose_utils.py],
    which is not among the sources.  "For each sample, find the rigid
    similarity transform (rotation, uniform scale, translation) that best
    aligns P to G in a least-squares sense (Procrustes analysis), apply it to
    P, then compute MPJPE between the aligned P and G." *)
Definition reconstruction_error_of (P G : list point) (e : R) : Prop :=
  exists t, best_fit t P G /\ e = mpjpe (map (apply t) P) G.

Definition identity : similarity :=
  Similarity (Mat3 1 0 0 0 1 0 0 0 1) 1 (0, 0, 0).

(** *** A sample of fourteen joints whose alignment raises the mean distance

    The ground truth has one joint at the origin and thirteen around it; the
    prediction has every joint right but the one at the origin, which is off
    by one unit along the first axis. *)
Definition gt14 : list point :=
  [ (0, 0, 0);
    (2, 0, 0); (-1, 1, 0); (-1, -1, 0);
    (3, 0, 0); (-3, 0, 0);
    (0, 1, 0); (0, -1, 0); (0, 2, 0); (0, -2, 0);
    (0, 0, 1); (0, 0, -1); (0, 0, 2); (0, 0, -2) ].

Definition pred14 : list point :=
  (1, 0, 0) :: tl gt14.

(** The least-squares alignment of [pred14] to [gt14]: no rotation, a scale
    below one and a shift against the outlier. *)
Definition align14 : similarity :=
  Similarity (Mat3 1 0 0 0 1 0 0 0 1) (644 / 657) (- (46 / 657), 0, 0).

End Procrustes.

(** ** The aggregation as the specification words it

    A run is the stream of its samples, each with its sequence identifier and
    a value; the buckets, their order and the report are functions of that
    stream. *)

Module AggregatorSpec.

Import Aggregator.
Local Open Scope string_scope.

(** The sequence identifiers in the order of their first appearance *)
Fixpoint first_appearance (l : list string) : list string :=
  match l with
  | [] => []
  | k :: r => k :: filter (fun k' => negb (String.eqb k' k)) (first_appearance r)
  end.

(** The values of the samples of sequence [k], in the order of arrival *)
Definition values_of (k : string) (l : list (string * float)) : list float :=
  map snd (filter (fun kv => String.eqb (fst kv) k) l).

(** One bucket per sequence identifier *)
Definition buckets (l : list (string * float)) : Dict.dict :=
  map (fun k => (k, values_of k l)) (first_appearance (map fst l)).

(** The stream of one metric *)
Definition errors_of (l : list entry) : list (string * float) :=
  map (fun x => (seq_name (entry_name x), entry_error x)) l.
Definition r_errors_of (l : list entry) : list (string * float) :=
  map (fun x => (seq_name (entry_name x), entry_r_error x)) l.

Definition quant_of (l : list entry) : quant :=
  Quant (buckets (errors_of l)) (buckets (r_errors_of l)).

(** Recording one value under a sequence identifier: appended to the bucket
    of the identifier, which is created at the end when it is new *)
Definition dict_record (k : string) (v : float) (d : Dict.dict) : Dict.dict :=
  if Dict.mem k d then Dict.set k (Dict.bucket k d ++ [v])%list d
  else (d ++ [(k, [v])])%list.

Definition record_entry (q : quant) (x : entry) : quant :=
  Quant (dict_record (seq_name (entry_name x)) (entry_error x) (quant_mpjpe q))
        (dict_record (seq_name (entry_name x)) (entry_r_error x)
           (quant_recon_err q)).

Definition record_entries (q : quant) (l : list entry) : quant :=
  fold_left record_entry l q.

(** The two dictionaries have the same keys in the same order. *)
Definition synced (q : quant) : Prop :=
  Dict.keys (quant_mpjpe q) = Dict.keys (quant_recon_err q).

(** The samples of a batch from the three sequences the loop reads *)
Definition zip_entries (imgname : list string) (error r_error : list float)
  : list entry :=
  map (fun x => (fst x, fst (snd x), snd (snd x)))
      (combine imgname (combine error r_error)).

Fixpoint concat_str (l : list string) : string :=
  match l with
  | [] => ""
  | s :: r => s ++ concat_str r
  end.

(** The values of all the buckets, one bucket after the other: the buckets
    in the order of first appearance, the values of a bucket in the order of
    arrival *)
Definition bucket_values (l : list (string * float)) : list float :=
  concat (map (fun k => values_of k l) (first_appearance (map fst l))).

(** The lines of a text: what stands between its line feeds *)
Fixpoint lines (s : string) : list string :=
  match s with
  | EmptyString => [EmptyString]
  | String c rest =>
      if Ascii.eqb c "010"%char then EmptyString :: lines rest
      else
        match lines rest with
        | l :: ls => String c l :: ls
        | [] => [String c EmptyString]
        end
  end.

Fixpoint no_line_feed (s : string) : bool :=
  match s with
  | EmptyString => true
  | String c rest => negb (Ascii.eqb c "010"%char) && no_line_feed rest
  end.

Definition line_feed : string := String "010"%char EmptyString.

Section Report.

Variable fmt2 : float -> string.

(** The line of the sequence names *)
Definition names_line (l : list (string * float)) : string :=
  "SeqNames; "
  ++ concat_str (map (fun k => k ++ ";") (first_appearance (map fst l))).

(** The line of one metric: the average over the values of all the buckets,
    in millimetres, then the mean of every sequence, in the order of first
    appearance *)
Definition metric_text (label unit : string) (l : list (string * float))
  : string :=
  label ++ "Avg " ++ fmt2 (fmul (np_mean (bucket_values l)) (Fin 1000)) ++ unit
  ++ concat_str
       (map (fun k => fmt2 (fmul (Fin 1000) (np_mean (values_of k l))) ++ "; ")
            (first_appearance (map fst l))).

(** The lines of the report *)
Definition report_lines (l : list entry) : list string :=
  [ names_line (errors_of l);
    metric_text " MPJPE; " " mm; " (errors_of l);
    metric_text " Recon Error; " "mm; " (r_errors_of l) ].

(** The report as one text: its lines, with a line feed between two *)
Definition report_text (l : list entry) : string :=
  names_line (errors_of l)
  ++ line_feed ++ metric_text " MPJPE; " " mm; " (errors_of l)
  ++ line_feed ++ metric_text " Recon Error; " "mm; " (r_errors_of l).

End Report.

End AggregatorSpec.

(** ** A run as the stream of its samples *)

Module RunSpec.

Import Aggregator.
Local Open Scope string_scope.

(** The row of [error] for one sample *)
Definition mpjpe1 (pred gt : joints) : float :=
  np_mean (map fsqrt (map np_sum (map (map fpow2) (map2 (map2 fsub) pred gt)))).

Section Stream.

Variable reconstruction_error1 : joints -> joints -> float.

(** What the loop records for one sample *)
Definition entry_of (s : sample) : entry :=
  (imgname s, mpjpe1 (pred_joints s) (gt_joints s),
   reconstruction_error1 (pred_joints s) (gt_joints s)).

Definition entries_of_batch (b : batch) : list entry :=
  map entry_of (samples b).

Definition entries_of (data_loader : list batch) : list entry :=
  concat (map entries_of_batch data_loader).

(** The line printed for a batch of a verbose run, after the samples of the
    batch have been recorded in [q] *)
Definition batch_line (b : batch) (q : quant) : out_line :=
  OutBatch (seq_name (imgname (last (batch_rest b) (batch_first b))))
    (fmul (np_mean (map entry_error (entries_of_batch b))) (Fin 1000))
    (fmul (np_mean (map entry_r_error (entries_of_batch b))) (Fin 1000))
    (fmul (np_mean (concat (Dict.values (quant_mpjpe q)))) (Fin 1000))
    (fmul (np_mean (concat (Dict.values (quant_recon_err q)))) (Fin 1000)).

End Stream.

(** What a run prints once the result file is written *)
Definition saved_lines (result_file : option string) : list out_line :=
  match result_file with
  | Some f => [OutSaved f]
  | None => []
  end.

(** Every sample of the loader has joints that the arrays of the results can
    take. *)
Definition storable (data_loader : list batch) : bool :=
  forallb (fun b =>
             forallb (fun s => EvalExport.stores14 (pred_joints s)
                               && EvalExport.stores14 (gt_joints s))
                     (samples b))
          data_loader.

(** The value that a progress line shows at a step *)
Definition progress_value (step batch_size n : nat) : float :=
  fmul (Fin 1000) (np_mean (firstn (step * batch_size) (repeat (Fin 0) n))).

(** The steps at which a verbose run prints its progress *)
Definition progress_due (step : nat) (log_freq : Z) : bool :=
  Z.eqb (Z.modulo (Z.of_nat step) log_freq) (log_freq - 1).

Definition progress_lines (step batch_size : nat) (log_freq : Z) (n : nat)
  : list out_line :=
  if progress_due step log_freq
  then [OutProgress "MPJPE: " (progress_value step batch_size n);
        OutProgress "Reconstruction Error: " (progress_value step batch_size n);
        OutBlank]
  else [].

End RunSpec.

(** ** Inputs for the statements below *)

Module Inputs.

Local Open Scope string_scope.
Local Open Scope R_scope.

(** Fourteen joints, each of the prediction five centimetres off along the
    first axis *)
Definition gt_rows : joints := repeat [Fin 0; Fin 0; Fin 0] 14.
Definition pred_rows : joints := repeat [Fin (5 / 100); Fin 0; Fin 0] 14.

Definition sample0 : sample :=
  Sample "/data/3dpw/imageFiles/downtown_walking_00/image_00000.jpg" 0
    pred_rows gt_rows.
Definition sample1 : sample :=
  Sample "/data/3dpw/imageFiles/downtown_walking_00/image_00001.jpg" 1
    pred_rows gt_rows.

(** Two batches of one sample each *)
Definition loader2 : list batch := [Batch sample0 []; Batch sample1 []].

(** A sample of the LSP test set *)
Definition sample_lsp : sample :=
  Sample "/data/lsp/images/im1001.jpg" 0 pred_rows gt_rows.

(** No file below [pklDir] *)
Definition no_files : string -> option joints := fun _ => None.

(** A reconstruction error and a number format, where a statement needs
    some *)
Definition recon_zero : joints -> joints -> float := fun _ _ => Fin 0.
Definition fmt_any : float -> string := fun _ => "x".

(** The samples of three images of two sequences, with their errors *)
Definition entries3 : list Aggregator.entry :=
  [ ("/d/seqA/i0.jpg", Fin (1 / 100), Fin (1 / 200));
    ("/d/seqB/i0.jpg", Fin (2 / 100), Fin (1 / 100));
    ("/d/seqA/i1.jpg", Fin (3 / 100), Fin (1 / 100)) ].

Definition names2 : list string := ["/d/seqA/i0.jpg"; "/d/seqB/i0.jpg"].
Definition error2 : list float := [Fin (1 / 100); Fin (2 / 100)].
Definition r_error2 : list float := [Fin (1 / 200); Fin (1 / 100)].

(** The same samples cut into batches in another way *)
Definition entries3_batches : list (list Aggregator.entry) :=
  [ [ ("/d/seqA/i0.jpg", Fin (1 / 100), Fin (1 / 200)) ];
    [ ("/d/seqB/i0.jpg", Fin (2 / 100), Fin (1 / 100));
      ("/d/seqA/i1.jpg", Fin (3 / 100), Fin (1 / 100)) ] ].


Definition b32_pred2 : list (list TensorArith.b32) :=
  map TensorArith.b32_row [(4, 5, 1); (6, 13, 1)]%Z.

(** One joint, 2 ** 70 metres and 2 ** -100 metres off along the first axis *)
Definition b32_far : list (list TensorArith.b32) :=
  [[TensorArith.b32_scaled 1 70; TensorArith.b32_of_Z 0;
    TensorArith.b32_of_Z 0]].
Definition b32_near : list (list TensorArith.b32) :=
  [[TensorArith.b32_scaled 1 (-100); TensorArith.b32_of_Z 0;
    TensorArith.b32_of_Z 0]].
Definition b32_origin : list (list TensorArith.b32) :=
  [TensorArith.b32_row (0, 0, 0)%Z].

(** Two samples of one sequence and one of another, with errors that binary
    floating-point numbers represent and add without rounding *)
Definition entries_dyadic : list Aggregator.entry :=
  [ ("/d/seqA/i0.jpg", Fin (1 / 4), Fin (1 / 2));
    ("/d/seqA/i1.jpg", Fin (1 / 4), Fin (1 / 2));
    ("/d/seqB/i0.jpg", Fin 1, Fin 2) ].

(** A sample whose alignment is degenerate: the error after it is [nan]. *)
Definition entry_nan : Aggregator.entry :=
  ("/d/seqA/i0.jpg", Fin (1 / 10), NaN).

End Inputs.

(** ** Notions for further properties of the error *)

Module MetricProps.

Import MetricSpec.
Local Open Scope R_scope.

(** A value that is not below zero: a real that is not negative, the positive
    infinity, or [nan] (of which nothing is said). *)
Definition not_negative (a : float) : Prop :=
  match a with
  | Fin x => 0 <= x
  | Inf s => s = false
  | NaN => True
  end.

(** All the coordinates of the joints of a sample are finite. *)
Definition coordinates_finite (p : joints) : bool :=
  forallb (forallb isfinite) p.

(** Two samples with the same number of joints, each of the same number of
    coordinates *)
Definition same_shape (p g : joints) : Prop :=
  Forall2 (fun a b : list float => length a = length b) p g.

End MetricProps.

(** ** Notions for further properties of the paths *)

Module PathProps.

(** The character occurs in the string. *)
Fixpoint contains (c : ascii) (s : string) : bool :=
  match s with
  | EmptyString => false
  | String d rest => Ascii.eqb d c || contains c rest
  end.

(** The name of the prediction file of a sample, below [pklDir] *)
Definition pklfilename (sample_idx : nat) (name : string) : string :=
  (Aggregator.seq_name name ++ "_"
   ++ PosixPath.drop_last4 (PosixPath.basename name) ++ "_"
   ++ EvalFromPkl.str_of_index sample_idx ++ ".pkl")%string.

End PathProps.

(** ** Notions for further properties of the dictionaries *)

Module AggregatorProps.

Import MetricSpec.
Local Open Scope R_scope.

(** The sequence names of the samples of a batch *)
Definition seq_names (b : list Aggregator.entry) : list string :=
  map (fun x => Aggregator.seq_name (Aggregator.entry_name x)) b.

End AggregatorProps.

(** ** More inputs *)

Module MoreInputs.

Local Open Scope string_scope.
Local Open Scope R_scope.

(** Every prediction file is there and holds the joints [Inputs.pred_rows]. *)
Definition all_files : string -> option joints :=
  fun _ => Some Inputs.pred_rows.

(** A result file *)
Definition result_pkl : string := "/tmp/result_3dpw.pkl".

(** A sample of seventeen joints, as those of ['mpi-inf-3dhp'] *)
Definition sample17 : sample :=
  Sample "/data/mpi_inf_3dhp/TS1/imageSequence/img_000001.jpg" 0
    (repeat [Fin 0; Fin 0; Fin 0] 17) (repeat [Fin 0; Fin 0; Fin 0] 17).

End MoreInputs.

(** * Properties *)

(** ** Arithmetic of the values *)

Module NpFloatFacts.

Local Open Scope R_scope.

Lemma fadd_comm (a b : float) : fadd a b = fadd b a.
Proof.
  destruct a as [x | s | ], b as [y | t | ]; simpl; trivial.
  - now rewrite Rplus_comm.
  - destruct s, t; reflexivity.
Qed.

Lemma fadd_assoc (a b c : float) : fadd (fadd a b) c = fadd a (fadd b c).
Proof.
  destruct a as [x | s | ], b as [y | t | ], c as [z | u | ]; simpl; trivial;
    try (now rewrite Rplus_assoc);
    try (destruct s, t; simpl; reflexivity);
    try (destruct t, u; simpl; reflexivity);
    destruct s, t, u; reflexivity.
Qed.

Lemma isfinite_fadd (a b : float) :
  isfinite (fadd a b) = isfinite a && isfinite b.
Proof.
  destruct a as [x | s | ], b as [y | t | ]; simpl; trivial.
  destruct s, t; reflexivity.
Qed.

Lemma fold_left_fadd_acc (l : list float) (a b : float) :
  fold_left fadd l (fadd a b) = fadd a (fold_left fadd l b).
Proof.
  revert b; induction l as [ | x l IH]; intros b; simpl; trivial.
  now rewrite fadd_assoc, IH.
Qed.

Lemma np_sum_cons (x : float) (l : list float) :
  np_sum (x :: l) = fadd x (np_sum l).
Proof.
  unfold np_sum; cbn [fold_left].
  rewrite (fadd_comm (Fin 0) x). apply fold_left_fadd_acc.
Qed.

Lemma isfinite_np_sum (l : list float) :
  isfinite (np_sum l) = forallb isfinite l.
Proof.
  induction l as [ | x l IH]; trivial.
  now rewrite np_sum_cons, isfinite_fadd, IH.
Qed.

Lemma isfinite_fdiv_count (a : float) (n : nat) :
  isfinite (fdiv_count a n) = isfinite a.
Proof. now destruct a. Qed.

(** A value that is not finite makes the mean of its array not finite. *)
Lemma isfinite_np_mean (l : list float) :
  l <> [] -> isfinite (np_mean l) = forallb isfinite l.
Proof.
  destruct l as [ | x l]; [congruence | intros _].
  unfold np_mean. now rewrite isfinite_fdiv_count, isfinite_np_sum.
Qed.

Lemma np_sum_Fin (l : list R) : np_sum (map Fin l) = Fin (MetricSpec.Rsum l).
Proof.
  induction l as [ | x l IH]; trivial.
  simpl map. now rewrite np_sum_cons, IH.
Qed.

Lemma np_mean_Fin (l : list R) :
  l <> [] -> np_mean (map Fin l) = Fin (MetricSpec.Rsum l / INR (length l)).
Proof.
  destruct l as [ | x l]; [congruence | intros _].
  unfold np_mean. simpl map.
  change (Fin x :: map Fin l) with (map Fin (x :: l)).
  now rewrite np_sum_Fin, length_map.
Qed.

Lemma np_zeros_mean (n : nat) :
  np_mean (repeat (Fin 0) (S n)) = Fin 0.
Proof.
  assert (E : repeat (Fin 0) (S n) = map Fin (repeat 0 (S n)))
    by (now rewrite map_repeat).
  rewrite E, np_mean_Fin by discriminate.
  f_equal.
  assert (Z0 : forall k, MetricSpec.Rsum (repeat 0 k) = 0).
  { induction k as [ | k IH]; simpl; trivial. rewrite IH. lra. }
  rewrite Z0. unfold Rdiv. apply Rmult_0_l.
Qed.

End NpFloatFacts.

(** ** The per-sample error *)

Module MetricFacts.

Import MetricSpec NpFloatFacts.
Local Open Scope R_scope.

Lemma map2_map {A A' B B' C : Type} (f : A' -> B' -> C) (a : A -> A')
    (b : B -> B') (l1 : list A) (l2 : list B) :
  map2 f (map a l1) (map b l2) = map2 (fun x y => f (a x) (b y)) l1 l2.
Proof.
  unfold map2. revert l2; induction l1 as [ | x l1 IH]; intros [ | y l2];
    simpl; trivial.
  f_equal. apply IH.
Qed.

Lemma map_map2 {A B C D : Type} (h : C -> D) (f : A -> B -> C)
    (l1 : list A) (l2 : list B) :
  map h (map2 f l1 l2) = map2 (fun x y => h (f x y)) l1 l2.
Proof. unfold map2. now rewrite map_map. Qed.

Lemma map2_ext_in {A B C : Type} (f g : A -> B -> C) (l1 : list A)
    (l2 : list B) :
  Forall2 (fun x y => f x y = g x y) l1 l2 -> map2 f l1 l2 = map2 g l1 l2.
Proof.
  unfold map2. induction 1 as [ | x y l1 l2 E _ IH]; simpl; trivial.
  now rewrite E, IH.
Qed.

Lemma length_map2 {A B C : Type} (f : A -> B -> C) (l1 : list A) (l2 : list B) :
  length l1 = length l2 -> length (map2 f l1 l2) = length l1.
Proof.
  intros E. unfold map2. rewrite length_map, length_combine, <- E.
  apply Nat.min_id.
Qed.

(** The distance of one joint, as the tensor operations compute it *)
Lemma joint_error (p g : point) :
  fsqrt (np_sum (map fpow2 (map2 fsub (row_of p) (row_of g)))) = Fin (dist p g).
Proof.
  destruct p as [[px py] pz], g as [[gx gy] gz].
  unfold map2, np_sum; cbn.
  match goal with |- context [Rlt_dec ?x 0] => destruct (Rlt_dec x 0) as [N | _] end.
  - exfalso.
    pose proof (Rle_0_sqr (px + - gx)) as Hx.
    pose proof (Rle_0_sqr (py + - gy)) as Hy.
    pose proof (Rle_0_sqr (pz + - gz)) as Hz.
    unfold Rsqr in Hx, Hy, Hz. lra.
  - f_equal. f_equal. ring.
Qed.

(** The error of one sample *)
Lemma sample_error (P G : list point) :
  length P = length G -> (0 < length P)%nat ->
  np_mean (map fsqrt (map np_sum (map (map fpow2)
             (map2 (map2 fsub) (map row_of P) (map row_of G)))))
  = Fin (mpjpe P G).
Proof.
  intros E J.
  rewrite map2_map, !map_map2.
  rewrite (map2_ext_in _ (fun p g => Fin (dist p g))).
  - rewrite <- map_map2, np_mean_Fin.
    + unfold mpjpe. now rewrite length_map2.
    + intros N. apply (f_equal (@length R)) in N.
      rewrite length_map2 in N by assumption. simpl in N. lia.
  - clear J. revert G E. induction P as [ | p P IH]; intros [ | g G] E;
      try discriminate; constructor.
    + apply joint_error.
    + apply IH. now injection E.
Qed.

Import TensorArith MetricProps.

(** *** The expression over any arithmetic *)

Section Over.

Variable F : Type.
Variable A : arith F.





End Over.




(** *** A prediction that is the ground truth *)








End MetricFacts.

(** ** Dictionaries *)

Module DictFacts.

Import Dict.

Lemma mem_In (k : string) (d : dict) : mem k d = true <-> In k (keys d).
Proof.
  unfold mem, keys. rewrite existsb_exists. split.
  - intros [[k' v] [H E]]. apply String.eqb_eq in E. simpl in E. subst k'.
    apply in_map_iff. now exists (k, v).
  - intros H. apply in_map_iff in H. destruct H as [[k' v] [E H]].
    simpl in E. subst k'. exists (k, v). split; trivial. apply String.eqb_refl.
Qed.

Lemma mem_keys (k : string) (d1 d2 : dict) :
  keys d1 = keys d2 -> mem k d1 = mem k d2.
Proof.
  intros E. apply eq_true_iff_eq. now rewrite !mem_In, E.
Qed.

Lemma get_bucket (k : string) (d : dict) :
  mem k d = true -> get k d = Ok (bucket k d).
Proof.
  unfold bucket. induction d as [ | [k' v] d IH]; simpl; [discriminate | ].
  destruct (String.eqb k' k); simpl; trivial.
Qed.

Lemma bucket_absent (k : string) (d : dict) :
  mem k d = false -> bucket k d = [].
Proof.
  unfold bucket. induction d as [ | [k' v] d IH]; simpl; trivial.
  destruct (String.eqb k' k); simpl; [discriminate | exact IH].
Qed.

Lemma get_set (k k' : string) (v : list float) (d : dict) :
  get k' (set k v d) = if String.eqb k k' then Ok v else get k' d.
Proof.
  induction d as [ | [k0 v0] d IH]; simpl.
  - reflexivity.
  - destruct (String.eqb k0 k) eqn:E0; simpl.
    + apply String.eqb_eq in E0. subst k0.
      now destruct (String.eqb k k').
    + rewrite IH. destruct (String.eqb k0 k') eqn:E1; trivial.
      apply String.eqb_eq in E1. subst k0.
      rewrite String.eqb_sym, E0. reflexivity.
Qed.

Lemma bucket_set (k k' : string) (v : list float) (d : dict) :
  bucket k' (set k v d) = if String.eqb k k' then v else bucket k' d.
Proof.
  unfold bucket. rewrite get_set. now destruct (String.eqb k k').
Qed.

Lemma set_absent (k : string) (v : list float) (d : dict) :
  mem k d = false -> set k v d = d ++ [(k, v)].
Proof.
  induction d as [ | [k0 v0] d IH]; simpl; trivial.
  destruct (String.eqb k0 k); simpl; [discriminate | ].
  intros H. now rewrite IH.
Qed.

Lemma set_set (k : string) (v w : list float) (d : dict) :
  set k v (set k w d) = set k v d.
Proof.
  induction d as [ | [k0 v0] d IH]; simpl.
  - now rewrite String.eqb_refl.
  - destruct (String.eqb k0 k) eqn:E0; simpl; rewrite E0; trivial.
    now rewrite IH.
Qed.

Lemma keys_set (k : string) (v : list float) (d : dict) :
  keys (set k v d) = if mem k d then keys d else keys d ++ [k].
Proof.
  induction d as [ | [k0 v0] d IH]; simpl; trivial.
  destruct (String.eqb k0 k) eqn:E0; simpl; trivial.
  rewrite IH. now destruct (mem k d).
Qed.

Lemma bucket_app_absent (k k' : string) (v : list float) (d : dict) :
  mem k d = false ->
  bucket k' (d ++ [(k, v)]) = if String.eqb k k' then v else bucket k' d.
Proof.
  intros H. rewrite <- (@set_absent k v d H). apply bucket_set.
Qed.

(** Storing under a key that is there changes the values in place. *)
Lemma values_set_perm (k : string) (x : float) (d : dict) :
  mem k d = true ->
  Permutation (concat (values (set k (bucket k d ++ [x]) d)))
              (concat (values d) ++ [x]).
Proof.
  unfold bucket.
  induction d as [ | [k0 v0] d IH]; simpl; [discriminate | ].
  destruct (String.eqb k0 k) eqn:E0; simpl; intros H.
  - rewrite <- !app_assoc. apply Permutation_app_head, Permutation_app_comm.
  - rewrite <- app_assoc. apply Permutation_app_head.
    apply IH, H.
Qed.

End DictFacts.

(** ** The recording loop *)

Module AggregatorFacts.

Import Dict DictFacts Aggregator AggregatorSpec.

Lemma mem_dict_record (k k' : string) (v : float) (d : dict) :
  mem k' (dict_record k v d) = mem k' d || String.eqb k k'.
Proof.
  apply eq_true_iff_eq. rewrite orb_true_iff, !mem_In. unfold dict_record.
  destruct (mem k d) eqn:M.
  - rewrite keys_set, M. rewrite String.eqb_eq. split; [tauto | ].
    intros [H | <-]; trivial. now apply mem_In.
  - unfold keys. rewrite map_app, in_app_iff. simpl. rewrite String.eqb_eq.
    tauto.
Qed.

Lemma keys_dict_record (k : string) (v : float) (d : dict) :
  keys (dict_record k v d) = if mem k d then keys d else keys d ++ [k].
Proof.
  unfold dict_record. destruct (mem k d) eqn:M.
  - now rewrite keys_set, M.
  - unfold keys. now rewrite map_app.
Qed.

Lemma bucket_dict_record (k k' : string) (v : float) (d : dict) :
  bucket k' (dict_record k v d)
  = bucket k' d ++ (if String.eqb k k' then [v] else []).
Proof.
  unfold dict_record. destruct (mem k d) eqn:M.
  - rewrite bucket_set. destruct (String.eqb k k') eqn:E.
    + apply String.eqb_eq in E. now subst k'.
    + now rewrite app_nil_r.
  - rewrite (@bucket_app_absent k k' [v] d M).
    destruct (String.eqb k k') eqn:E.
    + apply String.eqb_eq in E. subst k'. now rewrite (@bucket_absent k d M).
    + now rewrite app_nil_r.
Qed.

Lemma values_dict_record_perm (k : string) (v : float) (d : dict) :
  Permutation (concat (values (dict_record k v d))) (concat (values d) ++ [v]).
Proof.
  unfold dict_record. destruct (mem k d) eqn:M.
  - apply values_set_perm. exact M.
  - unfold values. rewrite map_app, concat_app. reflexivity.
Qed.

Lemma synced_record_entry (q : quant) (x : entry) :
  synced q -> synced (record_entry q x).
Proof.
  unfold synced, record_entry. intros S. simpl.
  rewrite !keys_dict_record, <- S.
  now rewrite (@mem_keys (seq_name (entry_name x)) _ _ S).
Qed.

Lemma synced_record_entries (l : list entry) (q : quant) :
  synced q -> synced (record_entries q l).
Proof.
  unfold record_entries. revert q.
  induction l as [ | x l IH]; intros q S; simpl; trivial.
  apply IH. now apply synced_record_entry.
Qed.

(** The dictionary after the creation of the bucket and the [append] *)
Lemma append_after_create (k : string) (v : float) (d : dict) :
  let d1 := if negb (mem k d) then set k [] d else d in
  get k d1 = Ok (bucket k d1) /\ append k v d1 = Ok (dict_record k v d).
Proof.
  unfold dict_record, append. destruct (mem k d) eqn:M; simpl.
  - now rewrite (@get_bucket k d M).
  - unfold bucket. rewrite !get_set, String.eqb_refl, set_set. simpl.
    now rewrite (@set_absent k [v] d M).
Qed.

(** One pass through the body of the loop records one entry. *)
Lemma record_sample_entry (q : quant) (ii : nat) (p : string)
    (error r_error : list float) (e r : float) :
  synced q -> index error ii = Ok e -> index r_error ii = Ok r ->
  record_sample q ii p error r_error = Ok (record_entry q (p, e, r)).
Proof.
  intros S He Hr. unfold record_sample, record_entry.
  unfold entry_name, entry_error, entry_r_error; simpl fst; simpl snd.
  set (k := seq_name p). cbv zeta.
  pose proof (append_after_create k e (quant_mpjpe q)) as [G1 A1].
  pose proof (append_after_create k r (quant_recon_err q)) as [G2 A2].
  rewrite <- (@mem_keys k _ _ S) in G2, A2.
  destruct (negb (mem k (quant_mpjpe q))); simpl quant_mpjpe;
    simpl quant_recon_err;
    rewrite G1; cbn [rbind]; rewrite He; cbn [rbind];
    rewrite A1; cbn [rbind]; rewrite G2; cbn [rbind];
    rewrite Hr; cbn [rbind]; rewrite A2; reflexivity.
Qed.

Lemma index_app_middle {A : Type} (pre post : list A) (x : A) :
  index (pre ++ x :: post) (length pre) = Ok x.
Proof.
  unfold index. now rewrite nth_error_app2, Nat.sub_diag by lia.
Qed.

Lemma record_loop_entries (b : list entry) (q : quant) (pre_e pre_r : list float)
    (post_e post_r : list float) :
  synced q -> length pre_e = length pre_r ->
  record_loop q (length pre_e) (map entry_name b)
    (pre_e ++ map entry_error b ++ post_e)
    (pre_r ++ map entry_r_error b ++ post_r)
  = Ok (record_entries q b).
Proof.
  revert q pre_e pre_r.
  induction b as [ | [[p e] r] b IH]; intros q pre_e pre_r Sy L; simpl; trivial.
  rewrite (@record_sample_entry q (length pre_e) p _ _ e r Sy).
  - simpl.
    specialize (IH (record_entry q (p, e, r)) (pre_e ++ [e]) (pre_r ++ [r])).
    rewrite <- !app_assoc in IH. simpl in IH.
    rewrite length_app in IH. simpl in IH.
    replace (length pre_e + 1) with (S (length pre_e)) in IH by lia.
    apply IH.
    + now apply synced_record_entry.
    + rewrite !length_app. simpl. lia.
  - apply index_app_middle.
  - rewrite L. apply index_app_middle.
Qed.

(** One pass over a batch records its samples, one after the other. *)
Lemma record_call_entries (q : quant) (b : list entry) :
  synced q -> record_call q b = Ok (record_entries q b).
Proof.
  intros S. unfold record_call, record_batch.
  rewrite !length_map, <- (length_map entry_name b), firstn_all.
  pose proof (@record_loop_entries b q [] [] [] [] S eq_refl) as H.
  simpl in H. now rewrite !app_nil_r in H.
Qed.

Lemma record_calls_entries (bs : list (list entry)) (q : quant) :
  synced q -> record_calls q bs = Ok (record_entries q (concat bs)).
Proof.
  revert q. induction bs as [ | b bs IH]; intros q S; simpl; trivial.
  rewrite (record_call_entries b S). simpl.
  rewrite IH by now apply synced_record_entries.
  unfold record_entries. now rewrite fold_left_app.
Qed.

Lemma values_of_cons (k k' : string) (v : float) (l : list (string * float)) :
  values_of k ((k', v) :: l)
  = (if String.eqb k' k then [v] else []) ++ values_of k l.
Proof. unfold values_of. simpl. now destruct (String.eqb k' k). Qed.

Lemma values_of_app (k : string) (l1 l2 : list (string * float)) :
  values_of k (l1 ++ l2) = values_of k l1 ++ values_of k l2.
Proof. unfold values_of. now rewrite filter_app, map_app. Qed.

Lemma values_of_snoc (k k' : string) (v : float) (l : list (string * float)) :
  values_of k (l ++ [(k', v)])
  = values_of k l ++ (if String.eqb k' k then [v] else []).
Proof.
  rewrite values_of_app, values_of_cons. unfold values_of at 3. simpl.
  now rewrite app_nil_r.
Qed.

(** What is in the bucket of [k] after the samples [l] *)
Lemma bucket_record_entries (k : string) (l : list entry) (q : quant) :
  bucket k (quant_mpjpe (record_entries q l))
  = bucket k (quant_mpjpe q) ++ values_of k (errors_of l)
  /\ bucket k (quant_recon_err (record_entries q l))
     = bucket k (quant_recon_err q) ++ values_of k (r_errors_of l).
Proof.
  unfold record_entries. revert q.
  induction l as [ | x l IH]; intros q; simpl.
  - now rewrite !app_nil_r.
  - destruct (IH (record_entry q x)) as [E1 E2]. rewrite E1, E2.
    unfold record_entry; simpl. rewrite !bucket_dict_record, !values_of_cons.
    now rewrite <- !app_assoc.
Qed.

(** The values of all the buckets are the values of all the samples. *)
Lemma values_record_entries_perm (l : list entry) (q : quant) :
  Permutation (concat (values (quant_mpjpe (record_entries q l))))
              (concat (values (quant_mpjpe q)) ++ map entry_error l)
  /\ Permutation (concat (values (quant_recon_err (record_entries q l))))
                 (concat (values (quant_recon_err q)) ++ map entry_r_error l).
Proof.
  unfold record_entries. revert q.
  induction l as [ | x l IH]; intros q; simpl.
  - now rewrite !app_nil_r.
  - destruct (IH (record_entry q x)) as [P1 P2]. split.
    + rewrite P1. unfold record_entry; simpl.
      rewrite values_dict_record_perm, <- app_assoc. reflexivity.
    + rewrite P2. unfold record_entry; simpl.
      rewrite values_dict_record_perm, <- app_assoc. reflexivity.
Qed.

(** *** The order of first appearance *)

Lemma In_first_appearance (k : string) (l : list string) :
  In k (first_appearance l) <-> In k l.
Proof.
  induction l as [ | a l IH]; simpl; [tauto | ].
  rewrite filter_In, IH, negb_true_iff, String.eqb_neq.
  destruct (string_dec a k); [tauto | ].
  split; [tauto | ]. intros [H | H]; [tauto | ]. right. split; congruence.
Qed.

Lemma NoDup_first_appearance (l : list string) : NoDup (first_appearance l).
Proof.
  induction l as [ | a l IH]; simpl; constructor.
  - rewrite filter_In, String.eqb_refl. intros [_ H]. discriminate.
  - now apply NoDup_filter.
Qed.

Lemma first_appearance_snoc (l : list string) (k : string) :
  first_appearance (l ++ [k])
  = if existsb (String.eqb k) l then first_appearance l
    else first_appearance l ++ [k].
Proof.
  induction l as [ | a l IH]; simpl; trivial.
  rewrite IH. destruct (String.eqb k a) eqn:E; simpl.
  - destruct (existsb (String.eqb k) l); trivial.
    rewrite filter_app. simpl. rewrite E. simpl. now rewrite app_nil_r.
  - destruct (existsb (String.eqb k) l); trivial.
    rewrite filter_app. simpl. now rewrite E.
Qed.

Lemma mem_buckets (k : string) (s : list (string * float)) :
  mem k (buckets s) = existsb (String.eqb k) (map fst s).
Proof.
  apply eq_true_iff_eq. rewrite mem_In, existsb_exists.
  unfold buckets, keys. rewrite map_map. simpl. rewrite map_id.
  rewrite In_first_appearance. split.
  - intros H. exists k. split; trivial. apply String.eqb_refl.
  - intros [k' [H E]]. apply String.eqb_eq in E. now subst k'.
Qed.

Lemma set_tabulate (k : string) (v : list float) (f : string -> list float)
    (ks : list string) :
  NoDup ks -> In k ks ->
  set k v (map (fun k' => (k', f k')) ks)
  = map (fun k' => (k', if String.eqb k' k then v else f k')) ks.
Proof.
  induction 1 as [ | a ks N _ IH]; simpl; [tauto | ].
  destruct (String.eqb a k) eqn:E; intros H.
  - apply String.eqb_eq in E. subst a. f_equal.
    apply map_ext_in. intros k' Hk'.
    destruct (String.eqb k' k) eqn:E'; trivial.
    apply String.eqb_eq in E'. now subst k'.
  - f_equal. apply IH. destruct H as [H | H]; trivial.
    subst a. now rewrite String.eqb_refl in E.
Qed.

Lemma bucket_tabulate (k : string) (f : string -> list float)
    (ks : list string) :
  In k ks -> bucket k (map (fun k' => (k', f k')) ks) = f k.
Proof.
  unfold bucket. induction ks as [ | a ks IH]; simpl; [tauto | ].
  destruct (String.eqb a k) eqn:E; intros H.
  - apply String.eqb_eq in E. now subst a.
  - apply IH. destruct H as [H | H]; trivial.
    subst a. now rewrite String.eqb_refl in E.
Qed.

Lemma values_of_absent (k : string) (s : list (string * float)) :
  existsb (String.eqb k) (map fst s) = false -> values_of k s = [].
Proof.
  unfold values_of. induction s as [ | [k' v] s IH]; simpl; trivial.
  rewrite orb_false_iff, String.eqb_sym. intros [E H]. rewrite E. now apply IH.
Qed.

(** Recording a value in the buckets of a stream gives the buckets of the
    stream with that value at its end. *)
Lemma dict_record_buckets (k : string) (v : float) (s : list (string * float)) :
  dict_record k v (buckets s) = buckets (s ++ [(k, v)]).
Proof.
  unfold dict_record. rewrite mem_buckets.
  unfold buckets at 4. rewrite map_app. simpl map.
  rewrite first_appearance_snoc.
  destruct (existsb (String.eqb k) (map fst s)) eqn:M.
  - assert (I : In k (first_appearance (map fst s))).
    { apply In_first_appearance. apply existsb_exists in M.
      destruct M as [k' [H E]]. apply String.eqb_eq in E. now subst k'. }
    unfold buckets. rewrite (@bucket_tabulate k _ _ I).
    rewrite set_tabulate by (trivial; apply NoDup_first_appearance).
    apply map_ext. intros k'. f_equal.
    rewrite values_of_snoc, (String.eqb_sym k k').
    destruct (String.eqb k' k) eqn:E; [ | now rewrite app_nil_r].
    apply String.eqb_eq in E. now subst k'.
  - unfold buckets. rewrite map_app. simpl. f_equal.
    + apply map_ext_in. intros k' Hk'. f_equal.
      rewrite values_of_snoc.
      destruct (String.eqb k k') eqn:E; [ | now rewrite app_nil_r].
      apply String.eqb_eq in E. subst k'.
      apply (proj1 (In_first_appearance _ _)) in Hk'.
      assert (X : existsb (String.eqb k) (map fst s) = true)
        by (apply existsb_exists; exists k; split;
            [exact Hk' | apply String.eqb_refl]).
      congruence.
    + rewrite values_of_snoc, String.eqb_refl.
      now rewrite (@values_of_absent k s M).
Qed.

Lemma record_entries_snoc (q : quant) (l : list entry) (x : entry) :
  record_entries q (l ++ [x]) = record_entry (record_entries q l) x.
Proof. unfold record_entries. now rewrite fold_left_app. Qed.

(** From the empty dictionaries, the loop builds the buckets of the
    specification. *)
Lemma record_entries_quant_of (l : list entry) :
  record_entries quant_empty l = quant_of l.
Proof.
  induction l as [ | x l IH] using rev_ind; trivial.
  rewrite record_entries_snoc, IH. unfold record_entry, quant_of. simpl.
  rewrite !dict_record_buckets. unfold errors_of, r_errors_of.
  now rewrite !map_app.
Qed.

Lemma synced_quant_empty : synced quant_empty.
Proof. reflexivity. Qed.

End AggregatorFacts.

(** ** Paths *)

Module PosixPathFacts.

Import PosixPath.
Local Open Scope string_scope.

Lemma append_assoc (a b c : string) : (a ++ b) ++ c = a ++ (b ++ c).
Proof. induction a as [ | x a IH]; simpl; congruence. Qed.

Lemma append_nil_r (a : string) : a ++ "" = a.
Proof. induction a as [ | x a IH]; simpl; congruence. Qed.

Lemma length_append (a b : string) :
  String.length (a ++ b) = String.length a + String.length b.
Proof. induction a as [ | x a IH]; simpl; congruence. Qed.

Lemma substring_all (s : string) : substring 0 (String.length s) s = s.
Proof. induction s as [ | x s IH]; simpl; congruence. Qed.

Lemma substring_prefix (a b : string) :
  substring 0 (String.length a) (a ++ b) = a.
Proof.
  induction a as [ | x a IH]; simpl.
  - now destruct b.
  - congruence.
Qed.

Lemma substring_suffix (a b : string) :
  substring (String.length a) (String.length b) (a ++ b) = b.
Proof.
  induction a as [ | x a IH]; simpl; trivial. apply substring_all.
Qed.

Lemma rfind_no_sep (f : string) : no_sep f = true -> rfind_sep_succ f = 0.
Proof.
  induction f as [ | c f IH]; simpl; trivial.
  rewrite andb_true_iff, negb_true_iff. intros [C F].
  now rewrite IH, C.
Qed.

Lemma rfind_last_sep (a f : string) :
  no_sep f = true -> rfind_sep_succ (a ++ "/" ++ f) = S (String.length a).
Proof.
  intros F. induction a as [ | c a IH]; simpl.
  - now rewrite rfind_no_sep.
  - simpl in IH. now rewrite IH.
Qed.

(** The base name is what follows the last separator. *)
Lemma basename_last (a f : string) :
  no_sep f = true -> basename (a ++ "/" ++ f) = f.
Proof.
  intros F. unfold basename, slice_from. rewrite rfind_last_sep by assumption.
  replace (a ++ "/" ++ f) with ((a ++ "/") ++ f) by apply append_assoc.
  replace (S (String.length a)) with (String.length (a ++ "/"))
    by (rewrite length_append; simpl; lia).
  rewrite (length_append (a ++ "/") f), Nat.add_comm, Nat.add_sub.
  apply substring_suffix.
Qed.

Lemma all_sep_append (a b : string) :
  all_sep (a ++ b) = all_sep a && all_sep b.
Proof.
  induction a as [ | c a IH]; simpl; trivial.
  now rewrite IH, andb_assoc.
Qed.

Lemma all_sep_no_sep (s : string) :
  s <> "" -> no_sep s = true -> all_sep s = false.
Proof.
  destruct s as [ | c s]; [congruence | simpl].
  rewrite andb_true_iff, negb_true_iff. intros _ [C _]. now rewrite C.
Qed.

Lemma rstrip_sep_slash (y : string) : rstrip_sep (y ++ "/") = rstrip_sep y.
Proof. induction y as [ | c y IH]; simpl; trivial. now rewrite IH. Qed.

Lemma rstrip_no_sep (s : string) : no_sep s = true -> rstrip_sep s = s.
Proof.
  induction s as [ | c s IH]; simpl; trivial.
  rewrite andb_true_iff, negb_true_iff. intros [C F].
  rewrite IH by assumption. destruct s; trivial. now rewrite C.
Qed.

Lemma rstrip_keeps (x s : string) :
  s <> "" -> no_sep s = true -> rstrip_sep (x ++ s) = x ++ s.
Proof.
  intros N F. induction x as [ | c x IH]; simpl.
  - now apply rstrip_no_sep.
  - rewrite IH. destruct (x ++ s) eqn:E; trivial.
    destruct x; simpl in E; congruence.
Qed.

(** The directory name of a file below a directory with a proper name *)
Lemma dirname_of_file (d seq file : string) :
  seq <> "" -> no_sep seq = true -> no_sep file = true ->
  dirname (d ++ "/" ++ seq ++ "/" ++ file) = d ++ "/" ++ seq.
Proof.
  intros N Hs F. unfold dirname, slice_to.
  replace (d ++ "/" ++ seq ++ "/" ++ file)
    with ((d ++ "/" ++ seq) ++ "/" ++ file)
    by (now rewrite !append_assoc).
  rewrite rfind_last_sep by assumption.
  replace ((d ++ "/" ++ seq) ++ "/" ++ file)
    with (((d ++ "/" ++ seq) ++ "/") ++ file)
    by (now rewrite !append_assoc).
  replace (S (String.length (d ++ "/" ++ seq)))
    with (String.length ((d ++ "/" ++ seq) ++ "/"))
    by (rewrite (length_append (d ++ "/" ++ seq) "/"); simpl; lia).
  rewrite substring_prefix.
  assert (A : all_sep ((d ++ "/" ++ seq) ++ "/") = false).
  { rewrite !all_sep_append, (all_sep_no_sep N Hs). simpl.
    now rewrite !andb_false_r. }
  assert (E : String.eqb ((d ++ "/" ++ seq) ++ "/") "" = false).
  { apply String.eqb_neq. intros H. rewrite H in A. discriminate. }
  rewrite A, E. cbn [negb andb].
  rewrite rstrip_sep_slash.
  replace (d ++ "/" ++ seq) with ((d ++ "/") ++ seq) by apply append_assoc.
  now apply rstrip_keeps.
Qed.

(** The sequence name of an image is the name of the directory it is in. *)
Lemma seq_name_of_file (d seq file : string) :
  seq <> "" -> no_sep seq = true -> no_sep file = true ->
  Aggregator.seq_name (d ++ "/" ++ seq ++ "/" ++ file) = seq.
Proof.
  intros N Hs F. unfold Aggregator.seq_name.
  rewrite dirname_of_file by assumption. now apply basename_last.
Qed.

(** *** The sequence name and the components of the path *)

Lemma basename_no_sep (f : string) : no_sep f = true -> basename f = f.
Proof.
  intros F. unfold basename, slice_from. rewrite rfind_no_sep by assumption.
  rewrite Nat.sub_0_r. apply substring_all.
Qed.

Lemma substring_none (p : string) : substring 0 0 p = "".
Proof. now destruct p. Qed.

Lemma seq_name_no_sep (p : string) :
  no_sep p = true -> Aggregator.seq_name p = "".
Proof.
  intros F. unfold Aggregator.seq_name, dirname, slice_to.
  rewrite rfind_no_sep by assumption. now rewrite substring_none.
Qed.

(** A path has no separator, or a last one. *)
Lemma last_sep_split (p : string) :
  no_sep p = true \/ exists h t, p = h ++ "/" ++ t /\ no_sep t = true.
Proof.
  induction p as [ | c p [F | (h & t & E & F)]].
  - now left.
  - destruct (is_sep c) eqn:C.
    + right. exists "", p. split; trivial.
      unfold is_sep in C. apply Ascii.eqb_eq in C. now rewrite C.
    + left. simpl. now rewrite C, F.
  - right. exists (String c h), t. split; trivial. simpl. now rewrite E.
Qed.

Lemma rstrip_all_sep (s : string) : all_sep s = true -> rstrip_sep s = "".
Proof.
  induction s as [ | c s IH]; simpl; trivial.
  rewrite andb_true_iff. intros [C A]. now rewrite IH, C.
Qed.

Lemma rstrip_before_seps (x s : string) :
  all_sep s = true -> rstrip_sep (x ++ s) = rstrip_sep x.
Proof.
  intros A. induction x as [ | c x IH]; simpl.
  - now apply rstrip_all_sep.
  - now rewrite IH.
Qed.

(** A string that is not made of separators only ends with a name, after
    which only separators come. *)
Lemma last_name_split (h : string) :
  all_sep h = false ->
  exists a w s,
    h = a ++ w ++ s
    /\ (a = "" \/ exists a', a = a' ++ "/")
    /\ w <> "" /\ no_sep w = true /\ all_sep s = true.
Proof.
  induction h as [ | c h IH]; [discriminate | ].
  simpl. intros A. destruct (all_sep h) eqn:Ah.
  - rewrite andb_true_r in A.
    exists "", (String c ""), h. repeat split; auto.
    + discriminate.
    + simpl. now rewrite A.
  - destruct (IH eq_refl) as (a & w & s & E & Ha & Nw & Fw & As).
    destruct Ha as [-> | (a' & ->)].
    + destruct (is_sep c) eqn:C.
      * exists "/", w, s. repeat split; auto.
        -- simpl in *. unfold is_sep in C. apply Ascii.eqb_eq in C.
           now rewrite C, E.
        -- right. now exists "".
      * exists "", (String c w), s. repeat split; auto.
        -- simpl in *. now rewrite E.
        -- discriminate.
        -- simpl. now rewrite C, Fw.
    + exists (String c (a' ++ "/")), w, s. repeat split; auto.
      * simpl. now rewrite E.
      * right. now exists (String c a').
Qed.

Import PathSpec.

Lemma components_not_nil (p : string) : components p <> [].
Proof.
  induction p as [ | c p IH]; simpl; [discriminate | ].
  destruct (Ascii.eqb c "/"); [discriminate | ].
  destruct (components p); [congruence | discriminate].
Qed.

Lemma components_no_sep (w : string) : no_sep w = true -> components w = [w].
Proof.
  induction w as [ | c w IH]; simpl; trivial.
  unfold is_sep. rewrite andb_true_iff, negb_true_iff. intros [C F].
  now rewrite C, IH.
Qed.

Lemma components_sep (a b : string) :
  components (a ++ "/" ++ b) = (components a ++ components b)%list.
Proof.
  induction a as [ | c a IH]; simpl; trivial.
  destruct (Ascii.eqb c "/").
  - simpl in IH. now rewrite IH.
  - simpl in IH. rewrite IH.
    pose proof (components_not_nil a) as N.
    destruct (components a); [congruence | reflexivity].
Qed.

Lemma components_name (w x : string) :
  no_sep w = true ->
  components (w ++ x)
  = match components x with
    | y :: ys => (w ++ y) :: ys
    | [] => [w]
    end.
Proof.
  intros F. induction w as [ | c w IH]; simpl.
  - pose proof (components_not_nil x) as N.
    destruct (components x); [congruence | reflexivity].
  - simpl in F. unfold is_sep in F.
    rewrite andb_true_iff, negb_true_iff in F. destruct F as [C F].
    rewrite C, (IH F).
    pose proof (components_not_nil x) as N.
    destruct (components x); [congruence | reflexivity].
Qed.

Lemma components_all_sep (s : string) :
  all_sep s = true -> Forall (fun c => c = "") (components s).
Proof.
  induction s as [ | c s IH]; simpl.
  - intros _. now constructor.
  - unfold is_sep. rewrite andb_true_iff. intros [C A].
    rewrite C. constructor; auto.
Qed.

Lemma filter_all_empty (l : list string) :
  Forall (fun c => c = "") l ->
  filter (fun c => negb (String.eqb c "")) l = [].
Proof. induction 1 as [ | c l -> _ IH]; simpl; trivial. Qed.

Lemma filter_name_seps (w s : string) :
  w <> "" -> no_sep w = true -> all_sep s = true ->
  filter (fun c => negb (String.eqb c "")) (components (w ++ s)) = [w].
Proof.
  intros N F A. rewrite components_name by assumption.
  pose proof (components_all_sep s A) as E.
  destruct E as [ | y ys -> E]; simpl.
  - apply String.eqb_neq in N. now rewrite N.
  - rewrite append_nil_r. apply String.eqb_neq in N. rewrite N. simpl.
    now rewrite filter_all_empty.
Qed.

Lemma last_snoc {A : Type} (l : list A) (x d : A) : last (l ++ [x]) d = x.
Proof.
  induction l as [ | y l IH]; simpl; trivial.
  rewrite IH. now destruct l.
Qed.

(** The base name of what is left of [h] without its trailing separators is
    the last of its components that is not empty. *)
Lemma basename_rstrip (h : string) :
  all_sep h = false ->
  basename (rstrip_sep h)
  = last (filter (fun c => negb (String.eqb c "")) (components h)) "".
Proof.
  intros A.
  destruct (last_name_split h A) as (a & w & s & -> & Ha & Nw & Fw & As).
  rewrite <- append_assoc, (rstrip_before_seps (a ++ w) s As).
  rewrite rstrip_keeps by assumption.
  destruct Ha as [-> | (a' & ->)].
  - simpl. rewrite basename_no_sep by assumption.
    now rewrite filter_name_seps.
  - rewrite !append_assoc. rewrite basename_last by assumption.
    rewrite components_sep, filter_app, filter_name_seps by assumption.
    now rewrite last_snoc.
Qed.

(** The sequence name that the scripts compute is the name of the parent
    directory, for every path. *)
Lemma seq_name_parent_directory (p : string) :
  Aggregator.seq_name p = parent_directory_name p.
Proof.
  unfold parent_directory_name, directories.
  destruct (last_sep_split p) as [F | (h & t & -> & F)].
  - rewrite seq_name_no_sep, components_no_sep by assumption. reflexivity.
  - rewrite components_sep, (components_no_sep _ F), removelast_last.
    unfold Aggregator.seq_name, dirname, slice_to.
    rewrite rfind_last_sep by assumption.
    replace (h ++ "/" ++ t) with ((h ++ "/") ++ t) by apply append_assoc.
    replace (S (String.length h)) with (String.length (h ++ "/"))
      by (rewrite length_append; simpl; lia).
    rewrite substring_prefix.
    assert (E : String.eqb (h ++ "/") "" = false).
    { apply String.eqb_neq. destruct h; discriminate. }
    rewrite E, all_sep_append. cbn [negb andb all_sep is_sep].
    change (Ascii.eqb "/" "/") with true. rewrite andb_true_r.
    cbn [andb]. destruct (all_sep h) eqn:A; cbn [negb].
    + rewrite (filter_all_empty (components_all_sep h A)).
      replace (h ++ "/") with (h ++ "/" ++ "") by reflexivity.
      now apply basename_last.
    + rewrite rstrip_sep_slash. now apply basename_rstrip.
Qed.

(** For an image in a directory with a proper name, that name *)
Lemma parent_directory_name_of_file (d seq file : string) :
  seq <> "" -> no_sep seq = true -> no_sep file = true ->
  parent_directory_name (d ++ "/" ++ seq ++ "/" ++ file) = seq.
Proof.
  intros N Hs F. rewrite <- seq_name_parent_directory.
  now apply seq_name_of_file.
Qed.

End PosixPathFacts.

(** ** The aggregates *)

Module MeanFacts.

Import Dict DictFacts Aggregator AggregatorSpec AggregatorFacts NpFloatFacts.

Lemma concat_singletons {A : Type} (l : list A) :
  concat (map (fun x => [x]) l) = l.
Proof. induction l as [ | x l IH]; simpl; congruence. Qed.

Lemma hstack_scalars_ok (l : list float) :
  l <> [] -> hstack_scalars l = Ok l.
Proof.
  destruct l as [ | x l]; [congruence | intros _].
  transitivity (Ok (concat (map (fun y => [y]) (x :: l))));
    [reflexivity | now rewrite concat_singletons].
Qed.

Lemma hstack_dict_ok (d : dict) :
  d <> [] -> hstack_dict d = Ok (concat (values d)).
Proof. destruct d; [congruence | reflexivity]. Qed.

Lemma overall_mean_ok (d : dict) :
  concat (values d) <> [] ->
  overall_mean d = Ok (np_mean (concat (values d))).
Proof.
  intros N. unfold overall_mean.
  rewrite hstack_dict_ok by (intros ->; now apply N). cbn [rbind].
  now rewrite hstack_scalars_ok.
Qed.

Lemma bucket_mean_ok (b : list float) :
  b <> [] -> bucket_mean b = Ok (np_mean b).
Proof. intros N. unfold bucket_mean. now rewrite hstack_scalars_ok. Qed.

Lemma zip_entries_names (imgname : list string) (error r_error : list float) :
  length error = length imgname -> length r_error = length imgname ->
  map entry_name (zip_entries imgname error r_error) = imgname
  /\ map entry_error (zip_entries imgname error r_error) = error
  /\ map entry_r_error (zip_entries imgname error r_error) = r_error.
Proof.
  unfold zip_entries. revert error r_error.
  induction imgname as [ | p l IH]; intros [ | e error] [ | r r_error];
    simpl; try discriminate; intros E R; auto.
  injection E as E. injection R as R.
  destruct (IH error r_error E R) as (H1 & H2 & H3).
  unfold entry_name, entry_error, entry_r_error in *; simpl.
  now rewrite H1, H2, H3.
Qed.

(** The loop over a batch, for sequences of one length *)
Lemma record_batch_zip (q : quant) (imgname : list string)
    (error r_error : list float) :
  length error = length imgname -> length r_error = length imgname ->
  record_batch q imgname error r_error
  = record_call q (zip_entries imgname error r_error).
Proof.
  intros E R. unfold record_call.
  destruct (zip_entries_names imgname error r_error E R) as (H1 & H2 & H3).
  now rewrite H1, H2, H3.
Qed.

Lemma In_values_of (k : string) (v : float) (l : list (string * float)) :
  In (k, v) l -> In v (values_of k l).
Proof.
  intros H. unfold values_of. apply in_map_iff. exists (k, v). split; trivial.
  apply filter_In. split; trivial. apply String.eqb_refl.
Qed.

End MeanFacts.

(** ** Claims on the recording loop *)

Module AggregatorClaims.

Import Dict DictFacts Aggregator AggregatorSpec AggregatorFacts NpFloatFacts
  MeanFacts.


(** C8.  The errors of every sample of a batch are recorded under the base
    name of the parent directory of the image path of the sample: the last
    name before the file name among the names that the separators of the path
    delimit (the empty string when there is none).  For an image
    [d/seq/file] this is [seq]. *)
Theorem errors_recorded_under_parent_directory_name (q : quant)
    (imgname : list string) (error r_error : list float) :
  synced q ->
  length error = length imgname -> length r_error = length imgname ->
  (exists q',
     record_batch q imgname error r_error = Ok q' /\
     forall ii p e r,
       nth_error imgname ii = Some p ->
       nth_error error ii = Some e ->
       nth_error r_error ii = Some r ->
       In (PathSpec.parent_directory_name p) (keys (quant_mpjpe q'))
       /\ In e (bucket (PathSpec.parent_directory_name p) (quant_mpjpe q'))
       /\ In r (bucket (PathSpec.parent_directory_name p)
                  (quant_recon_err q')))
  /\ (forall d seq file,
        seq <> ""%string -> PosixPath.no_sep seq = true ->
        PosixPath.no_sep file = true ->
        PathSpec.parent_directory_name
          (d ++ "/" ++ seq ++ "/" ++ file)%string = seq).
Proof.
  intros Sy E R. split; [ | apply PosixPathFacts.parent_directory_name_of_file].
  set (b := zip_entries imgname error r_error).
  exists (record_entries q b). split.
  - rewrite record_batch_zip by assumption. now apply record_call_entries.
  - intros ii p e r Hp He Hr.
    assert (I : In (p, e, r) b).
    { unfold b, zip_entries. apply in_map_iff. exists (p, (e, r)).
      split; trivial.
      clear Sy E R b. revert imgname error r_error Hp He Hr.
      induction ii as [ | ii IH]; intros [ | p' l] [ | e' le] [ | r' lr];
        simpl; try discriminate; intros Hp He Hr.
      - left. congruence.
      - right. now apply IH. }
    rewrite <- PosixPathFacts.seq_name_parent_directory.
    destruct (bucket_record_entries (seq_name p) b q) as [E1 E2].
    assert (I1 : In e (bucket (seq_name p) (quant_mpjpe (record_entries q b)))).
    { rewrite E1. apply in_or_app. right.
      apply In_values_of. unfold errors_of. apply in_map_iff.
      now exists (p, e, r). }
    assert (I2 : In r (bucket (seq_name p)
                         (quant_recon_err (record_entries q b)))).
    { rewrite E2. apply in_or_app. right.
      apply In_values_of. unfold r_errors_of. apply in_map_iff.
      now exists (p, e, r). }
    repeat split; trivial.
    apply mem_In.
    destruct (mem (seq_name p) (quant_mpjpe (record_entries q b))) eqn:M;
      trivial.
    now rewrite (bucket_absent _ _ M) in I1.
Qed.

(** C3, as the code has it.  The loop has no test on the values: the errors
    of every sample, finite or not, are recorded in the buckets of its
    sequence; and a value that is not finite makes the running mean over all
    the samples not finite. *)
Theorem every_value_is_recorded_and_averaged (q : quant) (b : list entry)
    (x : entry) :
  synced q -> In x b ->
  exists q',
    record_call q b = Ok q' /\
    In (entry_error x) (bucket (seq_name (entry_name x)) (quant_mpjpe q')) /\
    In (entry_r_error x)
       (bucket (seq_name (entry_name x)) (quant_recon_err q')) /\
    (exists m, overall_mean (quant_mpjpe q') = Ok m /\
       (isfinite (entry_error x) = false -> isfinite m = false)) /\
    (exists m, overall_mean (quant_recon_err q') = Ok m /\
       (isfinite (entry_r_error x) = false -> isfinite m = false)).
Proof.
  intros Sy I. exists (record_entries q b).
  split; [now apply record_call_entries | ].
  destruct (bucket_record_entries (seq_name (entry_name x)) b q) as [E1 E2].
  destruct (values_record_entries_perm b q) as [P1 P2].
  rewrite E1, E2.
  assert (I1 : In (entry_error x)
                 (concat (values (quant_mpjpe (record_entries q b))))).
  { apply (Permutation_in _ (Permutation_sym P1)), in_or_app. right.
    now apply in_map. }
  assert (I2 : In (entry_r_error x)
                 (concat (values (quant_recon_err (record_entries q b))))).
  { apply (Permutation_in _ (Permutation_sym P2)), in_or_app. right.
    now apply in_map. }
  repeat split.
  - apply in_or_app. right. apply In_values_of. unfold errors_of.
    apply in_map_iff. now exists x.
  - apply in_or_app. right. apply In_values_of. unfold r_errors_of.
    apply in_map_iff. now exists x.
  - eexists. split.
    + apply overall_mean_ok. intros N. now rewrite N in I1.
    + intros F. rewrite isfinite_np_mean by (intros N; now rewrite N in I1).
      apply not_true_is_false. intros A.
      rewrite forallb_forall in A. specialize (A _ I1). congruence.
  - eexists. split.
    + apply overall_mean_ok. intros N. now rewrite N in I2.
    + intros F. rewrite isfinite_np_mean by (intros N; now rewrite N in I2).
      apply not_true_is_false. intros A.
      rewrite forallb_forall in A. specialize (A _ I2). congruence.
Qed.

End AggregatorClaims.

(** ** The final report *)

Module ReportFacts.

Import Dict DictFacts Aggregator AggregatorSpec AggregatorFacts NpFloatFacts
  MeanFacts PosixPathFacts.
Local Open Scope string_scope.

Section Report.

Variable fmt2 : float -> string.

Lemma names_str_tabulate (f : string -> list float) (ks : list string) :
  names_str (map (fun k => (k, f k)) ks)
  = concat_str (map (fun k => k ++ ";") ks).
Proof. induction ks as [ | k ks IH]; simpl; congruence. Qed.

Lemma means_str_tabulate (f : string -> list float) (ks : list string) :
  (forall k, In k ks -> f k <> []) ->
  means_str fmt2 (map (fun k => (k, f k)) ks)
  = Ok (concat_str
          (map (fun k => fmt2 (fmul (Fin 1000) (np_mean (f k))) ++ "; ") ks)).
Proof.
  induction ks as [ | k ks IH]; intros N; simpl; trivial.
  rewrite bucket_mean_ok by (apply N; now left). cbn [rbind].
  rewrite IH by (intros k' H; apply N; now right). reflexivity.
Qed.

Lemma values_of_present (k : string) (s : list (string * float)) :
  In k (first_appearance (map fst s)) -> values_of k s <> [].
Proof.
  intros H. apply (proj1 (In_first_appearance _ _)) in H.
  apply in_map_iff in H. destruct H as [[k' v] [E H]]. simpl in E. subst k'.
  intros N. apply (In_values_of k v) in H. now rewrite N in H.
Qed.

Lemma names_str_buckets (s : list (string * float)) :
  names_str (buckets s)
  = concat_str (map (fun k => k ++ ";") (first_appearance (map fst s))).
Proof. apply names_str_tabulate. Qed.

Lemma means_str_buckets (s : list (string * float)) :
  means_str fmt2 (buckets s)
  = Ok (concat_str
          (map (fun k => fmt2 (fmul (Fin 1000) (np_mean (values_of k s))) ++ "; ")
               (first_appearance (map fst s)))).
Proof.
  unfold buckets. apply means_str_tabulate.
  intros k. apply values_of_present.
Qed.

Lemma values_buckets_perm (s : list (string * float)) :
  Permutation (concat (values (buckets s))) (map snd s).
Proof.
  induction s as [ | [k v] s IH] using rev_ind; [constructor | ].
  rewrite <- dict_record_buckets, values_dict_record_perm, IH, map_app.
  reflexivity.
Qed.

Lemma buckets_not_nil (s : list (string * float)) : s <> [] -> buckets s <> [].
Proof. destruct s as [ | [k v] s]; [congruence | discriminate]. Qed.

Lemma values_buckets (s : list (string * float)) :
  concat (values (buckets s)) = bucket_values s.
Proof. unfold values, buckets, bucket_values. now rewrite map_map. Qed.

(** The values of the buckets are the values of the samples, each once. *)
Lemma bucket_values_perm (s : list (string * float)) :
  Permutation (bucket_values s) (map snd s).
Proof. rewrite <- values_buckets. apply values_buckets_perm. Qed.

Lemma bucket_values_not_nil (s : list (string * float)) :
  s <> [] -> bucket_values s <> [].
Proof.
  intros N E. pose proof (bucket_values_perm s) as P. rewrite E in P.
  apply Permutation_nil in P. destruct s; [congruence | discriminate].
Qed.

(** The overall mean of the code, over the buckets of a stream *)
Lemma overall_mean_bucket_values (s : list (string * float)) :
  s <> [] -> overall_mean (buckets s) = Ok (np_mean (bucket_values s)).
Proof.
  intros N. rewrite overall_mean_ok; rewrite values_buckets; trivial.
  now apply bucket_values_not_nil.
Qed.

(** The final block, for the samples [l] of a run: the text, line by line,
    and the two averages, with the means taken as the code takes them. *)
Lemma final_report_of_stream (l : list entry) :
  l <> [] ->
  final_report fmt2 (quant_of l)
  = Ok (report_text fmt2 l,
        fmul (np_mean (bucket_values (errors_of l))) (Fin 1000),
        fmul (np_mean (bucket_values (r_errors_of l))) (Fin 1000)).
Proof.
  intros N.
  assert (N1 : errors_of l <> []) by (destruct l; [congruence | discriminate]).
  assert (N2 : r_errors_of l <> [])
    by (destruct l; [congruence | discriminate]).
  unfold final_report, quant_of. cbn [quant_mpjpe quant_recon_err].
  rewrite !hstack_dict_ok by now apply buckets_not_nil. cbn [rbind].
  rewrite !overall_mean_bucket_values by assumption. cbn [rbind].
  rewrite !means_str_buckets. cbn [rbind]. rewrite names_str_buckets.
  unfold report_text, names_line, metric_text.
  change line_feed with nl.
  f_equal. f_equal. f_equal.
  now rewrite !append_assoc.
Qed.

Lemma no_line_feed_append (a b : string) :
  no_line_feed (a ++ b) = no_line_feed a && no_line_feed b.
Proof.
  induction a as [ | c a IH]; simpl; trivial. now rewrite IH, andb_assoc.
Qed.

Lemma no_line_feed_concat_str (l : list string) :
  Forall (fun s => no_line_feed s = true) l -> no_line_feed (concat_str l) = true.
Proof.
  induction 1 as [ | s l H _ IH]; simpl; trivial.
  now rewrite no_line_feed_append, H, IH.
Qed.

Lemma lines_no_line_feed (a : string) : no_line_feed a = true -> lines a = [a].
Proof.
  induction a as [ | c a IH]; simpl; trivial.
  rewrite andb_true_iff, negb_true_iff. intros [C F]. now rewrite C, IH.
Qed.

(** A text without line feed, a line feed, and more text *)
Lemma lines_first (a b : string) :
  no_line_feed a = true -> lines (a ++ line_feed ++ b) = a :: lines b.
Proof.
  intros F. induction a as [ | c a IH]; simpl; trivial.
  simpl in F. rewrite andb_true_iff, negb_true_iff in F. destruct F as [C F].
  rewrite C. simpl in IH. now rewrite (IH F).
Qed.

Lemma no_line_feed_names_line (s : list (string * float)) :
  Forall (fun kv => no_line_feed (fst kv) = true) s ->
  no_line_feed (names_line s) = true.
Proof.
  intros H. unfold names_line. rewrite no_line_feed_append. simpl.
  apply no_line_feed_concat_str, Forall_map, Forall_forall.
  intros k I. rewrite no_line_feed_append, andb_true_iff. split; trivial.
  apply (proj1 (In_first_appearance _ _)) in I.
  apply in_map_iff in I. destruct I as [kv [<- I]].
  rewrite Forall_forall in H. now apply H.
Qed.

Lemma no_line_feed_metric_text (label unit : string)
    (s : list (string * float)) :
  (forall x, no_line_feed (fmt2 x) = true) ->
  no_line_feed label = true -> no_line_feed unit = true ->
  no_line_feed (metric_text fmt2 label unit s) = true.
Proof.
  intros Hf Hl Hu. unfold metric_text.
  rewrite !no_line_feed_append, Hl, Hf, Hu. simpl.
  apply no_line_feed_concat_str, Forall_map, Forall_forall.
  intros k _. now rewrite no_line_feed_append, Hf.
Qed.

(** The text of the final block has three lines. *)
Lemma lines_of_report (l : list entry) :
  (forall x, no_line_feed (fmt2 x) = true) ->
  Forall (fun x => no_line_feed (seq_name (entry_name x)) = true) l ->
  lines (report_text fmt2 l) = report_lines fmt2 l.
Proof.
  intros Hf Hs. unfold report_text.
  rewrite lines_first.
  2: { apply no_line_feed_names_line. unfold errors_of.
       apply Forall_map. simpl. exact Hs. }
  rewrite lines_first by now apply no_line_feed_metric_text.
  rewrite lines_no_line_feed by now apply no_line_feed_metric_text.
  reflexivity.
Qed.

End Report.

End ReportFacts.

(** ** The loop of [run_evaluation] *)

Module RunFacts.

Import Dict DictFacts Aggregator AggregatorSpec AggregatorFacts NpFloatFacts
  MeanFacts ReportFacts EvalCommon RunSpec.

Lemma bind_ok {A B : Type} (m : M A) (f : A -> M B) (out out' : list out_line)
    (a : A) :
  m out = (Ok a, out') -> bind m f out = f a out'.
Proof. intros E. unfold bind. now rewrite E. Qed.

Lemma bind_raise {A B : Type} (m : M A) (f : A -> M B)
    (out out' : list out_line) (e : exn) :
  m out = (Raise e, out') -> bind m f out = (Raise e, out').
Proof. intros E. unfold bind. now rewrite E. Qed.

Lemma map2_same_source {A B C D : Type} (f : B -> C -> D) (a : A -> B)
    (b : A -> C) (l : list A) :
  map2 f (map a l) (map b l) = map (fun x => f (a x) (b x)) l.
Proof.
  unfold map2. induction l as [ | x l IH]; simpl; trivial. now rewrite IH.
Qed.

Lemma mpjpe_error_rows (ss : list sample) :
  mpjpe_error (map pred_joints ss) (map gt_joints ss)
  = map (fun s => mpjpe1 (pred_joints s) (gt_joints s)) ss.
Proof.
  unfold mpjpe_error, tmean_last, tsqrt, tsum_last, tpow2, tsub.
  rewrite map2_same_source, !map_map. reflexivity.
Qed.

Lemma last_cons {A : Type} (l : list A) (x d : A) :
  last (x :: l) d = last l x.
Proof.
  revert x d. induction l as [ | y l IH]; intros x d; trivial.
  change (last (x :: y :: l) d) with (last (y :: l) d).
  now rewrite !IH.
Qed.

Lemma last_map_cons {A B : Type} (f : A -> B) (l : list A) (x : A) (d : B) :
  last (map f (x :: l)) d = f (last l x).
Proof.
  revert x. induction l as [ | y l IH]; intros x; trivial.
  change (last (map f (x :: y :: l)) d) with (last (map f (y :: l)) d).
  now rewrite IH, last_cons.
Qed.

Lemma record_entries_values_not_nil (q : quant) (l : list entry) :
  l <> [] ->
  concat (values (quant_mpjpe (record_entries q l))) <> []
  /\ concat (values (quant_recon_err (record_entries q l))) <> [].
Proof.
  intros N. destruct (values_record_entries_perm l q) as [P1 P2].
  split; intros E.
  - rewrite E in P1. apply Permutation_nil in P1.
    apply app_eq_nil in P1. destruct P1 as [_ P1].
    destruct l; [congruence | discriminate].
  - rewrite E in P2. apply Permutation_nil in P2.
    apply app_eq_nil in P2. destruct P2 as [_ P2].
    destruct l; [congruence | discriminate].
Qed.

Section Run.

Variable reconstruction_error1 : joints -> joints -> float.
Variable fmt2 : float -> string.

(** The block of the pose evaluation records the samples of the batch. *)
Lemma pose_block_ok (bVerbose : bool) (seqName : string) (b : batch)
    (q : quant) (out : list out_line) :
  synced q ->
  let q' := record_entries q (entries_of_batch reconstruction_error1 b) in
  pose_block reconstruction_error1 bVerbose seqName
    (map imgname (samples b)) (map pred_joints (samples b))
    (map gt_joints (samples b)) q out
  = (Ok q',
     out ++ (if bVerbose then [batch_line reconstruction_error1 b q'] else [])).
Proof.
  intros Sy q'. unfold pose_block.
  set (es := entries_of_batch reconstruction_error1 b).
  assert (En : map imgname (samples b) = map entry_name es)
    by (unfold es, entries_of_batch; now rewrite map_map).
  assert (Ee : mpjpe_error (map pred_joints (samples b))
                 (map gt_joints (samples b)) = map entry_error es)
    by (unfold es, entries_of_batch; now rewrite mpjpe_error_rows, map_map).
  assert (Er : reconstruction_error reconstruction_error1
                 (map pred_joints (samples b)) (map gt_joints (samples b))
               = map entry_r_error es).
  { unfold es, entries_of_batch, reconstruction_error.
    now rewrite map2_same_source, map_map. }
  assert (Nes : es <> []) by (unfold es, entries_of_batch, samples; discriminate).
  assert (Q : record_entries q es = q') by reflexivity.
  destruct (record_entries_values_not_nil q Nes) as [V1 V2].
  rewrite Q in V1, V2.
  assert (D1 : quant_mpjpe q' <> []) by (intros E; rewrite E in V1; now apply V1).
  assert (D2 : quant_recon_err q' <> [])
    by (intros E; rewrite E in V2; now apply V2).
  rewrite Ee, Er.
  assert (R : record_batch q (map imgname (samples b)) (map entry_error es)
                (map entry_r_error es) = Ok q').
  { rewrite En, <- Q. apply (record_call_entries es Sy). }
  rewrite R.
  assert (Sn : seq_name_after seqName (map imgname (samples b))
                 (map entry_r_error es)
               = seq_name (imgname (last (batch_rest b) (batch_first b)))).
  { unfold seq_name_after. rewrite En, length_map.
    rewrite <- (length_map entry_name es), firstn_all, <- En, map_map.
    unfold samples.
    apply (last_map_cons (fun s : sample => seq_name (imgname s))). }
  rewrite Sn.
  unfold bind, lift, ret. cbn [rbind].
  rewrite (hstack_dict_ok D1), (hstack_dict_ok D2).
  destruct bVerbose; unfold when.
  - unfold bind, lift, print, ret.
    rewrite (hstack_scalars_ok V1), (hstack_scalars_ok V2). cbn [rbind].
    reflexivity.
  - unfold ret. now rewrite app_nil_r.
Qed.

(** The progress block of a pose run never fails for a non-zero frequency;
    what it prints does not depend on the dictionaries. *)
Lemma progress_block_pose (bVerbose : bool) (step batch_size : nat)
    (log_freq : Z) (n : nat) (out : list out_line) :
  (bVerbose = true -> log_freq <> 0%Z) ->
  progress_block bVerbose true false false step batch_size log_freq
    (np_zeros n) (np_zeros n) out
  = (Ok tt,
     out ++ (if bVerbose then progress_lines step batch_size log_freq n
             else [])).
Proof.
  intros Hf. unfold progress_block, when. destruct bVerbose.
  - destruct (Z.eqb log_freq 0) eqn:E0.
    + apply Z.eqb_eq in E0. now destruct Hf.
    + unfold progress_lines, progress_due, progress_value, np_zeros.
      destruct (Z.eqb (Z.modulo (Z.of_nat step) log_freq) (log_freq - 1)).
      * unfold bind, print, ret. now rewrite <- !app_assoc.
      * unfold ret. now rewrite app_nil_r.
  - unfold ret. now rewrite app_nil_r.
Qed.

End Run.

End RunFacts.

(** ** [run_evaluation] of [eval_export.py] *)

Module EvalExportFacts.

Import Dict DictFacts Aggregator AggregatorSpec AggregatorFacts NpFloatFacts
  MeanFacts ReportFacts EvalCommon RunSpec RunFacts EvalExport.

Lemma eval_masks_pose (dataset_name : string) :
  eval_pose dataset_name = true -> eval_masks dataset_name = false.
Proof. intros E. unfold eval_masks. now rewrite E. Qed.

Section Run.

Variable reconstruction_error1 : joints -> joints -> float.
Variable fmt2 : float -> string.

(** One turn of the loop of a pose run *)
Lemma loop_body_pose (dataset_name : string) (n batch_size : nat)
    (log_freq : Z) (bVerbose : bool) (step : nat) (b : batch) (q : quant)
    (out : list out_line) :
  eval_pose dataset_name = true -> synced q ->
  (bVerbose = true -> log_freq <> 0%Z) ->
  let q' := record_entries q (entries_of_batch reconstruction_error1 b) in
  loop_body reconstruction_error1 dataset_name n batch_size log_freq bVerbose
    step b q out
  = (Ok q',
     out ++ (if bVerbose
             then batch_line reconstruction_error1 b q'
                  :: progress_lines step batch_size log_freq n
             else [])).
Proof.
  intros Ep Sy Hf q'. unfold loop_body, eval_parts.
  rewrite Ep, (eval_masks_pose _ Ep).
  erewrite bind_ok by (apply pose_block_ok; exact Sy).
  unfold masks_block, parts_block, when.
  unfold bind at 1. unfold ret at 1.
  unfold bind at 1. unfold ret at 1.
  erewrite bind_ok by (apply progress_block_pose; exact Hf).
  unfold ret. fold q'. f_equal.
  rewrite <- app_assoc. now destruct bVerbose.
Qed.

(** The loop of a pose run records the samples of all the batches. *)
Lemma loop_pose (dataset_name : string) (n batch_size : nat) (log_freq : Z)
    (bVerbose : bool) (data_loader : list batch) :
  eval_pose dataset_name = true -> (bVerbose = true -> log_freq <> 0%Z) ->
  forall (step : nat) (q : quant) (out : list out_line),
  synced q ->
  exists lines,
    loop reconstruction_error1 dataset_name n batch_size log_freq bVerbose
      step data_loader q out
    = (Ok (record_entries q (entries_of reconstruction_error1 data_loader)),
       out ++ lines).
Proof.
  intros Ep Hf.
  induction data_loader as [ | b bs IH]; intros step q out Sy.
  - exists []. simpl. unfold ret. now rewrite app_nil_r.
  - cbn [loop].
    erewrite bind_ok by (apply loop_body_pose; assumption).
    edestruct (IH (S step)) as [lines E];
      [ | rewrite E; eexists; rewrite <- app_assoc; f_equal ].
    + now apply synced_record_entries.
    + f_equal. unfold entries_of, record_entries. simpl.
      now rewrite fold_left_app.
Qed.

Lemma entries_of_not_nil (data_loader : list batch) :
  data_loader <> [] -> entries_of reconstruction_error1 data_loader <> [].
Proof. destruct data_loader; [congruence | discriminate]. Qed.

(** A pose run over a loader that is not empty: the value returned and the
    lines printed at the end. *)
Lemma run_evaluation_pose (dataset_name : string) (data_loader : list batch)
    (batch_size : nat) (log_freq : Z) (bVerbose : bool)
    (out : list out_line) :
  eval_pose dataset_name = true -> data_loader <> [] ->
  (bVerbose = true -> log_freq <> 0%Z) ->
  let es := entries_of reconstruction_error1 data_loader in
  let a := fmul (np_mean (bucket_values (errors_of es))) (Fin 1000) in
  let r := fmul (np_mean (bucket_values (r_errors_of es))) (Fin 1000) in
  exists lines,
    run_evaluation reconstruction_error1 fmt2 dataset_name data_loader
      batch_size log_freq bVerbose out
    = (Ok (RetPair a r),
       out ++ lines
       ++ (if bVerbose
           then [OutText "*** Final Results ***"; OutBlank;
                 OutText (report_text fmt2 es)]
           else [OutSummary a r])).
Proof.
  intros Ep Nl Hf es a r. unfold run_evaluation.
  destruct (@loop_pose dataset_name (len_dataset data_loader) batch_size
              log_freq bVerbose data_loader Ep Hf 0 quant_empty out
              synced_quant_empty) as [lines E].
  exists lines. erewrite bind_ok by exact E.
  rewrite record_entries_quant_of. fold es.
  unfold final_block. rewrite Ep.
  assert (F := final_report_of_stream fmt2 (entries_of_not_nil Nl)).
  fold es in F.
  destruct bVerbose; unfold when, bind, print, lift, ret; rewrite F;
    fold a; fold r; f_equal; now rewrite <- !app_assoc.
Qed.

End Run.

End EvalExportFacts.

(** ** Claims on the report and on the value returned *)

Module ReportClaims.

Import Dict DictFacts Aggregator AggregatorSpec AggregatorFacts NpFloatFacts
  MeanFacts ReportFacts EvalCommon RunSpec RunFacts.

(** C5.  The overall mean that the final block reports for a metric is the
    mean over the concatenation of all the buckets, taken bucket after
    bucket: a list that holds the value of every sample of the run exactly
    once, whatever the sequences of the samples are, so that every sample
    has the same weight.  Two runs that record the same samples in the same
    order, cut into batches in two different ways, end with the same
    dictionaries, hence with the same report and the same means, bit for
    bit.  The mean is not the mean of the means of the sequences: two
    samples of 0.25 in one sequence and one sample of 1 in another give
    0.5, that is 500 mm, where the mean of the two means is 0.625. *)
Theorem overall_mean_over_all_samples_any_batching (fmt2 : float -> string)
    (bs1 bs2 : list (list entry)) :
  concat bs1 = concat bs2 -> concat bs1 <> [] ->
  let all_e := bucket_values (errors_of (concat bs1)) in
  let all_r := bucket_values (r_errors_of (concat bs1)) in
  (exists q output_str,
     record_calls quant_empty bs1 = Ok q
     /\ record_calls quant_empty bs2 = Ok q
     /\ final_report fmt2 q
        = Ok (output_str, fmul (np_mean all_e) (Fin 1000),
              fmul (np_mean all_r) (Fin 1000)))
  /\ Permutation all_e (map entry_error (concat bs1))
  /\ Permutation all_r (map entry_r_error (concat bs1))
  /\ (exists q output_str,
        record_calls quant_empty [Inputs.entries_dyadic] = Ok q
        /\ final_report fmt2 q = Ok (output_str, Fin 500, Fin 1000)
        /\ np_mean [np_mean (bucket "seqA" (quant_mpjpe q));
                    np_mean (bucket "seqB" (quant_mpjpe q))]
           = Fin (5 / 8)).
Proof.
  intros E N all_e all_r.
  assert (R : forall bs, concat bs <> [] ->
            exists q,
              record_calls quant_empty bs = Ok q /\ q = quant_of (concat bs)
              /\ final_report fmt2 q
                 = Ok (report_text fmt2 (concat bs),
                       fmul (np_mean (bucket_values (errors_of (concat bs))))
                         (Fin 1000),
                       fmul (np_mean (bucket_values (r_errors_of (concat bs))))
                         (Fin 1000))).
  { intros bs Nb. exists (record_entries quant_empty (concat bs)).
    split; [apply record_calls_entries, synced_quant_empty | ].
    rewrite record_entries_quant_of. split; trivial.
    now apply final_report_of_stream. }
  repeat split.
  - destruct (R bs1 N) as (q & R1 & Q & F).
    exists q. eexists. split; [exact R1 | split; [ | exact F] ].
    rewrite Q, E, <- record_entries_quant_of.
    apply record_calls_entries, synced_quant_empty.
  - unfold all_e. rewrite bucket_values_perm. unfold errors_of.
    now rewrite map_map.
  - unfold all_r. rewrite bucket_values_perm. unfold r_errors_of.
    now rewrite map_map.
  - destruct (R [Inputs.entries_dyadic]) as (q & R1 & Q & F);
      [discriminate | ].
    exists q. eexists. split; [exact R1 | ]. split.
    + rewrite F. f_equal. f_equal; [f_equal | ].
      * unfold bucket_values, np_mean, np_sum. cbn. f_equal. lra.
      * unfold bucket_values, np_mean, np_sum. cbn. f_equal. lra.
    + rewrite Q. unfold bucket. cbn. unfold np_mean, np_sum. cbn.
      f_equal. lra.
Qed.

(** C9.  After the samples of a run have been recorded, batch after batch,
    the final block of a verbose pose run prints a text of three lines: the
    line of the sequence names, then one line per metric; the line of a
    metric gives the overall average in millimetres and then the mean of
    every sequence in millimetres, and the sequences come in the order in
    which their identifiers first appeared in the run.  (No sequence name
    holds a line feed, and the number format gives none.)  For two samples
    of sequence [seqA] with the errors 0.25 and 0.5 each, followed by one of
    [seqB] with the errors 1 and 2, the lines are
    [SeqNames; seqA;seqB;], [ MPJPE; Avg 500 mm; 250; 1000; ] and
    [ Recon Error; Avg 1000mm; 500; 2000; ], each number in the format of
    the code. *)
Theorem final_report_one_line_per_metric (fmt2 : float -> string)
    (bs : list (list entry)) (out : list out_line) :
  concat bs <> [] ->
  (forall x, no_line_feed (fmt2 x) = true) ->
  Forall (fun x => no_line_feed (seq_name (entry_name x)) = true) (concat bs) ->
  (exists q a r output_str,
     record_calls quant_empty bs = Ok q
     /\ final_block fmt2 true true false false q out
        = (Ok (RetPair a r),
           out ++ [OutText "*** Final Results ***"; OutBlank;
                   OutText output_str])
     /\ lines output_str = report_lines fmt2 (concat bs)
     /\ a = fmul (np_mean (bucket_values (errors_of (concat bs)))) (Fin 1000)
     /\ r = fmul (np_mean (bucket_values (r_errors_of (concat bs))))
              (Fin 1000))
  /\ (exists q output_str,
        record_calls quant_empty [Inputs.entries_dyadic] = Ok q
        /\ final_block fmt2 true true false false q out
           = (Ok (RetPair (Fin 500) (Fin 1000)),
              out ++ [OutText "*** Final Results ***"; OutBlank;
                      OutText output_str])
        /\ lines output_str
           = [ "SeqNames; seqA;seqB;";
               " MPJPE; Avg " ++ fmt2 (Fin 500) ++ " mm; "
               ++ fmt2 (Fin 250) ++ "; " ++ fmt2 (Fin 1000) ++ "; ";
               " Recon Error; Avg " ++ fmt2 (Fin 1000) ++ "mm; "
               ++ fmt2 (Fin 500) ++ "; " ++ fmt2 (Fin 2000) ++ "; " ]%string).
Proof.
  intros N Hf Hs.
  assert (R : forall l, l <> [] ->
            Forall (fun x => no_line_feed (seq_name (entry_name x)) = true) l ->
            final_block fmt2 true true false false (quant_of l) out
            = (Ok (RetPair
                     (fmul (np_mean (bucket_values (errors_of l))) (Fin 1000))
                     (fmul (np_mean (bucket_values (r_errors_of l)))
                        (Fin 1000))),
               out ++ [OutText "*** Final Results ***"; OutBlank;
                       OutText (report_text fmt2 l)])
            /\ lines (report_text fmt2 l) = report_lines fmt2 l).
  { intros l Nl Hl. split; [ | now apply lines_of_report].
    unfold final_block, when, bind, print, lift, ret.
    rewrite (final_report_of_stream fmt2 Nl). now rewrite <- !app_assoc. }
  split.
  - exists (record_entries quant_empty (concat bs)).
    do 3 eexists. split; [apply record_calls_entries, synced_quant_empty | ].
    rewrite record_entries_quant_of.
    destruct (R (concat bs) N Hs) as [F L].
    split; [exact F | ]. split; [exact L | now split].
  - exists (quant_of Inputs.entries_dyadic). eexists.
    split; [reflexivity | ].
    destruct (R Inputs.entries_dyadic) as [F L];
      [discriminate | repeat constructor | ].
    assert (K1 : first_appearance (map fst (errors_of Inputs.entries_dyadic))
                 = ["seqA"; "seqB"]%string) by reflexivity.
    assert (K2 : first_appearance (map fst (r_errors_of Inputs.entries_dyadic))
                 = ["seqA"; "seqB"]%string) by reflexivity.
    assert (A1 : fmul (Fin 1000) (np_mean [Fin (1 / 4); Fin (1 / 4)]) = Fin 250)
      by (unfold np_mean, np_sum; cbn; f_equal; lra).
    assert (B1 : fmul (Fin 1000) (np_mean [Fin 1]) = Fin 1000)
      by (unfold np_mean, np_sum; cbn; f_equal; lra).
    assert (A2 : fmul (Fin 1000) (np_mean [Fin (1 / 2); Fin (1 / 2)]) = Fin 500)
      by (unfold np_mean, np_sum; cbn; f_equal; lra).
    assert (B2 : fmul (Fin 1000) (np_mean [Fin 2]) = Fin 2000)
      by (unfold np_mean, np_sum; cbn; f_equal; lra).
    assert (T1 : fmul (np_mean [Fin (1 / 4); Fin (1 / 4); Fin 1]) (Fin 1000)
                 = Fin 500)
      by (unfold np_mean, np_sum; cbn; f_equal; lra).
    assert (T2 : fmul (np_mean [Fin (1 / 2); Fin (1 / 2); Fin 2]) (Fin 1000)
                 = Fin 1000)
      by (unfold np_mean, np_sum; cbn; f_equal; lra).
    assert (V1 : bucket_values (errors_of Inputs.entries_dyadic)
                 = [Fin (1 / 4); Fin (1 / 4); Fin 1]) by reflexivity.
    assert (V2 : bucket_values (r_errors_of Inputs.entries_dyadic)
                 = [Fin (1 / 2); Fin (1 / 2); Fin 2]) by reflexivity.
    split.
    + rewrite F, V1, V2, T1, T2. reflexivity.
    + rewrite L. unfold report_lines, names_line, metric_text.
      rewrite K1, K2, V1, V2, T1, T2.
      cbn [map concat_str].
      change (values_of "seqA" (errors_of Inputs.entries_dyadic))
        with [Fin (1 / 4); Fin (1 / 4)].
      change (values_of "seqB" (errors_of Inputs.entries_dyadic))
        with [Fin 1].
      change (values_of "seqA" (r_errors_of Inputs.entries_dyadic))
        with [Fin (1 / 2); Fin (1 / 2)].
      change (values_of "seqB" (r_errors_of Inputs.entries_dyadic))
        with [Fin 2].
      rewrite A1, B1, A2, B2.
      now rewrite !PosixPathFacts.append_assoc.
Qed.

(** C10, the failing case.  With the dataset ['lsp'], [run_evaluation] of
    [eval_export.py] raises [NameError] in the first turn of its loop,
    whatever the batches are: it does not return. *)
Theorem run_evaluation_lsp_raises
    (reconstruction_error1 : joints -> joints -> float)
    (fmt2 : float -> string) (b : batch) (rest : list batch)
    (batch_size : nat) (log_freq : Z) (bVerbose : bool)
    (out : list out_line) :
  EvalExport.run_evaluation reconstruction_error1 fmt2 "lsp" (b :: rest)
    batch_size log_freq bVerbose out
  = (Raise NameError, out).
Proof. reflexivity. Qed.

End ReportClaims.

(** ** The progress output *)

Module ProgressClaims.

Import Dict DictFacts Aggregator AggregatorSpec AggregatorFacts NpFloatFacts
  MeanFacts ReportFacts EvalCommon RunSpec RunFacts EvalExport
  EvalExportFacts MetricSpec MetricFacts Inputs.
Local Open Scope R_scope.

Lemma dist_5cm : dist (5 / 100, 0, 0) (0, 0, 0) = 5 / 100.
Proof.
  unfold dist.
  replace ((5 / 100 - 0) * (5 / 100 - 0) + (0 - 0) * (0 - 0) + (0 - 0) * (0 - 0))
    with ((5 / 100) * (5 / 100)) by lra.
  apply sqrt_square. lra.
Qed.

Lemma mpjpe_repeat (p g : point) (n : nat) :
  mpjpe (repeat p (S n)) (repeat g (S n)) = dist p g.
Proof.
  unfold mpjpe. rewrite repeat_length.
  assert (E : forall k, Rsum (map2 dist (repeat p k) (repeat g k))
                        = INR k * dist p g).
  { unfold map2. induction k as [ | k IH].
    - simpl. lra.
    - change (Rsum (map (fun ab => dist (fst ab) (snd ab))
                      (combine (repeat p (S k)) (repeat g (S k)))))
        with (dist p g + Rsum (map (fun ab => dist (fst ab) (snd ab))
                                 (combine (repeat p k) (repeat g k)))).
      rewrite IH, S_INR. lra. }
  rewrite E. field. apply not_0_INR. discriminate.
Qed.

(** The error of the samples of [Inputs]: five centimetres *)
Lemma mpjpe1_inputs : mpjpe1 pred_rows gt_rows = Fin (5 / 100).
Proof.
  change pred_rows with (map row_of (repeat (5 / 100, 0, 0) 14)).
  change gt_rows with (map row_of (repeat (0, 0, 0) 14)).
  unfold mpjpe1. rewrite sample_error by (simpl; lia).
  now rewrite mpjpe_repeat, dist_5cm.
Qed.

Lemma firstn_repeat_min {A : Type} (x : A) (k n : nat) :
  firstn k (repeat x n) = repeat x (Nat.min k n).
Proof.
  revert n. induction k as [ | k IH]; intros [ | n]; simpl; trivial.
  now rewrite IH.
Qed.

(** The value of the progress lines once a batch has been counted: zero *)
Lemma progress_value_zero (step batch_size n : nat) :
  (0 < step * batch_size)%nat -> (0 < n)%nat ->
  progress_value step batch_size n = Fin 0.
Proof.
  intros Hs Hn. unfold progress_value.
  destruct (step * batch_size)%nat as [ | k]; [lia | ].
  destruct n as [ | n]; [lia | ].
  assert (E : firstn (S k) (repeat (Fin 0) (S n))
              = repeat (Fin 0) (S (Nat.min k n))).
  { now rewrite firstn_repeat_min. }
  rewrite E, np_zeros_mean. simpl. f_equal. lra.
Qed.

(** The value of the progress lines of a first step or of an empty dataset *)
Lemma progress_value_nan (step batch_size n : nat) :
  (step * batch_size = 0)%nat \/ n = 0%nat ->
  progress_value step batch_size n = NaN.
Proof.
  unfold progress_value. intros [-> | ->]; trivial.
  now destruct (step * batch_size)%nat.
Qed.

(** C1, the failing case.  A verbose run on 3DPW with [log_freq=2] over two
    batches of one sample, each with an MPJPE of five centimetres: after the
    second batch the line of the batch shows a running mean of 50 mm, and
    the progress lines show 0 for both metrics. *)
Theorem progress_lines_show_zero_not_the_running_mean
    (reconstruction_error1 : joints -> joints -> float)
    (fmt2 : float -> string) :
  exists e1 r1 t1 tr1 e2 r2 tr2 rest,
    snd (run_evaluation reconstruction_error1 fmt2 "3dpw" loader2 1 2 true [])
    = [ OutBatch "downtown_walking_00" e1 r1 t1 tr1;
        OutBatch "downtown_walking_00" e2 r2 (Fin 50) tr2;
        OutProgress "MPJPE: " (Fin 0);
        OutProgress "Reconstruction Error: " (Fin 0);
        OutBlank ] ++ rest.
Proof.
  assert (Ep : eval_pose "3dpw" = true) by reflexivity.
  assert (Hf : true = true -> 2%Z <> 0%Z) by (intros _; discriminate).
  unfold run_evaluation, loader2. cbn [loop].
  set (b0 := Batch sample0 []). set (b1 := Batch sample1 []).
  set (n := len_dataset [b0; b1]).
  erewrite bind_ok.
  2: { erewrite bind_ok
         by (apply loop_body_pose; [exact Ep | apply synced_quant_empty | exact Hf]).
       erewrite bind_ok.
       2: { apply loop_body_pose; [exact Ep | | exact Hf].
            apply synced_record_entries, synced_quant_empty. }
       reflexivity. }
  set (q0 := record_entries quant_empty
               (entries_of_batch reconstruction_error1 b0)).
  set (q1 := record_entries q0 (entries_of_batch reconstruction_error1 b1)).
  assert (Q : q1 = quant_of (entries_of reconstruction_error1 [b0; b1])).
  { rewrite <- record_entries_quant_of. unfold q1, q0, entries_of.
    unfold record_entries. simpl concat. now rewrite <- fold_left_app. }
  assert (Ne : entries_of reconstruction_error1 [b0; b1] <> [])
    by discriminate.
  unfold final_block. rewrite Ep, Q.
  unfold when, bind, print, lift, ret.
  rewrite (final_report_of_stream fmt2 Ne).
  rewrite <- Q. cbn [snd]. cbn [app].
  unfold batch_line. cbn [batch_first batch_rest b0 b1 last].
  assert (T : fmul (np_mean (concat (values (quant_mpjpe q1)))) (Fin 1000)
              = Fin 50).
  { rewrite Q. unfold quant_of. cbn [quant_mpjpe]. rewrite values_buckets.
    assert (B : bucket_values
                  (errors_of (entries_of reconstruction_error1 [b0; b1]))
                = [mpjpe1 pred_rows gt_rows; mpjpe1 pred_rows gt_rows])
      by reflexivity.
    rewrite B, !mpjpe1_inputs.
    unfold np_mean, np_sum. simpl. f_equal. lra. }
  rewrite T.
  assert (P0 : progress_lines 0 1 2 n = []) by reflexivity.
  assert (P1 : progress_lines 1 1 2 n
               = [OutProgress "MPJPE: " (Fin 0);
                  OutProgress "Reconstruction Error: " (Fin 0); OutBlank]).
  { unfold progress_lines. change (progress_due 1 2) with true. cbv iota.
    assert (Hn : n = 2%nat) by reflexivity.
    rewrite Hn, progress_value_zero by (simpl; lia). reflexivity. }
  rewrite P0, P1.
  do 7 eexists. eexists. reflexivity.
Qed.

End ProgressClaims.

(** ** [run_evaluation] of [evalfrompkl.py]: the prediction files *)

Module EvalFromPklFacts.

Import Aggregator EvalCommon RunFacts EvalFromPkl.

Section Run.

Variable reconstruction_error1 : joints -> joints -> float.
Variable fmt2 : float -> string.
Variable pkl_files : string -> option joints.

(** The loop over the files of a batch reports every missing file and goes
    on; the flag is raised when a file is missing. *)
Lemma load_loop_spec (l : list sample) (missingPkl : bool) (preds : tensor3)
    (out : list out_line) :
  exists preds',
    load_loop pkl_files l missingPkl preds out
    = (Ok (missingPkl || existsb (is_missing pkl_files) l, preds'),
       out ++ missing_lines pkl_files l).
Proof.
  revert missingPkl preds out.
  induction l as [ | s l IH]; intros missingPkl preds out.
  - exists preds. simpl. unfold ret, missing_lines. simpl.
    now rewrite orb_false_r, app_nil_r.
  - assert (Ms : is_missing pkl_files s
                 = match pkl_files (pklfilepath (sample_index s) (imgname s))
                   with None => true | Some _ => false end) by reflexivity.
    assert (Ml : missing_lines pkl_files (s :: l)
                 = (if is_missing pkl_files s
                    then [OutMissing (pklfilepath (sample_index s) (imgname s))]
                    else []) ++ missing_lines pkl_files l).
    { unfold missing_lines. cbn [filter].
      now destruct (is_missing pkl_files s). }
    rewrite Ml. cbn [load_loop existsb]. rewrite Ms.
    destruct (pkl_files (pklfilepath (sample_index s) (imgname s))) as [d | ].
    + destruct (IH missingPkl (preds ++ [d]) out) as [preds' E].
      exists preds'. rewrite E. reflexivity.
    + destruct (IH true preds (out ++ [OutMissing
                 (pklfilepath (sample_index s) (imgname s))])) as [preds' E].
      exists preds'. unfold bind, print. rewrite E.
      rewrite orb_true_r. now rewrite <- app_assoc.
Qed.

(** A batch with a missing file fails the assertion. *)
Lemma load_batch_missing (b : batch) (out : list out_line) :
  existsb (is_missing pkl_files) (samples b) = true ->
  load_batch pkl_files b out
  = (Raise AssertionError, out ++ missing_lines pkl_files (samples b)).
Proof.
  intros H. unfold load_batch.
  destruct (load_loop_spec (samples b) false [] out) as [preds' E].
  unfold bind. rewrite E, H. reflexivity.
Qed.

Lemma loop_body_missing (dataset_name : string) (n batch_size : nat)
    (log_freq : Z) (bVerbose : bool) (step : nat) (b : batch) (q : quant)
    (out : list out_line) :
  existsb (is_missing pkl_files) (samples b) = true ->
  loop_body reconstruction_error1 pkl_files dataset_name n batch_size log_freq
    bVerbose step b q out
  = (Raise AssertionError, out ++ missing_lines pkl_files (samples b)).
Proof.
  intros H. unfold loop_body.
  apply bind_raise. now apply load_batch_missing.
Qed.

(** The loop does not come to its end when a batch has a missing file. *)
Lemma loop_missing (dataset_name : string) (n batch_size : nat)
    (log_freq : Z) (bVerbose : bool) (data_loader : list batch) (b : batch) :
  In b data_loader ->
  existsb (is_missing pkl_files) (samples b) = true ->
  forall (step : nat) (q : quant) (out : list out_line),
  exists e out',
    loop reconstruction_error1 pkl_files dataset_name n batch_size log_freq
      bVerbose step data_loader q out
    = (Raise e, out').
Proof.
  intros I H. induction data_loader as [ | b0 bs IH]; [destruct I | ].
  intros step q out. cbn [loop]. unfold bind.
  destruct (loop_body reconstruction_error1 pkl_files dataset_name n batch_size
              log_freq bVerbose step b0 q out) as [[q' | e] out'] eqn:E.
  - destruct I as [-> | I].
    + rewrite loop_body_missing in E by assumption. discriminate.
    + apply IH, I.
  - now exists e, out'.
Qed.

(** Without a missing file the loop reads the predictions of the files. *)
Lemma load_loop_present (l : list sample) (missingPkl : bool) (preds : tensor3)
    (out : list out_line) :
  existsb (is_missing pkl_files) l = false ->
  load_loop pkl_files l missingPkl preds out
  = (Ok (missingPkl, preds ++ map pred_joints (map (loaded pkl_files) l)), out).
Proof.
  revert preds. induction l as [ | s l IH]; intros preds; cbn [existsb].
  - intros _. simpl. unfold ret. now rewrite app_nil_r.
  - rewrite orb_false_iff. intros [Hs Hl]. cbn [load_loop map].
    unfold is_missing, sample_path in Hs. unfold loaded, sample_path.
    destruct (pkl_files (pklfilepath (sample_index s) (imgname s))) as [d | ];
      [ | discriminate].
    rewrite IH by assumption. cbn [pred_joints]. now rewrite <- app_assoc.
Qed.

Lemma load_batch_present (b : batch) (out : list out_line) :
  existsb (is_missing pkl_files) (samples b) = false ->
  load_batch pkl_files b out
  = (Ok (map pred_joints (samples (loaded_batch pkl_files b))), out).
Proof.
  intros H. unfold load_batch, bind.
  now rewrite (@load_loop_present (samples b) false [] out H).
Qed.

Lemma loaded_names (l : list sample) :
  map imgname (map (loaded pkl_files) l) = map imgname l
  /\ map gt_joints (map (loaded pkl_files) l) = map gt_joints l.
Proof.
  rewrite !map_map. split; apply map_ext; intros s; unfold loaded;
    now destruct (pkl_files (sample_path s)).
Qed.

(** One turn of the loop of a pose run whose files are all there *)
Lemma pkl_loop_body_pose (dataset_name : string) (n batch_size : nat)
    (log_freq : Z) (bVerbose : bool) (step : nat) (b : batch) (q : quant)
    (out : list out_line) :
  eval_pose dataset_name = true -> AggregatorSpec.synced q ->
  (bVerbose = true -> log_freq <> 0%Z) ->
  existsb (is_missing pkl_files) (samples b) = false ->
  let b' := loaded_batch pkl_files b in
  let q' := AggregatorSpec.record_entries q
              (RunSpec.entries_of_batch reconstruction_error1 b') in
  loop_body reconstruction_error1 pkl_files dataset_name n batch_size log_freq
    bVerbose step b q out
  = (Ok q',
     out ++ (if bVerbose
             then RunSpec.batch_line reconstruction_error1 b' q'
                  :: RunSpec.progress_lines step batch_size log_freq n
             else [])).
Proof.
  intros Ep Sy Hf Hp b' q'. unfold loop_body, eval_parts, eval_masks.
  rewrite Ep. cbn [negb andb].
  erewrite bind_ok by (apply load_batch_present; exact Hp).
  destruct (loaded_names (samples b)) as [En Eg].
  assert (Sb : samples (loaded_batch pkl_files b)
               = map (loaded pkl_files) (samples b)) by reflexivity.
  rewrite <- En, <- Eg, <- Sb. fold b'.
  erewrite bind_ok by (apply pose_block_ok; exact Sy).
  unfold masks_block, parts_block, when.
  unfold bind at 1. unfold ret at 1.
  unfold bind at 1. unfold ret at 1.
  erewrite bind_ok by (apply progress_block_pose; exact Hf).
  unfold ret. fold q'. f_equal.
  rewrite <- app_assoc. now destruct bVerbose.
Qed.

(** With the dataset ['lsp'] and the files of the first batch there, the run
    fails on the name [mask], as the run of [eval_export.py] does. *)
Lemma pkl_run_evaluation_lsp_raises (b : batch) (rest : list batch)
    (batch_size : nat) (log_freq : Z) (bVerbose : bool)
    (out : list out_line) :
  existsb (is_missing pkl_files) (samples b) = false ->
  run_evaluation reconstruction_error1 fmt2 pkl_files "lsp" (b :: rest)
    batch_size log_freq bVerbose out
  = (Raise NameError, out).
Proof.
  intros Hp. unfold run_evaluation. cbn [loop].
  apply bind_raise. apply bind_raise. unfold loop_body.
  erewrite bind_ok by (apply load_batch_present; exact Hp).
  reflexivity.
Qed.

(** A pose run whose files are all there records the samples with the
    predictions of the files and returns the two overall means. *)
Lemma pkl_run_evaluation_pose (dataset_name : string) (data_loader : list batch)
    (batch_size : nat) (log_freq : Z) (bVerbose : bool)
    (out : list out_line) :
  eval_pose dataset_name = true -> data_loader <> [] ->
  (bVerbose = true -> log_freq <> 0%Z) ->
  forallb (fun b => negb (existsb (is_missing pkl_files) (samples b)))
    data_loader = true ->
  let es := RunSpec.entries_of reconstruction_error1
              (map (loaded_batch pkl_files) data_loader) in
  let a := fmul (np_mean (AggregatorSpec.bucket_values
                            (AggregatorSpec.errors_of es))) (Fin 1000) in
  let r := fmul (np_mean (AggregatorSpec.bucket_values
                            (AggregatorSpec.r_errors_of es))) (Fin 1000) in
  exists lines,
    run_evaluation reconstruction_error1 fmt2 pkl_files dataset_name
      data_loader batch_size log_freq bVerbose out
    = (Ok (RetPair a r),
       out ++ lines
       ++ (if bVerbose
           then [OutText "*** Final Results ***"; OutBlank;
                 OutText (AggregatorSpec.report_text fmt2 es)]
           else [OutSummary a r])).
Proof.
  intros Ep Nl Hf Hp es a r. unfold run_evaluation.
  assert (L : forall bs step q out0,
             AggregatorSpec.synced q ->
             forallb (fun b => negb (existsb (is_missing pkl_files) (samples b)))
               bs = true ->
             exists lines,
               loop reconstruction_error1 pkl_files dataset_name
                 (len_dataset data_loader) batch_size log_freq bVerbose
                 step bs q out0
               = (Ok (AggregatorSpec.record_entries q
                        (RunSpec.entries_of reconstruction_error1
                           (map (loaded_batch pkl_files) bs))),
                  out0 ++ lines)).
  { induction bs as [ | b bs IH]; intros step q out0 Sy Hb.
    - exists []. simpl. unfold ret. now rewrite app_nil_r.
    - cbn [forallb] in Hb. apply andb_true_iff in Hb. destruct Hb as [H1 H2].
      apply negb_true_iff in H1. cbn [loop].
      erewrite bind_ok by (apply pkl_loop_body_pose; assumption).
      edestruct (IH (S step)) as [lines E];
        [ | exact H2 | rewrite E; eexists; rewrite <- app_assoc; f_equal ].
      + now apply AggregatorFacts.synced_record_entries.
      + f_equal. unfold RunSpec.entries_of, AggregatorSpec.record_entries.
        simpl. now rewrite fold_left_app. }
  destruct (L data_loader 0 quant_empty out AggregatorFacts.synced_quant_empty Hp)
    as [lines E].
  exists lines. erewrite bind_ok by exact E.
  rewrite AggregatorFacts.record_entries_quant_of. fold es.
  unfold final_block. rewrite Ep.
  assert (Ne : es <> [])
    by (unfold es; destruct data_loader; [congruence | discriminate]).
  assert (F := ReportFacts.final_report_of_stream fmt2 Ne).
  destruct bVerbose; unfold when, bind, print, lift, ret; rewrite F;
    fold a; fold r; f_equal; now rewrite <- !app_assoc.
Qed.

End Run.

End EvalFromPklFacts.

(** ** The prediction files: claims *)

Module MissingFileClaims.

Import Aggregator EvalCommon RunFacts EvalFromPkl EvalFromPklFacts Inputs.

(** C2, as the code has it.  When the prediction file of a sample of a batch
    is not found, the turn of the loop for that batch prints a line for every
    missing file of the batch and then fails its assertion, before any sample
    of the batch is recorded; the run stops with an exception and returns
    nothing: no mean is diluted, and nothing is counted or reported. *)
Theorem missing_prediction_file_stops_the_run
    (reconstruction_error1 : joints -> joints -> float)
    (fmt2 : float -> string) (pkl_files : string -> option joints)
    (dataset_name : string) (data_loader : list batch) (batch_size : nat)
    (log_freq : Z) (bVerbose : bool) (b : batch) :
  In b data_loader ->
  existsb (is_missing pkl_files) (samples b) = true ->
  (forall step q out,
     loop_body reconstruction_error1 pkl_files dataset_name
       (len_dataset data_loader) batch_size log_freq bVerbose step b q out
     = (Raise AssertionError, out ++ missing_lines pkl_files (samples b)))
  /\ (forall out,
        exists e out',
          run_evaluation reconstruction_error1 fmt2 pkl_files dataset_name
            data_loader batch_size log_freq bVerbose out
          = (Raise e, out')).
Proof.
  intros I H. split.
  - intros step q out. now apply loop_body_missing.
  - intros out. unfold run_evaluation.
    destruct (@loop_missing reconstruction_error1 pkl_files dataset_name
                (len_dataset data_loader) batch_size log_freq bVerbose
                data_loader b I H 0 quant_empty out) as (e & out' & E).
    exists e, out'. now apply bind_raise.
Qed.

(** C2 fails as it is stated: with no prediction file on the disk, a run over
    one sample of 3DPW ends in the first turn of its loop with an assertion
    error, after the line for the missing file; it reports no count. *)
Lemma missing_prediction_file_run_is_terminated :
  run_evaluation recon_zero fmt_any no_files "3dpw" [Batch sample0 []]
    1 50 true []
  = (Raise AssertionError,
     [OutMissing
        "/private/home/hjoo/spinOut/11-12_3dpw_test_smplify_abl_3dpwTest_from8377_noAnglePrior/downtown_walking_00_image_00000_0.pkl"]).
Proof. reflexivity. Qed.

End MissingFileClaims.

(** ** Alignment and the mean distance *)

Module ProcrustesFacts.

Import MetricSpec Procrustes MetricFacts.
Local Open Scope R_scope.

Lemma identity_is_similarity : is_similarity identity.
Proof.
  unfold is_similarity, is_rotation, orthonormal, det, identity; cbn.
  repeat split; lra.
Qed.

Lemma apply_identity (p : point) : apply identity p = p.
Proof.
  destruct p as [[x y] z]. unfold apply, identity, mat_vec; cbn.
  f_equal; [f_equal | ]; ring.
Qed.

Lemma map_apply_identity (P : list point) : map (apply identity) P = P.
Proof.
  induction P as [ | p P IH]; simpl; trivial.
  now rewrite apply_identity, IH.
Qed.

(** The best fit is at least as good as no transform at all. *)
Lemma best_fit_sse_le (t : similarity) (P G : list point) :
  best_fit t P G -> sse (map (apply t) P) G <= sse P G.
Proof.
  intros [_ B]. rewrite <- (map_apply_identity P) at 2.
  apply B, identity_is_similarity.
Qed.

Lemma sq_dist_dist (p g : point) : dist p g * dist p g = sq_dist p g.
Proof.
  destruct p as [[px py] pz], g as [[gx gy] gz]. unfold dist, sq_dist.
  apply sqrt_sqrt.
  pose proof (Rle_0_sqr (px - gx)) as Hx.
  pose proof (Rle_0_sqr (py - gy)) as Hy.
  pose proof (Rle_0_sqr (pz - gz)) as Hz.
  unfold Rsqr in Hx, Hy, Hz. lra.
Qed.

Lemma sum_cross (x : R) (l : list R) :
  2 * x * Rsum l <= INR (length l) * (x * x) + Rsum (map (fun d => d * d) l).
Proof.
  induction l as [ | d l IH].
  - simpl. lra.
  - cbn [Rsum map]. rewrite length_cons, S_INR.
    pose proof (Rle_0_sqr (x - d)) as H. unfold Rsqr in H. lra.
Qed.

(** The square of a sum is at most the count times the sum of the squares. *)
Lemma sum_sqr_le (l : list R) :
  Rsum l * Rsum l <= INR (length l) * Rsum (map (fun d => d * d) l).
Proof.
  induction l as [ | d l IH].
  - simpl. lra.
  - cbn [Rsum map]. rewrite length_cons, S_INR.
    pose proof (sum_cross d l) as H. lra.
Qed.

Lemma sse_as_squares (P G : list point) :
  sse P G = Rsum (map (fun d => d * d) (map2 dist P G)).
Proof.
  unfold sse, map2. revert G.
  induction P as [ | p P IH]; intros [ | g G]; simpl; trivial.
  now rewrite IH, sq_dist_dist.
Qed.

(** The mean distance is at most the root of the mean squared distance. *)
Lemma mpjpe_le_rms (P G : list point) :
  length P = length G -> (0 < length P)%nat ->
  mpjpe P G <= sqrt (sse P G / INR (length P)).
Proof.
  intros E J. unfold mpjpe. rewrite sse_as_squares.
  set (l := map2 dist P G).
  assert (L : length l = length P) by (unfold l; now apply length_map2).
  pose proof (sum_sqr_le l) as H. rewrite L in H.
  set (n := INR (length P)) in *.
  assert (Hn : 0 < n) by (unfold n; now apply lt_0_INR).
  set (S := Rsum l) in *. set (Q := Rsum (map (fun d => d * d) l)) in *.
  apply Rle_trans with (sqrt ((S / n) * (S / n))).
  - destruct (Rle_dec 0 (S / n)) as [Hp | Hp].
    + rewrite sqrt_square by assumption. lra.
    + apply Rle_trans with 0; [lra | apply sqrt_pos].
  - apply sqrt_le_1_alt.
    apply Rmult_le_reg_r with (n * n); [nra | ].
    replace (S / n * (S / n) * (n * n)) with (S * S) by (field; lra).
    replace (Q / n * (n * n)) with (n * Q) by (field; lra).
    exact H.
Qed.

End ProcrustesFacts.

(** ** The sample of fourteen joints *)

Module Align14.

Import MetricSpec Procrustes MetricFacts ProcrustesFacts.
Local Open Scope R_scope.

Lemma sse_align14 :
  sse (map (apply align14) pred14) gt14 = 46 - 46 * (644 / 657).
Proof.
  unfold sse, pred14, gt14, align14, apply, mat_vec, map2, sq_dist; cbn.
  field.
Qed.

(** The sum of the squared distances after any transform of [pred14] *)
Lemma sse_any (t : similarity) :
  let m := rotation t in
  let s := scale t in
  let '(tx, ty, tz) := translation t in
  sse (map (apply t) pred14) gt14
  = s * s * (25 * (r11 m * r11 m + r21 m * r21 m + r31 m * r31 m)
             + 12 * (r12 m * r12 m + r22 m * r22 m + r32 m * r32 m)
             + 10 * (r13 m * r13 m + r23 m * r23 m + r33 m * r33 m))
    + 14 * (tx * tx + ty * ty + tz * tz) + 46
    + 2 * s * (tx * r11 m + ty * r21 m + tz * r31 m)
    - 2 * s * (24 * r11 m + 12 * r22 m + 10 * r33 m).
Proof.
  destruct t as [m s [[tx ty] tz]]; cbn [rotation scale translation].
  unfold sse, pred14, gt14, apply, mat_vec, map2, sq_dist; cbn.
  ring.
Qed.

Lemma unit_column_entry (a b c : R) : a * a + b * b + c * c = 1 -> a <= 1.
Proof. intros H. nra. Qed.

(** The least value of that sum over the scales, the translations and the
    diagonals of the rotations *)
Lemma least_squares_bound (s tx ty tz a b c d2 d3 : R) :
  a * a + b * b + c * c = 1 -> 0 <= s -> a <= 1 -> d2 <= 1 -> d3 <= 1 ->
  46 - 46 * (644 / 657)
  <= s * s * (25 * 1 + 12 * 1 + 10 * 1)
     + 14 * (tx * tx + ty * ty + tz * tz) + 46
     + 2 * s * (tx * a + ty * b + tz * c)
     - 2 * s * (24 * a + 12 * d2 + 10 * d3).
Proof.
  intros C Hs Ha H2 H3.
  assert (E : s * s * (25 * 1 + 12 * 1 + 10 * 1)
              + 14 * (tx * tx + ty * ty + tz * tz) + 46
              + 2 * s * (tx * a + ty * b + tz * c)
              - 2 * s * (24 * a + 12 * d2 + 10 * d3)
              = (46 - 46 * (644 / 657))
                + 14 * (Rsqr (tx + s / 14 * a) + Rsqr (ty + s / 14 * b)
                        + Rsqr (tz + s / 14 * c))
                + 657 / 14 * Rsqr (s - 644 / 657)
                + 2 * (s * (24 * (1 - a) + 12 * (1 - d2) + 10 * (1 - d3)))
                + s * s / 14 * (1 - (a * a + b * b + c * c))).
  { unfold Rsqr. field. }
  rewrite E, C.
  pose proof (Rle_0_sqr (tx + s / 14 * a)).
  pose proof (Rle_0_sqr (ty + s / 14 * b)).
  pose proof (Rle_0_sqr (tz + s / 14 * c)).
  pose proof (Rle_0_sqr (s - 644 / 657)).
  assert (0 <= s * (24 * (1 - a) + 12 * (1 - d2) + 10 * (1 - d3)))
    by (apply Rmult_le_pos; lra).
  lra.
Qed.

(** [align14] is the best fit of [pred14] to [gt14]. *)
Lemma align14_best : best_fit align14 pred14 gt14.
Proof.
  split.
  - unfold is_similarity, is_rotation, orthonormal, det, align14; cbn.
    repeat split; lra.
  - intros t [[Ho _] Hs].
    rewrite sse_align14.
    pose proof (sse_any t) as E. cbv zeta in E.
    destruct t as [m s [[tx ty] tz]]; cbn [rotation scale translation] in *.
    rewrite E. clear E.
    destruct Ho as (C1 & C2 & C3 & _).
    rewrite C1, C2, C3.
    apply least_squares_bound; trivial.
    + apply (@unit_column_entry _ _ _ C1).
    + apply (@unit_column_entry (r22 m) (r12 m) (r32 m)). rewrite <- C2. ring.
    + apply (@unit_column_entry (r33 m) (r13 m) (r23 m)). rewrite <- C3. ring.
Qed.

Lemma sqrt_ge_first (a b c : R) : a <= sqrt (a * a + b * b + c * c).
Proof.
  destruct (Rle_dec 0 a) as [Ha | Ha].
  - rewrite <- (sqrt_square a) at 1 by assumption.
    apply sqrt_le_1_alt. nra.
  - apply Rle_trans with 0; [lra | apply sqrt_pos].
Qed.

Lemma sqrt_ge_neg_first (a b c : R) : - a <= sqrt (a * a + b * b + c * c).
Proof.
  replace (a * a) with (- a * - a) by ring. apply sqrt_ge_first.
Qed.

(** Before the alignment only one joint of fourteen is off, by one unit. *)
Lemma mpjpe_pred14 : mpjpe pred14 gt14 = 1 / 14.
Proof.
  unfold mpjpe, pred14, gt14, map2, dist; cbn.
  repeat match goal with
  | |- context [sqrt ?x] =>
      let H := fresh in
      (assert (H : x = 0) by ring); rewrite H; clear H
  | |- context [sqrt ?x] =>
      let H := fresh in
      (assert (H : x = 1 * 1) by ring); rewrite H; clear H
  end.
  rewrite sqrt_0, sqrt_square by lra. field.
Qed.

(** After the alignment every joint is off. *)
Lemma mpjpe_align14 : 1 / 14 < mpjpe (map (apply align14) pred14) gt14.
Proof.
  unfold mpjpe, pred14, gt14, align14, apply, mat_vec, map2, dist; cbn.
  repeat match goal with
  | |- context [sqrt (?a * ?a + ?b * ?b + ?c * ?c)] =>
      pose proof (sqrt_ge_first a b c);
      pose proof (sqrt_ge_neg_first a b c);
      generalize dependent (sqrt (a * a + b * b + c * c)); intros
  end.
  lra.
Qed.

End Align14.

(** ** Reconstruction error and MPJPE: claims *)

Module ProcrustesClaims.

Import MetricSpec Procrustes MetricFacts ProcrustesFacts Align14.
Local Open Scope R_scope.

(** C6 fails as it is stated: for the prediction [pred14] and the ground
    truth [gt14], which are not degenerate, the reconstruction error is
    larger than the MPJPE. *)
Lemma reconstruction_error_above_mpjpe :
  exists e, reconstruction_error_of pred14 gt14 e /\ mpjpe pred14 gt14 < e.
Proof.
  exists (mpjpe (map (apply align14) pred14) gt14). split.
  - exists align14. split; [apply align14_best | reflexivity].
  - rewrite mpjpe_pred14. apply mpjpe_align14.
Qed.

(** C6, amended.  The best-fit alignment does not raise the sum over the
    joints of the squared distances, and the reconstruction error is at most
    the root of the mean squared distance of the joints before the
    alignment. *)
Theorem reconstruction_error_le_rms_distance (P G : list point) (e : R) :
  length P = length G -> (0 < length P)%nat ->
  reconstruction_error_of P G e ->
  e <= sqrt (sse P G / INR (length P))
  /\ forall t, best_fit t P G -> sse (map (apply t) P) G <= sse P G.
Proof.
  intros E J [t [B ->]]. split; [ | intros t'; apply best_fit_sse_le].
  apply Rle_trans
    with (sqrt (sse (map (apply t) P) G / INR (length (map (apply t) P)))).
  - apply mpjpe_le_rms; rewrite length_map; assumption.
  - rewrite length_map. apply sqrt_le_1_alt.
    apply Rmult_le_compat_r.
    + apply Rlt_le, Rinv_0_lt_compat. now apply lt_0_INR.
    + now apply best_fit_sse_le.
Qed.

End ProcrustesClaims.

(** ** The statements at the inputs of [Inputs] *)

Module Instances.

Import Dict Aggregator AggregatorSpec AggregatorFacts EvalCommon RunSpec
  MetricSpec Procrustes Inputs.

(** C3 fails as it is stated: the [nan] of a degenerate sample goes into the
    bucket of its sequence, and the running mean of the reconstruction error
    is [nan]. *)
Lemma nan_is_recorded_and_averaged_in :
  exists q,
    record_call quant_empty [entry_nan] = Ok q
    /\ bucket "seqA" (quant_recon_err q) = [NaN]
    /\ overall_mean (quant_recon_err q) = Ok NaN.
Proof. eexists. repeat split; reflexivity. Qed.

Lemma every_value_is_recorded_and_averaged_at_nan :
  exists q',
    record_call quant_empty [entry_nan] = Ok q' /\
    In (entry_error entry_nan)
       (bucket (seq_name (entry_name entry_nan)) (quant_mpjpe q')) /\
    In (entry_r_error entry_nan)
       (bucket (seq_name (entry_name entry_nan)) (quant_recon_err q')) /\
    (exists m, overall_mean (quant_mpjpe q') = Ok m /\
       (isfinite (entry_error entry_nan) = false -> isfinite m = false)) /\
    (exists m, overall_mean (quant_recon_err q') = Ok m /\
       (isfinite (entry_r_error entry_nan) = false -> isfinite m = false)).
Proof.
  apply (@AggregatorClaims.every_value_is_recorded_and_averaged
           quant_empty [entry_nan] entry_nan).
  - reflexivity.
  - left. reflexivity.
Defined.


Lemma errors_recorded_under_parent_directory_name_at_names2 :
  (exists q',
     record_batch quant_empty names2 error2 r_error2 = Ok q' /\
     forall ii p e r,
       nth_error names2 ii = Some p ->
       nth_error error2 ii = Some e ->
       nth_error r_error2 ii = Some r ->
       In (PathSpec.parent_directory_name p) (keys (quant_mpjpe q'))
       /\ In e (bucket (PathSpec.parent_directory_name p) (quant_mpjpe q'))
       /\ In r (bucket (PathSpec.parent_directory_name p)
                  (quant_recon_err q')))
  /\ (forall d seq file,
        seq <> ""%string -> PosixPath.no_sep seq = true ->
        PosixPath.no_sep file = true ->
        PathSpec.parent_directory_name
          (d ++ "/" ++ seq ++ "/" ++ file)%string = seq).
Proof.
  apply (@AggregatorClaims.errors_recorded_under_parent_directory_name
           quant_empty names2 error2 r_error2); reflexivity.
Defined.

Lemma overall_mean_over_all_samples_at_entries3 :
  (exists q output_str,
     record_calls quant_empty [entries3] = Ok q
     /\ record_calls quant_empty entries3_batches = Ok q
     /\ final_report fmt_any q
        = Ok (output_str,
              fmul (np_mean (bucket_values (errors_of (concat [entries3]))))
                (Fin 1000),
              fmul (np_mean (bucket_values (r_errors_of (concat [entries3]))))
                (Fin 1000)))
  /\ Permutation (bucket_values (errors_of (concat [entries3])))
       (map entry_error (concat [entries3]))
  /\ Permutation (bucket_values (r_errors_of (concat [entries3])))
       (map entry_r_error (concat [entries3]))
  /\ (exists q output_str,
        record_calls quant_empty [entries_dyadic] = Ok q
        /\ final_report fmt_any q = Ok (output_str, Fin 500, Fin 1000)
        /\ np_mean [np_mean (bucket "seqA" (quant_mpjpe q));
                    np_mean (bucket "seqB" (quant_mpjpe q))]
           = Fin (5 / 8)).
Proof.
  apply (@ReportClaims.overall_mean_over_all_samples_any_batching
           fmt_any [entries3] entries3_batches).
  - reflexivity.
  - discriminate.
Defined.

Lemma final_report_one_line_per_metric_at_entries3 :
  (exists q a r output_str,
     record_calls quant_empty entries3_batches = Ok q
     /\ final_block fmt_any true true false false q []
        = (Ok (RetPair a r),
           [] ++ [OutText "*** Final Results ***"; OutBlank;
                  OutText output_str])
     /\ lines output_str = report_lines fmt_any (concat entries3_batches)
     /\ a = fmul (np_mean (bucket_values
                             (errors_of (concat entries3_batches))))
              (Fin 1000)
     /\ r = fmul (np_mean (bucket_values
                             (r_errors_of (concat entries3_batches))))
              (Fin 1000))
  /\ (exists q output_str,
        record_calls quant_empty [entries_dyadic] = Ok q
        /\ final_block fmt_any true true false false q []
           = (Ok (RetPair (Fin 500) (Fin 1000)),
              [] ++ [OutText "*** Final Results ***"; OutBlank;
                     OutText output_str])
        /\ lines output_str
           = [ "SeqNames; seqA;seqB;";
               " MPJPE; Avg " ++ fmt_any (Fin 500) ++ " mm; "
               ++ fmt_any (Fin 250) ++ "; " ++ fmt_any (Fin 1000) ++ "; ";
               " Recon Error; Avg " ++ fmt_any (Fin 1000) ++ "mm; "
               ++ fmt_any (Fin 500) ++ "; " ++ fmt_any (Fin 2000) ++ "; "
             ]%string).
Proof.
  apply (@ReportClaims.final_report_one_line_per_metric
           fmt_any entries3_batches []).
  - discriminate.
  - reflexivity.
  - repeat constructor.
Defined.


(** In binary32 arithmetic an offset of 2 ** 70 gives an infinite error, an
    offset of 2 ** -100 the error 0, and a prediction that is the ground
    truth the error 0. *)
Lemma mpjpe_error_binary32_overflow_underflow :
  TensorArith.mpjpe_error_over TensorArith.binary32 [b32_far] [b32_origin]
  = [SpecFloat.S754_infinity false]
  /\ TensorArith.mpjpe_error_over TensorArith.binary32 [b32_near] [b32_origin]
     = [SpecFloat.S754_zero false]
  /\ TensorArith.mpjpe_error_over TensorArith.binary32 [b32_pred2] [b32_pred2]
     = [SpecFloat.S754_zero false].
Proof. repeat split; vm_compute; reflexivity. Qed.

Lemma missing_prediction_file_stops_the_run_at_sample0 :
  (forall step q out,
     EvalFromPkl.loop_body recon_zero no_files "3dpw"
       (len_dataset [Batch sample0 []]) 1 50 true step (Batch sample0 []) q out
     = (Raise AssertionError,
        out ++ EvalFromPkl.missing_lines no_files (samples (Batch sample0 []))))
  /\ (forall out,
        exists e out',
          EvalFromPkl.run_evaluation recon_zero fmt_any no_files "3dpw"
            [Batch sample0 []] 1 50 true out
          = (Raise e, out')).
Proof.
  apply (@MissingFileClaims.missing_prediction_file_stops_the_run
           recon_zero fmt_any no_files "3dpw" [Batch sample0 []] 1 50 true
           (Batch sample0 [])).
  - left. reflexivity.
  - reflexivity.
Defined.

Lemma reconstruction_error_le_rms_distance_at_pred14 :
  (mpjpe (map (apply align14) pred14) gt14
   <= sqrt (sse pred14 gt14 / INR (length pred14)))%R
  /\ forall t, best_fit t pred14 gt14 ->
       (sse (map (apply t) pred14) gt14 <= sse pred14 gt14)%R.
Proof.
  apply (@ProcrustesClaims.reconstruction_error_le_rms_distance
           pred14 gt14 (mpjpe (map (apply align14) pred14) gt14)).
  - reflexivity.
  - simpl. lia.
  - exists align14. split; [apply Align14.align14_best | reflexivity].
Defined.

End Instances.

(** * Further properties *)

(** ** The error of a batch *)

Module MetricExtras.

Import MetricSpec MetricProps NpFloatFacts MetricFacts RunSpec.
Local Open Scope R_scope.

Lemma map2_swap {A B C : Type} (f : A -> B -> C) (g : B -> A -> C)
    (l1 : list A) (l2 : list B) :
  (forall x y, f x y = g y x) -> map2 f l1 l2 = map2 g l2 l1.
Proof.
  intros H. unfold map2. revert l2.
  induction l1 as [ | x l1 IH]; intros [ | y l2]; simpl; trivial.
  now rewrite H, IH.
Qed.

(** The error of a batch, sample by sample *)
Lemma mpjpe_error_map2 (P G : tensor3) :
  mpjpe_error P G = map2 mpjpe1 P G.
Proof.
  unfold mpjpe_error, tmean_last, tsqrt, tsum_last, tpow2, tsub, mpjpe1.
  now rewrite !map_map2.
Qed.

Lemma fpow2_fsub_sym (x y : float) : fpow2 (fsub x y) = fpow2 (fsub y x).
Proof.
  destruct x as [x | s | ], y as [y | t | ]; unfold fpow2, fsub; simpl; trivial.
  - f_equal. ring.
  - now destruct t.
  - now destruct s.
  - destruct s, t; reflexivity.
Qed.

Lemma mpjpe1_sym (p g : joints) : mpjpe1 p g = mpjpe1 g p.
Proof.
  unfold mpjpe1. f_equal. rewrite !map_map2. apply map2_swap.
  intros a b. do 2 f_equal. rewrite !map_map2. apply map2_swap.
  apply fpow2_fsub_sym.
Qed.

(** X1.  The error is symmetric in the prediction and the ground truth, for
    all tensors, whatever their values and shapes. *)
Theorem mpjpe_error_symmetric (P G : tensor3) :
  mpjpe_error P G = mpjpe_error G P.
Proof.
  rewrite !mpjpe_error_map2. apply map2_swap. apply mpjpe1_sym.
Qed.

Lemma not_negative_fadd (a b : float) :
  not_negative a -> not_negative b -> not_negative (fadd a b).
Proof.
  destruct a as [x | s | ], b as [y | t | ]; simpl; trivial.
  - lra.
  - intros -> ->. reflexivity.
Qed.

Lemma not_negative_np_sum (l : list float) :
  Forall not_negative l -> not_negative (np_sum l).
Proof.
  induction 1 as [ | x l Hx _ IH].
  - simpl. lra.
  - rewrite np_sum_cons. now apply not_negative_fadd.
Qed.

Lemma not_negative_np_mean (l : list float) :
  Forall not_negative l -> not_negative (np_mean l).
Proof.
  intros H. destruct l as [ | x l]; [exact I | ].
  unfold np_mean. pose proof (not_negative_np_sum H) as N.
  destruct (np_sum (x :: l)) as [y | s | ]; trivial.
  cbn [fdiv_count not_negative] in *.
  apply Rmult_le_pos; trivial.
  apply Rlt_le, Rinv_0_lt_compat, lt_0_INR. rewrite length_cons. lia.
Qed.

Lemma not_negative_fsqrt (a : float) : not_negative (fsqrt a).
Proof.
  destruct a as [x | [ | ] | ]; simpl; trivial.
  destruct (Rlt_dec x 0); simpl; trivial. apply sqrt_pos.
Qed.

(** X2.  The error of a sample is never negative: it is a real that is not
    negative, the positive infinity or [nan], for all tensors. *)
Theorem mpjpe_error_never_negative (P G : tensor3) :
  Forall not_negative (mpjpe_error P G).
Proof.
  unfold mpjpe_error, tmean_last, tsqrt.
  apply Forall_map, Forall_map, Forall_forall. intros row _.
  apply not_negative_np_mean. apply Forall_map, Forall_forall.
  intros a _. apply not_negative_fsqrt.
Qed.

Lemma combine_appended {A B : Type} (l1 l2 : list A) (k1 k2 : list B) :
  length l1 = length k1 ->
  combine (l1 ++ l2) (k1 ++ k2) = combine l1 k1 ++ combine l2 k2.
Proof.
  revert k1. induction l1 as [ | x l1 IH]; intros [ | y k1]; simpl;
    try discriminate; trivial.
  intros E. f_equal. apply IH. now injection E.
Qed.

(** X5.  The error of a sample does not depend on the batch it is in: the
    error of two batches put one after the other is the errors of the first
    followed by the errors of the second. *)
Theorem mpjpe_error_of_appended_batches (P1 P2 G1 G2 : tensor3) :
  length P1 = length G1 ->
  mpjpe_error (P1 ++ P2) (G1 ++ G2) = mpjpe_error P1 G1 ++ mpjpe_error P2 G2.
Proof.
  intros E. rewrite !mpjpe_error_map2. unfold map2.
  now rewrite combine_appended, map_app.
Qed.

Lemma isfinite_fsub (x y : float) :
  isfinite (fsub x y) = isfinite x && isfinite y.
Proof.
  unfold fsub. rewrite isfinite_fadd. now destruct y.
Qed.

Lemma isfinite_fpow2 (x : float) : isfinite (fpow2 x) = isfinite x.
Proof. now destruct x. Qed.

Lemma isfinite_fsqrt (x : float) : isfinite (fsqrt x) = true -> isfinite x = true.
Proof. now destruct x as [x | [ | ] | ]. Qed.

Lemma row_finite (a b : list float) :
  length a = length b ->
  isfinite (fsqrt (np_sum (map fpow2 (map2 fsub a b)))) = true ->
  forallb isfinite a = true /\ forallb isfinite b = true.
Proof.
  intros E H. apply isfinite_fsqrt in H. rewrite isfinite_np_sum in H.
  revert b E H. unfold map2.
  induction a as [ | x a IH]; intros [ | y b] E; try discriminate; simpl.
  - now split.
  - rewrite isfinite_fpow2, isfinite_fsub, !andb_true_iff.
    intros [[Hx Hy] H]. injection E as E.
    destruct (IH b E H) as [Ha Hb]. now rewrite Hx, Hy, Ha, Hb.
Qed.

Lemma sample_finite (p g : joints) :
  same_shape p g -> isfinite (mpjpe1 p g) = true ->
  coordinates_finite p = true /\ coordinates_finite g = true.
Proof.
  intros S. unfold mpjpe1. rewrite !map_map2. unfold coordinates_finite.
  induction S as [ | a b p g E S IH].
  - discriminate.
  - intros H.
    rewrite isfinite_np_mean in H by discriminate.
    change (map2 (fun x y => fsqrt (np_sum (map fpow2 (map2 fsub x y))))
              (a :: p) (b :: g))
      with (fsqrt (np_sum (map fpow2 (map2 fsub a b)))
            :: map2 (fun x y => fsqrt (np_sum (map fpow2 (map2 fsub x y))))
                 p g) in H.
    cbn [forallb] in H. apply andb_true_iff in H. destruct H as [Hr H].
    destruct (row_finite a b E Hr) as [Ha Hb].
    cbn [forallb]. rewrite Ha, Hb. cbn [andb].
    destruct p as [ | a' p].
    + inversion S. now split.
    + apply IH. rewrite isfinite_np_mean; [exact H | ].
      inversion S. discriminate.
Qed.

(** X6.  The error of a sample is finite only if all the coordinates of its
    predicted and of its true joints are: a coordinate that is [nan] or
    infinite makes the error of its sample [nan] or infinite. *)
Theorem mpjpe_error_finite_only_for_finite_joints (P G : tensor3) :
  Forall2 same_shape P G ->
  Forall2 (fun e pg =>
             isfinite e = true ->
             coordinates_finite (fst pg) = true
             /\ coordinates_finite (snd pg) = true)
          (mpjpe_error P G) (combine P G).
Proof.
  intros H. rewrite mpjpe_error_map2. unfold map2.
  induction H as [ | p g P G S _ IH]; simpl; constructor; trivial.
  simpl. now apply sample_finite.
Qed.

End MetricExtras.

(** ** Sequence names and prediction files *)

Module PathExtras.

Import PosixPath PosixPathFacts PathProps Aggregator EvalFromPkl.
Local Open Scope string_scope.

Lemma substring_0_0 (p : string) : substring 0 0 p = "".
Proof. now destruct p. Qed.

(** X8.  An image name without any directory has the empty sequence name:
    the samples of such images all go to the bucket of the empty name. *)
Theorem seq_name_without_directory (p : string) :
  no_sep p = true -> seq_name p = "".
Proof.
  intros H. unfold seq_name, dirname, slice_to.
  rewrite (rfind_no_sep _ H), substring_0_0. reflexivity.
Qed.

Lemma rfind_zero_no_sep (s : string) : rfind_sep_succ s = 0 -> no_sep s = true.
Proof.
  induction s as [ | c s IH]; simpl; trivial.
  destruct (rfind_sep_succ s); [ | discriminate].
  destruct (is_sep c); [discriminate | ]. intros _. now rewrite IH.
Qed.

Lemma basename_cons (c : ascii) (rest : string) :
  basename (String c rest)
  = match rfind_sep_succ rest with
    | 0 => if is_sep c then rest else String c rest
    | S _ => basename rest
    end.
Proof.
  unfold basename, slice_from. cbn [rfind_sep_succ String.length].
  destruct (rfind_sep_succ rest) as [ | i] eqn:E.
  - destruct (is_sep c).
    + replace (S (String.length rest) - 1) with (String.length rest) by lia.
      cbn [substring]. apply substring_all.
    + replace (S (String.length rest) - 0) with (S (String.length rest))
        by lia.
      cbn [substring]. now rewrite substring_all.
  - reflexivity.
Qed.

(** The base name of a path has no separator. *)
Lemma no_sep_basename (p : string) : no_sep (basename p) = true.
Proof.
  induction p as [ | c p IH]; trivial.
  rewrite basename_cons. destruct (rfind_sep_succ p) eqn:E; trivial.
  pose proof (rfind_zero_no_sep _ E) as N.
  destruct (is_sep c) eqn:C; trivial. simpl. now rewrite C, N.
Qed.

Lemma no_sep_substring_0 (k : nat) (s : string) :
  no_sep s = true -> no_sep (substring 0 k s) = true.
Proof.
  revert k. induction s as [ | c s IH]; intros [ | k]; simpl; trivial.
  rewrite !andb_true_iff. intros [C H]. split; trivial. now apply IH.
Qed.

Lemma no_sep_append (a b : string) :
  no_sep (a ++ b) = no_sep a && no_sep b.
Proof.
  induction a as [ | c a IH]; simpl; trivial. now rewrite IH, andb_assoc.
Qed.

Lemma no_sep_string_of_uint (d : Decimal.uint) :
  no_sep (NilEmpty.string_of_uint d) = true.
Proof. induction d; simpl; trivial. Qed.

Lemma no_sep_pklfilename (sample_idx : nat) (name : string) :
  no_sep (pklfilename sample_idx name) = true.
Proof.
  unfold pklfilename, seq_name, drop_last4, str_of_index.
  rewrite !no_sep_append, no_sep_basename, no_sep_string_of_uint.
  rewrite no_sep_substring_0 by apply no_sep_basename. reflexivity.
Qed.

Lemma startswith_no_sep (s : string) :
  no_sep s = true -> startswith_sep s = false.
Proof.
  destruct s as [ | c s]; simpl; trivial.
  rewrite andb_true_iff, negb_true_iff. now intros [C _].
Qed.

Lemma pklfilepath_eq (sample_idx : nat) (name : string) :
  pklfilepath sample_idx name = pklDir ++ "/" ++ pklfilename sample_idx name.
Proof.
  unfold pklfilepath. fold (pklfilename sample_idx name). unfold join.
  now rewrite (startswith_no_sep _ (no_sep_pklfilename sample_idx name)).
Qed.

(** X9.  The prediction file of a sample is a file of the directory [pklDir]
    itself: its path is [pklDir], a separator and a name without separator,
    made of the sequence name, the image name without its last four
    characters and the index of the sample. *)
Theorem pklfilepath_is_a_file_of_pklDir (sample_idx : nat) (name : string) :
  pklfilepath sample_idx name = pklDir ++ "/" ++ pklfilename sample_idx name
  /\ no_sep (pklfilename sample_idx name) = true
  /\ dirname (pklfilepath sample_idx name) = pklDir
  /\ basename (pklfilepath sample_idx name) = pklfilename sample_idx name.
Proof.
  pose proof (no_sep_pklfilename sample_idx name) as N.
  pose proof (pklfilepath_eq sample_idx name) as E.
  split; [exact E | split; [exact N | ] ].
  rewrite E. split.
  - unfold dirname, slice_to. rewrite rfind_last_sep by assumption.
    replace (S (String.length pklDir)) with (String.length (pklDir ++ "/"))
      by reflexivity.
    replace (pklDir ++ "/" ++ pklfilename sample_idx name)
      with ((pklDir ++ "/") ++ pklfilename sample_idx name)
      by apply append_assoc.
    rewrite substring_prefix. reflexivity.
  - now apply basename_last.
Qed.

Lemma append_cancel_l (a b c : string) : a ++ b = a ++ c -> b = c.
Proof.
  induction a as [ | x a IH]; simpl; trivial.
  intros H. injection H as H. now apply IH.
Qed.

Lemma append_cancel_r (a b t : string) : a ++ t = b ++ t -> a = b.
Proof.
  revert b. induction a as [ | x a IH]; intros [ | y b] H; trivial.
  - apply (f_equal String.length) in H.
    simpl in H. rewrite length_append in H. lia.
  - apply (f_equal String.length) in H.
    simpl in H. rewrite length_append in H. lia.
  - simpl in H. injection H as -> H. f_equal. now apply IH.
Qed.

Lemma contains_append (c : ascii) (a b : string) :
  contains c (a ++ b) = contains c a || contains c b.
Proof.
  induction a as [ | x a IH]; simpl; trivial. now rewrite IH, orb_assoc.
Qed.

(** What follows the last occurrence of a character is determined. *)
Lemma last_field_unique (c : ascii) (a1 a2 t1 t2 : string) :
  contains c t1 = false -> contains c t2 = false ->
  a1 ++ String c t1 = a2 ++ String c t2 -> t1 = t2.
Proof.
  intros H1 H2. revert a2.
  induction a1 as [ | x a1 IH]; intros [ | y a2] E; simpl in E.
  - now injection E.
  - injection E as _ E. rewrite E, contains_append in H1. simpl in H1.
    rewrite Ascii.eqb_refl, orb_true_r in H1. discriminate.
  - injection E as _ E. rewrite <- E, contains_append in H2. simpl in H2.
    rewrite Ascii.eqb_refl, orb_true_r in H2. discriminate.
  - injection E as _ E. now apply (IH a2).
Qed.

Lemma no_underscore_string_of_uint (d : Decimal.uint) :
  contains "_" (NilEmpty.string_of_uint d) = false.
Proof. induction d; simpl; trivial. Qed.

Lemma str_of_index_injective (i j : nat) :
  str_of_index i = str_of_index j -> i = j.
Proof.
  unfold str_of_index. intros H.
  apply (f_equal NilEmpty.uint_of_string) in H. rewrite !NilEmpty.usu in H.
  injection H as H. apply (f_equal Nat.of_uint) in H.
  now rewrite !DecimalNat.Unsigned.of_to in H.
Qed.

(** X10.  Two samples with different indices never have the same prediction
    file, whatever their image names are. *)
Theorem pklfilepath_determines_the_index (i j : nat) (name1 name2 : string) :
  i <> j -> pklfilepath i name1 <> pklfilepath j name2.
Proof.
  intros N H. apply N. revert H.
  rewrite !pklfilepath_eq. intros H.
  apply append_cancel_l, append_cancel_l in H.
  assert (F : forall k name,
             pklfilename k name
             = (seq_name name ++ "_" ++ drop_last4 (basename name))
               ++ String "_" (str_of_index k ++ ".pkl")).
  { intros k name. unfold pklfilename. now rewrite !append_assoc. }
  rewrite !F in H. apply last_field_unique in H.
  - apply append_cancel_r in H. now apply str_of_index_injective.
  - unfold str_of_index.
    now rewrite contains_append, no_underscore_string_of_uint.
  - unfold str_of_index.
    now rewrite contains_append, no_underscore_string_of_uint.
Qed.

End PathExtras.

(** ** The dictionaries of a run *)

Module AggregatorExtras.

Import Dict DictFacts Aggregator AggregatorSpec AggregatorFacts NpFloatFacts
  MeanFacts ReportFacts AggregatorProps MetricSpec.

Lemma keys_buckets (s : list (string * float)) :
  keys (buckets s) = first_appearance (map fst s).
Proof. unfold keys, buckets. rewrite map_map. simpl. apply map_id. Qed.

Lemma bucket_buckets (k : string) (s : list (string * float)) :
  In k (first_appearance (map fst s)) -> bucket k (buckets s) = values_of k s.
Proof. intros H. unfold buckets. now apply bucket_tabulate. Qed.

Lemma length_values_of (k : string) (l : list entry) :
  length (values_of k (errors_of l)) = length (values_of k (r_errors_of l)).
Proof.
  unfold values_of, errors_of, r_errors_of. rewrite !length_map.
  induction l as [ | x l IH]; simpl; trivial.
  destruct (String.eqb (seq_name (entry_name x)) k); simpl; congruence.
Qed.

(** X11.  Whatever the batches of a run are, the recording loops go through
    without an exception, and after them the keys of a dictionary are
    pairwise different, the two dictionaries have the same keys in the same
    order, no bucket is empty, and the two buckets of a sequence have the
    same number of values. *)
Theorem dictionaries_of_a_run_are_well_formed (bs : list (list entry)) :
  exists q,
    record_calls quant_empty bs = Ok q
    /\ NoDup (keys (quant_mpjpe q))
    /\ keys (quant_mpjpe q) = keys (quant_recon_err q)
    /\ forall k, In k (keys (quant_mpjpe q)) ->
         bucket k (quant_mpjpe q) <> []
         /\ length (bucket k (quant_mpjpe q))
            = length (bucket k (quant_recon_err q)).
Proof.
  exists (quant_of (concat bs)). split.
  - rewrite <- record_entries_quant_of.
    apply record_calls_entries, synced_quant_empty.
  - assert (E : map fst (errors_of (concat bs))
                = map fst (r_errors_of (concat bs)))
      by (unfold errors_of, r_errors_of; now rewrite !map_map).
    unfold quant_of. cbn [quant_mpjpe quant_recon_err].
    rewrite !keys_buckets. split; [apply NoDup_first_appearance | ].
    split; [now rewrite E | ].
    intros k H. rewrite bucket_buckets by assumption.
    rewrite bucket_buckets by (now rewrite <- E).
    split; [now apply values_of_present | apply length_values_of].
Qed.

Lemma filter_filter {A : Type} (p q : A -> bool) (l : list A) :
  filter p (filter q l) = filter (fun x => p x && q x) l.
Proof.
  induction l as [ | x l IH]; simpl; trivial.
  destruct (q x); simpl; rewrite ?andb_true_r, ?andb_false_r;
    [destruct (p x) | ]; simpl; now rewrite IH.
Qed.

Lemma first_appearance_filter (p : string -> bool) (l : list string) :
  first_appearance (filter p l) = filter p (first_appearance l).
Proof.
  induction l as [ | a l IH]; simpl; trivial.
  destruct (p a) eqn:Pa; simpl.
  - rewrite IH, !filter_filter. f_equal. apply filter_ext. intros x.
    apply andb_comm.
  - rewrite IH, filter_filter. apply filter_ext_in. intros x _.
    destruct (String.eqb x a) eqn:E; simpl.
    + apply String.eqb_eq in E. subst x. now rewrite Pa.
    + symmetry. apply andb_true_r.
Qed.

(** The keys after the values of a stream have been recorded *)
Lemma keys_record_stream (l : list (string * float)) (d : dict) :
  keys (fold_left (fun d' kv => dict_record (fst kv) (snd kv) d') l d)
  = keys d
    ++ first_appearance (filter (fun k => negb (mem k d)) (map fst l)).
Proof.
  revert d. induction l as [ | [k v] l IH]; intros d; simpl.
  - now rewrite app_nil_r.
  - rewrite IH, keys_dict_record.
    destruct (mem k d) eqn:M; simpl.
    + do 2 f_equal. apply filter_ext. intros k'.
      rewrite mem_dict_record. destruct (String.eqb k k') eqn:E.
      * apply String.eqb_eq in E. subst k'. now rewrite M.
      * now rewrite orb_false_r.
    + rewrite <- app_assoc. simpl. do 2 f_equal.
      rewrite <- first_appearance_filter, filter_filter. f_equal.
      apply filter_ext. intros k'.
      rewrite mem_dict_record, negb_orb, (String.eqb_sym k' k).
      apply andb_comm.
Qed.

Lemma record_entries_streams (l : list entry) (q : quant) :
  quant_mpjpe (record_entries q l)
  = fold_left (fun d' kv => dict_record (fst kv) (snd kv) d')
      (errors_of l) (quant_mpjpe q)
  /\ quant_recon_err (record_entries q l)
     = fold_left (fun d' kv => dict_record (fst kv) (snd kv) d')
         (r_errors_of l) (quant_recon_err q).
Proof.
  unfold record_entries. revert q.
  induction l as [ | x l IH]; intros q; simpl; [now split | ].
  apply (IH (record_entry q x)).
Qed.

(** X12.  A pass of the recording loop never removes or moves a key: the
    keys after it are the keys before it, followed by the sequence names of
    the batch that were not keys yet, in the order of their first
    appearance. *)
Theorem keys_are_append_only (q : quant) (b : list entry) :
  synced q ->
  exists q',
    record_call q b = Ok q'
    /\ keys (quant_mpjpe q')
       = keys (quant_mpjpe q)
         ++ first_appearance
              (filter (fun k => negb (mem k (quant_mpjpe q))) (seq_names b))
    /\ keys (quant_recon_err q') = keys (quant_mpjpe q').
Proof.
  intros Sy. exists (record_entries q b).
  split; [now apply record_call_entries | ].
  destruct (record_entries_streams b q) as [E1 _].
  split.
  - rewrite E1, keys_record_stream. do 2 f_equal.
    unfold errors_of, seq_names. now rewrite map_map.
  - symmetry. now apply synced_record_entries.
Qed.

End AggregatorExtras.

(** ** Runs of [eval_export.py]: the edges *)

Module RunExtras.

Import Dict DictFacts Aggregator AggregatorSpec AggregatorFacts NpFloatFacts
  MeanFacts ReportFacts EvalCommon RunSpec RunFacts EvalExport
  EvalExportFacts.

(** The condition of the progress block, for a frequency that is not zero:
    the frequency is positive and divides the number of batches done *)
Lemma progress_due_divides (step : nat) (log_freq : Z) :
  log_freq <> 0%Z ->
  progress_due step log_freq
  = (0 <? log_freq)%Z && ((Z.of_nat step + 1) mod log_freq =? 0)%Z.
Proof.
  intros Hf. unfold progress_due. apply eq_true_iff_eq.
  rewrite andb_true_iff, !Z.eqb_eq, Z.ltb_lt.
  destruct (Z.lt_trichotomy log_freq 0) as [Hn | [H0 | Hp]]; [ | lia | ].
  - pose proof (Z.mod_neg_bound (Z.of_nat step) log_freq Hn). lia.
  - pose proof (Z.mod_pos_bound (Z.of_nat step) log_freq Hp) as B.
    pose proof (Z.div_mod (Z.of_nat step) log_freq Hf) as D.
    split.
    + intros E. split; trivial.
      replace (Z.of_nat step + 1)%Z
        with ((Z.of_nat step / log_freq + 1) * log_freq)%Z by lia.
      apply Z.mod_mul. lia.
    + intros [_ E].
      pose proof (Z.div_mod (Z.of_nat step + 1) log_freq Hf) as D1.
      rewrite E in D1.
      symmetry.
      apply (Z.mod_unique_pos _ _ ((Z.of_nat step + 1) / log_freq - 1)); lia.
Qed.

Section Run.

Variable reconstruction_error1 : joints -> joints -> float.
Variable fmt2 : float -> string.

(** X14.  With a frequency that is not zero, the progress block of a verbose
    pose run prints its three lines exactly when the frequency is positive
    and divides the number of batches done so far, that is after every
    [log_freq]-th batch, and never for a negative frequency; both numbers
    shown are 0, or [nan] when no earlier batch or no sample is counted,
    whatever has been recorded. *)
Theorem progress_is_printed_every_log_freq_batches (step batch_size : nat)
    (log_freq : Z) (n : nat) (out : list out_line) :
  log_freq <> 0%Z ->
  let v := if (0 <? step * batch_size) && (0 <? n) then Fin 0 else NaN in
  progress_block true true false false step batch_size log_freq
    (np_zeros n) (np_zeros n) out
  = (Ok tt,
     out ++ (if (0 <? log_freq)%Z
                && ((Z.of_nat step + 1) mod log_freq =? 0)%Z
             then [OutProgress "MPJPE: " v;
                   OutProgress "Reconstruction Error: " v; OutBlank]
             else [])).
Proof.
  intros Hf v.
  rewrite progress_block_pose by (intros _; exact Hf).
  unfold progress_lines. rewrite progress_due_divides by assumption.
  assert (V : progress_value step batch_size n = v).
  { unfold v. destruct (0 <? step * batch_size) eqn:Es.
    - destruct (0 <? n) eqn:En; simpl.
      + apply Nat.ltb_lt in Es, En.
        now apply ProgressClaims.progress_value_zero.
      + apply Nat.ltb_ge in En.
        apply ProgressClaims.progress_value_nan. right. lia.
    - apply Nat.ltb_ge in Es. simpl.
      apply ProgressClaims.progress_value_nan. left. lia. }
  now rewrite V.
Qed.

(** One turn of the loop of a pose run that is not verbose prints nothing. *)
Lemma loop_pose_quiet (dataset_name : string) (n batch_size : nat)
    (log_freq : Z) (data_loader : list batch) :
  eval_pose dataset_name = true ->
  forall (step : nat) (q : quant) (out : list out_line),
  synced q ->
  loop reconstruction_error1 dataset_name n batch_size log_freq false
    step data_loader q out
  = (Ok (record_entries q (entries_of reconstruction_error1 data_loader)), out).
Proof.
  intros Ep.
  induction data_loader as [ | b bs IH]; intros step q out Sy; trivial.
  cbn [loop].
  erewrite bind_ok
    by (apply loop_body_pose; [exact Ep | exact Sy | discriminate]).
  rewrite app_nil_r, IH by now apply synced_record_entries.
  f_equal. f_equal. unfold entries_of, record_entries. simpl.
  now rewrite fold_left_app.
Qed.

(** X16.  A pose run over a loader without any batch does not return: after
    the heading of the final results, if it is verbose, it raises the
    [ValueError] of [np.hstack] for the empty dictionaries. *)
Theorem pose_run_without_batches_raises (dataset_name : string)
    (batch_size : nat) (log_freq : Z) (bVerbose : bool)
    (out : list out_line) :
  eval_pose dataset_name = true ->
  run_evaluation reconstruction_error1 fmt2 dataset_name [] batch_size
    log_freq bVerbose out
  = (Raise ValueError,
     out ++ (if bVerbose then [OutText "*** Final Results ***"; OutBlank]
             else [])).
Proof.
  intros Ep. unfold run_evaluation. cbn [loop].
  unfold bind at 1. unfold ret at 1. unfold final_block. rewrite Ep.
  destruct bVerbose; unfold when, bind, print, lift, ret; simpl.
  - now rewrite <- app_assoc.
  - now rewrite app_nil_r.
Qed.

(** X17.  A verbose pose run with [log_freq=0] stops in its first turn with
    a [ZeroDivisionError], after it has recorded the first batch and printed
    the line of that batch. *)
Theorem verbose_run_with_zero_log_freq_raises (dataset_name : string)
    (b : batch) (rest : list batch) (batch_size : nat)
    (out : list out_line) :
  eval_pose dataset_name = true ->
  run_evaluation reconstruction_error1 fmt2 dataset_name (b :: rest)
    batch_size 0 true out
  = (Raise ZeroDivisionError,
     out ++ [batch_line reconstruction_error1 b
               (record_entries quant_empty
                  (entries_of_batch reconstruction_error1 b))]).
Proof.
  intros Ep. unfold run_evaluation. apply bind_raise. cbn [loop].
  apply bind_raise. unfold loop_body, eval_parts.
  rewrite Ep, (eval_masks_pose _ Ep).
  erewrite bind_ok by (apply pose_block_ok; apply synced_quant_empty).
  reflexivity.
Qed.

(** The loop of a run on a dataset without any evaluation does nothing. *)
Lemma loop_without_evaluation (dataset_name : string) (n batch_size : nat)
    (log_freq : Z) (bVerbose : bool) (data_loader : list batch) :
  eval_pose dataset_name = false -> eval_masks dataset_name = false ->
  (bVerbose = true -> log_freq <> 0%Z) ->
  forall (step : nat) (q : quant) (out : list out_line),
  loop reconstruction_error1 dataset_name n batch_size log_freq bVerbose
    step data_loader q out
  = (Ok q, out).
Proof.
  intros Ep Em Hf.
  induction data_loader as [ | b bs IH]; intros step q out; trivial.
  cbn [loop]. erewrite bind_ok; [apply IH | ].
  unfold loop_body, eval_parts. rewrite Ep, Em.
  unfold masks_block, parts_block, progress_block, when.
  destruct bVerbose; trivial.
  destruct (Z.eqb log_freq 0) eqn:E0.
  - apply Z.eqb_eq in E0. now destruct Hf.
  - now destruct (Z.eqb (Z.of_nat step mod log_freq) (log_freq - 1)).
Qed.

End Run.

End RunExtras.

(** ** Whole runs of the two scripts *)

Module ScriptExtras.

Import Aggregator AggregatorSpec EvalCommon RunSpec.
Local Open Scope string_scope.

(** X7.  The sequence name of an image [d/seq/file], where [seq] is not
    empty and neither [seq] nor [file] has a separator, is [seq], whatever the
    directories [d] above are. *)
Theorem sequence_name_is_the_directory_of_the_image (d seq file : string) :
  seq <> "" -> PosixPath.no_sep seq = true -> PosixPath.no_sep file = true ->
  seq_name (d ++ "/" ++ seq ++ "/" ++ file) = seq.
Proof. apply PosixPathFacts.seq_name_of_file. Qed.

Section Run.

Variable reconstruction_error1 : joints -> joints -> float.
Variable fmt2 : float -> string.

Variable pkl_files : string -> option joints.

(** X21.  A run of [evalfrompkl.py] without a result file on a pose dataset
    (['3dpw-vibe'] is one of them there), with all the prediction files on
    the disk, computes the errors from the joints that the files give, not
    from the network, and returns the pair of their overall means times
    1000: the means over the values of all the buckets, bucket after bucket.
    The lines are those of a machine without the directory
    [benchmarks_eval], where the report is not written to a file. *)
Theorem pose_run_from_files_returns_the_means (dataset_name : string)
    (data_loader : list batch) (batch_size : nat) (log_freq : Z)
    (bVerbose : bool) (out : list out_line) :
  EvalFromPkl.eval_pose dataset_name = true -> data_loader <> [] ->
  (bVerbose = true -> log_freq <> 0%Z) ->
  forallb (fun b => negb (existsb (EvalFromPkl.is_missing pkl_files)
                            (samples b)))
    data_loader = true ->
  let es := entries_of reconstruction_error1
              (map (EvalFromPkl.loaded_batch pkl_files) data_loader) in
  let a := fmul (np_mean (bucket_values (errors_of es))) (Fin 1000) in
  let r := fmul (np_mean (bucket_values (r_errors_of es))) (Fin 1000) in
  exists lines,
    EvalFromPkl.run_evaluation reconstruction_error1 fmt2 pkl_files
      dataset_name data_loader batch_size log_freq bVerbose out
    = (Ok (RetPair a r),
       (out ++ lines
        ++ (if bVerbose
            then [OutText "*** Final Results ***"; OutBlank;
                  OutText (report_text fmt2 es)]
            else [OutSummary a r]))%list).
Proof. apply EvalFromPklFacts.pkl_run_evaluation_pose. Qed.

(** X22.  A run of [evalfrompkl.py] with the dataset ['lsp'] whose first
    batch has all its prediction files raises [NameError] in its first turn,
    without a line printed: it reads [mask], which is never assigned. *)
Theorem lsp_run_from_files_raises (b : batch) (rest : list batch)
    (batch_size : nat) (log_freq : Z) (bVerbose : bool)
    (out : list out_line) :
  existsb (EvalFromPkl.is_missing pkl_files) (samples b) = false ->
  EvalFromPkl.run_evaluation reconstruction_error1 fmt2 pkl_files "lsp"
    (b :: rest) batch_size log_freq bVerbose out
  = (Raise NameError, out).
Proof. apply EvalFromPklFacts.pkl_run_evaluation_lsp_raises. Qed.

End Run.

End ScriptExtras.

(** ** Runs with and without a result file *)

Module ResultFileExtras.

Import Dict DictFacts Aggregator AggregatorSpec AggregatorFacts NpFloatFacts
  MeanFacts ReportFacts EvalCommon RunSpec RunFacts EvalExport
  EvalExportFacts RunExtras.

Section Run.

Variable reconstruction_error1 : joints -> joints -> float.
Variable fmt2 : float -> string.

(** Without a result file, or in a pose run whose joints the arrays can
    take, the block that stores the results changes nothing. *)
Lemma loop_body_to_plain (save_results : bool) (dataset_name : string)
    (n batch_size : nat) (log_freq : Z) (bVerbose : bool) (step : nat)
    (b : batch) (q : quant) (out : list out_line) :
  (save_results = true ->
   eval_pose dataset_name = true /\ storable [b] = true) ->
  loop_body_to reconstruction_error1 save_results dataset_name n batch_size
    log_freq bVerbose step b q out
  = loop_body reconstruction_error1 dataset_name n batch_size log_freq
      bVerbose step b q out.
Proof.
  intros H. unfold loop_body_to, bind at 1.
  destruct (loop_body reconstruction_error1 dataset_name n batch_size
              log_freq bVerbose step b q out) as [[q' | e] out']; trivial.
  destruct save_results; trivial.
  destruct (H eq_refl) as [Ep Hs]. unfold storable in Hs. cbn [forallb] in Hs.
  rewrite andb_true_r in Hs.
  unfold when, save_block. now rewrite Ep, Hs.
Qed.

Lemma loop_to_plain (save_results : bool) (dataset_name : string)
    (n batch_size : nat) (log_freq : Z) (bVerbose : bool)
    (data_loader : list batch) :
  (save_results = true ->
   eval_pose dataset_name = true /\ storable data_loader = true) ->
  forall (step : nat) (q : quant) (out : list out_line),
  loop_to reconstruction_error1 save_results dataset_name n batch_size
    log_freq bVerbose step data_loader q out
  = loop reconstruction_error1 dataset_name n batch_size log_freq bVerbose
      step data_loader q out.
Proof.
  induction data_loader as [ | b bs IH]; intros H step q out; trivial.
  cbn [loop_to loop]. unfold bind.
  rewrite loop_body_to_plain.
  - destruct (loop_body reconstruction_error1 dataset_name n batch_size
                log_freq bVerbose step b q out) as [[q' | e] out']; trivial.
    apply IH. intros Es. destruct (H Es) as [Ep Hs]. split; trivial.
    unfold storable in *. cbn [forallb] in Hs.
    now apply andb_true_iff in Hs.
  - intros Es. destruct (H Es) as [Ep Hs]. split; trivial.
    unfold storable in *. cbn [forallb] in *.
    apply andb_true_iff in Hs. now rewrite (proj1 Hs).
Qed.

Lemma save_file_lines (result_file : option string) (out : list out_line) :
  save_file result_file out = (Ok tt, out ++ saved_lines result_file).
Proof.
  destruct result_file; unfold save_file, saved_lines, print, ret; trivial.
  now rewrite app_nil_r.
Qed.

(** Without a result file, [run_evaluation_to] is [run_evaluation]. *)
Lemma run_evaluation_to_None (dataset_name : string)
    (data_loader : list batch) (batch_size : nat) (log_freq : Z)
    (bVerbose : bool) (out : list out_line) :
  run_evaluation_to reconstruction_error1 fmt2 None dataset_name data_loader
    batch_size log_freq bVerbose out
  = run_evaluation reconstruction_error1 fmt2 dataset_name data_loader
      batch_size log_freq bVerbose out.
Proof.
  unfold run_evaluation_to, run_evaluation, bind.
  rewrite loop_to_plain by discriminate.
  destruct (loop reconstruction_error1 dataset_name (len_dataset data_loader)
              batch_size log_freq bVerbose 0 data_loader quant_empty out)
    as [[q | e] out']; trivial.
Qed.

(** One turn of the loop of a run without any evaluation does nothing. *)
Lemma loop_body_without_evaluation (dataset_name : string)
    (n batch_size : nat) (log_freq : Z) (bVerbose : bool) (step : nat)
    (b : batch) (q : quant) (out : list out_line) :
  eval_pose dataset_name = false -> eval_masks dataset_name = false ->
  (bVerbose = true -> log_freq <> 0%Z) ->
  loop_body reconstruction_error1 dataset_name n batch_size log_freq bVerbose
    step b q out
  = (Ok q, out).
Proof.
  intros Ep Em Hf. unfold loop_body, eval_parts. rewrite Ep, Em.
  unfold masks_block, parts_block, progress_block, when.
  destruct bVerbose; trivial.
  destruct (Z.eqb log_freq 0) eqn:E0.
  - apply Z.eqb_eq in E0. now destruct Hf.
  - now destruct (Z.eqb (Z.of_nat step mod log_freq) (log_freq - 1)).
Qed.

(** X20.  A run of [eval_export.py] on a pose dataset, over a loader with at
    least one batch, with a [log_freq] that is not zero if it is verbose, and
    with joints that the arrays of the results can take if there is a result
    file, returns the pair of the overall means of the MPJPE and of the
    reconstruction error, each times 1000: the means over the values of all
    the buckets, bucket after bucket.  Its last lines are the line of the
    result file, if there is one, and then the heading and the report
    (verbose) or the summary (not verbose). *)
Theorem pose_run_returns_the_means_in_millimetres
    (result_file : option string) (dataset_name : string)
    (data_loader : list batch) (batch_size : nat) (log_freq : Z)
    (bVerbose : bool) (out : list out_line) :
  eval_pose dataset_name = true -> data_loader <> [] ->
  (bVerbose = true -> log_freq <> 0%Z) ->
  (result_file <> None -> storable data_loader = true) ->
  let es := entries_of reconstruction_error1 data_loader in
  let a := fmul (np_mean (bucket_values (errors_of es))) (Fin 1000) in
  let r := fmul (np_mean (bucket_values (r_errors_of es))) (Fin 1000) in
  exists lines,
    run_evaluation_to reconstruction_error1 fmt2 result_file dataset_name
      data_loader batch_size log_freq bVerbose out
    = (Ok (RetPair a r),
       out ++ lines ++ saved_lines result_file
       ++ (if bVerbose
           then [OutText "*** Final Results ***"; OutBlank;
                 OutText (report_text fmt2 es)]
           else [OutSummary a r])).
Proof.
  intros Ep Nl Hf Hs es a r. unfold run_evaluation_to.
  destruct (@loop_pose reconstruction_error1 dataset_name
              (len_dataset data_loader) batch_size log_freq bVerbose
              data_loader Ep Hf 0 quant_empty out synced_quant_empty)
    as [lines E].
  exists lines.
  erewrite bind_ok.
  2: { rewrite loop_to_plain; [exact E | ].
       intros Es. split; trivial. apply Hs. now destruct result_file. }
  erewrite bind_ok by apply save_file_lines.
  rewrite record_entries_quant_of. fold es.
  unfold final_block. rewrite Ep.
  assert (F := final_report_of_stream fmt2
                 (entries_of_not_nil reconstruction_error1 Nl)).
  fold es in F.
  destruct bVerbose; unfold when, bind, print, lift, ret; rewrite F;
    fold a; fold r; f_equal; now rewrite <- !app_assoc.
Qed.

(** X15.  A pose run that is not verbose prints the line of the result
    file, if there is one, and then one line only, the summary with the two
    averages it returns; it never computes a remainder by [log_freq], so that
    a zero [log_freq] does no harm. *)
Theorem quiet_run_prints_only_the_summary (result_file : option string)
    (dataset_name : string) (data_loader : list batch) (batch_size : nat)
    (log_freq : Z) (out : list out_line) :
  eval_pose dataset_name = true -> data_loader <> [] ->
  (result_file <> None -> storable data_loader = true) ->
  let es := entries_of reconstruction_error1 data_loader in
  let a := fmul (np_mean (bucket_values (errors_of es))) (Fin 1000) in
  let r := fmul (np_mean (bucket_values (r_errors_of es))) (Fin 1000) in
  run_evaluation_to reconstruction_error1 fmt2 result_file dataset_name
    data_loader batch_size log_freq false out
  = (Ok (RetPair a r), out ++ saved_lines result_file ++ [OutSummary a r]).
Proof.
  intros Ep Nl Hs es a r. unfold run_evaluation_to.
  erewrite bind_ok.
  2: { rewrite loop_to_plain.
       - apply loop_pose_quiet; [exact Ep | reflexivity].
       - intros Es. split; trivial. apply Hs. now destruct result_file. }
  erewrite bind_ok by apply save_file_lines.
  rewrite record_entries_quant_of. fold es.
  unfold final_block. rewrite Ep.
  assert (F := final_report_of_stream fmt2
                 (entries_of_not_nil reconstruction_error1 Nl)).
  fold es in F.
  unfold when, bind, print, lift, ret. rewrite F.
  fold a; fold r. now rewrite <- app_assoc.
Qed.

(** X18.  For a dataset name that is neither one of the pose datasets of
    [eval_export.py] nor ['lsp'] (as ['3dpw-vibe'], a pose dataset of
    [evalfrompkl.py] only), the run raises no error for the unknown name.
    Without a result file, or over a loader without any batch, it evaluates
    nothing and returns -1, and prints the line of the result file, if there
    is one, and the heading of the final results, if it is verbose.  With a
    result file and a batch, it raises [UnboundLocalError] in its first turn,
    without a line printed: the block that stores the results reads
    [pred_keypoints_3d], which only the pose evaluation assigns. *)
Theorem other_dataset_returns_minus_one_or_fails_to_save
    (result_file : option string) (dataset_name : string)
    (data_loader : list batch) (batch_size : nat) (log_freq : Z)
    (bVerbose : bool) (out : list out_line) :
  eval_pose dataset_name = false -> dataset_name <> "lsp"%string ->
  (bVerbose = true -> log_freq <> 0%Z) ->
  run_evaluation_to reconstruction_error1 fmt2 result_file dataset_name
    data_loader batch_size log_freq bVerbose out
  = match result_file, data_loader with
    | Some _, _ :: _ => (Raise UnboundLocalError, out)
    | _, _ =>
        (Ok RetMinusOne,
         out ++ saved_lines result_file
         ++ (if bVerbose then [OutText "*** Final Results ***"; OutBlank]
             else []))
    end.
Proof.
  intros Ep Nl Hf.
  assert (Em : eval_masks dataset_name = false).
  { unfold eval_masks. rewrite Ep. now apply String.eqb_neq in Nl as ->. }
  assert (Fin_ : forall q out0,
            bind (save_file result_file)
              (fun _ => final_block fmt2 bVerbose (eval_pose dataset_name)
                          (eval_masks dataset_name) (eval_parts dataset_name) q)
              out0
            = (Ok RetMinusOne,
               out0 ++ saved_lines result_file
               ++ (if bVerbose then [OutText "*** Final Results ***"; OutBlank]
                   else []))).
  { intros q out0. erewrite bind_ok by apply save_file_lines.
    unfold final_block, eval_parts. rewrite Ep, Em.
    destruct bVerbose; unfold when, bind, print, ret; simpl.
    - now rewrite <- !app_assoc.
    - now rewrite app_nil_r. }
  unfold run_evaluation_to.
  destruct result_file as [f | ].
  - destruct data_loader as [ | b rest].
    + cbn [loop_to]. unfold bind at 1. unfold ret at 1. apply Fin_.
    + apply bind_raise. cbn [loop_to]. apply bind_raise.
      unfold loop_body_to.
      erewrite bind_ok by now apply loop_body_without_evaluation.
      unfold when, save_block. rewrite Ep. reflexivity.
  - erewrite bind_ok.
    2: { rewrite loop_to_plain by discriminate.
         now apply loop_without_evaluation. }
    rewrite Fin_. now destruct data_loader.
Qed.

(** X19.  With the dataset ['lsp'] and a loader without any batch, a run
    prints the line of the result file, if there is one; then a run that is
    not verbose returns -1, and a verbose run raises a [ZeroDivisionError]
    after the heading of the final results: it divides the accuracy by a
    pixel count of zero. *)
Theorem lsp_run_without_batches (result_file : option string)
    (batch_size : nat) (log_freq : Z) (out : list out_line) :
  run_evaluation_to reconstruction_error1 fmt2 result_file "lsp" []
    batch_size log_freq false out
  = (Ok RetMinusOne, out ++ saved_lines result_file)
  /\ run_evaluation_to reconstruction_error1 fmt2 result_file "lsp" []
       batch_size log_freq true out
     = (Raise ZeroDivisionError,
        out ++ saved_lines result_file
        ++ [OutText "*** Final Results ***"; OutBlank]).
Proof.
  split; unfold run_evaluation_to; cbn [loop_to];
    unfold bind at 1; unfold ret at 1;
    erewrite bind_ok by apply save_file_lines;
    unfold final_block, when, bind, print, raise, ret; simpl; trivial.
  now rewrite <- !app_assoc.
Qed.

(** X23.  A pose run with a result file stops with a [ValueError] in the
    first turn whose batch has a sample with a number of joints other than
    14 or 1, as the seventeen joints of ['mpi-inf-3dhp']: here in the very
    first turn, after the samples of the batch have been recorded and the
    lines of the turn printed.  Nothing is saved and nothing is returned. *)
Theorem pose_run_cannot_save_other_joints (f : string)
    (dataset_name : string) (b : batch) (rest : list batch)
    (batch_size : nat) (log_freq : Z) (bVerbose : bool)
    (out : list out_line) :
  eval_pose dataset_name = true -> (bVerbose = true -> log_freq <> 0%Z) ->
  storable [b] = false ->
  run_evaluation_to reconstruction_error1 fmt2 (Some f) dataset_name
    (b :: rest) batch_size log_freq bVerbose out
  = (Raise ValueError,
     out ++ (if bVerbose
             then batch_line reconstruction_error1 b
                    (record_entries quant_empty
                       (entries_of_batch reconstruction_error1 b))
                  :: progress_lines 0 batch_size log_freq
                       (len_dataset (b :: rest))
             else [])).
Proof.
  intros Ep Hf Hs. unfold run_evaluation_to.
  apply bind_raise. cbn [loop_to]. apply bind_raise.
  unfold loop_body_to.
  erewrite bind_ok
    by (apply loop_body_pose;
        [exact Ep | apply synced_quant_empty | exact Hf]).
  unfold storable in Hs. cbn [forallb] in Hs. rewrite andb_true_r in Hs.
  unfold when, save_block. rewrite Ep, Hs. reflexivity.
Qed.

End Run.

End ResultFileExtras.

(** ** The further properties at inputs *)

Module ExtraInstances.

Import Dict Aggregator AggregatorSpec AggregatorProps EvalCommon RunSpec
  MetricSpec MetricProps PathProps Inputs MoreInputs.

Lemma mpjpe_error_of_appended_batches_at_rows :
  mpjpe_error ([pred_rows] ++ [gt_rows]) ([gt_rows] ++ [gt_rows])
  = mpjpe_error [pred_rows] [gt_rows] ++ mpjpe_error [gt_rows] [gt_rows].
Proof.
  apply (@MetricExtras.mpjpe_error_of_appended_batches
           [pred_rows] [gt_rows] [gt_rows] [gt_rows]).
  reflexivity.
Defined.

Lemma mpjpe_error_finite_only_for_finite_joints_at_rows :
  Forall2 (fun e pg =>
             isfinite e = true ->
             coordinates_finite (fst pg) = true
             /\ coordinates_finite (snd pg) = true)
          (mpjpe_error [pred_rows] [gt_rows]) (combine [pred_rows] [gt_rows]).
Proof.
  apply (@MetricExtras.mpjpe_error_finite_only_for_finite_joints
           [pred_rows] [gt_rows]).
  constructor; [ | constructor].
  unfold same_shape, pred_rows, gt_rows. simpl.
  repeat constructor.
Defined.

Lemma sequence_name_is_the_directory_at_seqA :
  seq_name ("/d" ++ "/" ++ "seqA" ++ "/" ++ "i0.jpg") = "seqA"%string.
Proof.
  apply (@ScriptExtras.sequence_name_is_the_directory_of_the_image
           "/d" "seqA" "i0.jpg").
  - discriminate.
  - reflexivity.
  - reflexivity.
Defined.

Lemma seq_name_without_directory_at_image :
  seq_name "image_00000.jpg" = ""%string.
Proof.
  apply (@PathExtras.seq_name_without_directory "image_00000.jpg").
  reflexivity.
Defined.

Lemma pklfilepath_determines_the_index_at_3_and_13 :
  EvalFromPkl.pklfilepath 3 "/d/seqA/i0.jpg"
  <> EvalFromPkl.pklfilepath 13 "/d/seqA/i0.jpg".
Proof.
  apply (@PathExtras.pklfilepath_determines_the_index 3 13
           "/d/seqA/i0.jpg" "/d/seqA/i0.jpg").
  discriminate.
Defined.

Lemma keys_are_append_only_at_entries3 :
  exists q',
    record_call quant_empty entries3 = Ok q'
    /\ keys (quant_mpjpe q')
       = keys (quant_mpjpe quant_empty)
         ++ first_appearance
              (filter (fun k => negb (mem k (quant_mpjpe quant_empty)))
                 (seq_names entries3))
    /\ keys (quant_recon_err q') = keys (quant_mpjpe q').
Proof.
  apply (@AggregatorExtras.keys_are_append_only quant_empty entries3).
  reflexivity.
Defined.

Lemma progress_is_printed_every_log_freq_batches_at_step_1 :
  progress_block true true false false 1 1 2 (np_zeros 2) (np_zeros 2) []
  = (Ok tt,
     [] ++ (if (0 <? 2)%Z && ((Z.of_nat 1 + 1) mod 2 =? 0)%Z
            then [OutProgress "MPJPE: "
                    (if (0 <? 1 * 1) && (0 <? 2) then Fin 0 else NaN);
                  OutProgress "Reconstruction Error: "
                    (if (0 <? 1 * 1) && (0 <? 2) then Fin 0 else NaN);
                  OutBlank]
            else [])).
Proof.
  apply (@RunExtras.progress_is_printed_every_log_freq_batches 1 1 2%Z 2 []).
  discriminate.
Defined.

Lemma quiet_run_prints_only_the_summary_at_loader2 :
  EvalExport.run_evaluation_to recon_zero fmt_any (Some result_pkl) "3dpw"
    loader2 1 0 false []
  = (Ok (RetPair
           (fmul (np_mean (bucket_values
                             (errors_of (entries_of recon_zero loader2))))
              (Fin 1000))
           (fmul (np_mean (bucket_values
                             (r_errors_of (entries_of recon_zero loader2))))
              (Fin 1000))),
     [] ++ saved_lines (Some result_pkl)
     ++ [OutSummary
           (fmul (np_mean (bucket_values
                             (errors_of (entries_of recon_zero loader2))))
              (Fin 1000))
           (fmul (np_mean (bucket_values
                             (r_errors_of (entries_of recon_zero loader2))))
              (Fin 1000))]).
Proof.
  apply (@ResultFileExtras.quiet_run_prints_only_the_summary recon_zero
           fmt_any (Some result_pkl) "3dpw" loader2 1 0%Z []).
  - reflexivity.
  - discriminate.
  - reflexivity.
Defined.

Lemma pose_run_without_batches_raises_at_3dpw :
  EvalExport.run_evaluation recon_zero fmt_any "3dpw" [] 1 50 true []
  = (Raise ValueError, [] ++ [OutText "*** Final Results ***"; OutBlank]).
Proof.
  apply (@RunExtras.pose_run_without_batches_raises recon_zero fmt_any
           "3dpw" 1 50%Z true []).
  reflexivity.
Defined.

Lemma verbose_run_with_zero_log_freq_raises_at_loader2 :
  EvalExport.run_evaluation recon_zero fmt_any "3dpw"
    (Batch sample0 [] :: [Batch sample1 []]) 1 0 true []
  = (Raise ZeroDivisionError,
     [] ++ [batch_line recon_zero (Batch sample0 [])
              (record_entries quant_empty
                 (entries_of_batch recon_zero (Batch sample0 [])))]).
Proof.
  apply (@RunExtras.verbose_run_with_zero_log_freq_raises recon_zero fmt_any
           "3dpw" (Batch sample0 []) [Batch sample1 []] 1 []).
  reflexivity.
Defined.

Lemma other_dataset_at_3dpw_vibe :
  EvalExport.run_evaluation_to recon_zero fmt_any (Some result_pkl)
    "3dpw-vibe" loader2 1 50 true []
  = (Raise UnboundLocalError, []).
Proof.
  apply (@ResultFileExtras.other_dataset_returns_minus_one_or_fails_to_save
           recon_zero fmt_any (Some result_pkl) "3dpw-vibe" loader2 1 50%Z
           true []).
  - reflexivity.
  - discriminate.
  - discriminate.
Defined.

Lemma pose_run_returns_the_means_at_loader2 :
  exists lines,
    EvalExport.run_evaluation_to recon_zero fmt_any (Some result_pkl) "3dpw"
      loader2 1 2 true []
    = (Ok (RetPair
             (fmul (np_mean (bucket_values
                               (errors_of (entries_of recon_zero loader2))))
                (Fin 1000))
             (fmul (np_mean (bucket_values
                               (r_errors_of (entries_of recon_zero loader2))))
                (Fin 1000))),
       [] ++ lines ++ saved_lines (Some result_pkl)
       ++ [OutText "*** Final Results ***"; OutBlank;
           OutText (report_text fmt_any (entries_of recon_zero loader2))]).
Proof.
  apply (@ResultFileExtras.pose_run_returns_the_means_in_millimetres
           recon_zero fmt_any (Some result_pkl) "3dpw" loader2 1 2%Z true []).
  - reflexivity.
  - discriminate.
  - discriminate.
  - reflexivity.
Defined.

Lemma pose_run_cannot_save_other_joints_at_sample17 :
  EvalExport.run_evaluation_to recon_zero fmt_any (Some result_pkl)
    "mpi-inf-3dhp" (Batch sample17 [] :: []) 1 50 false []
  = (Raise ValueError, [] ++ []).
Proof.
  apply (@ResultFileExtras.pose_run_cannot_save_other_joints recon_zero
           fmt_any result_pkl "mpi-inf-3dhp" (Batch sample17 []) [] 1 50%Z
           false []).
  - reflexivity.
  - discriminate.
  - reflexivity.
Defined.

Lemma pose_run_from_files_returns_the_means_at_loader2 :
  exists lines,
    EvalFromPkl.run_evaluation recon_zero fmt_any all_files "3dpw-vibe"
      loader2 1 2 true []
    = (Ok (RetPair
             (fmul (np_mean
                      (bucket_values
                         (errors_of
                            (entries_of recon_zero
                               (map (EvalFromPkl.loaded_batch all_files)
                                  loader2)))))
                (Fin 1000))
             (fmul (np_mean
                      (bucket_values
                         (r_errors_of
                            (entries_of recon_zero
                               (map (EvalFromPkl.loaded_batch all_files)
                                  loader2)))))
                (Fin 1000))),
       [] ++ lines
       ++ [OutText "*** Final Results ***"; OutBlank;
           OutText (report_text fmt_any
                      (entries_of recon_zero
                         (map (EvalFromPkl.loaded_batch all_files) loader2)))]).
Proof.
  apply (@ScriptExtras.pose_run_from_files_returns_the_means recon_zero
           fmt_any all_files "3dpw-vibe" loader2 1 2%Z true []).
  - reflexivity.
  - discriminate.
  - discriminate.
  - reflexivity.
Defined.

Lemma lsp_run_from_files_raises_at_sample_lsp :
  EvalFromPkl.run_evaluation recon_zero fmt_any all_files "lsp"
    (Batch sample_lsp [] :: []) 1 50 true []
  = (Raise NameError, []).
Proof.
  apply (@ScriptExtras.lsp_run_from_files_raises recon_zero fmt_any
           all_files (Batch sample_lsp []) [] 1 50%Z true []).
  reflexivity.
Defined.

End ExtraInstances.
